(** * BrickBase server: agreement lifecycle and access guard

    A shallow embedding of [src/index.js]: the credential and role
    middleware, the agreement routes [POST /agreements] and
    [PATCH /agreements/:id], and the occupancy statistics of
    [GET /apartments/stats], with the properties of the tenancy
    specification stated over them.

    Documents are JavaScript objects, modelled as finite maps from field
    names to scalar values; a collection is the list of its documents in
    insertion order.  JavaScript numbers are IEEE binary64 floats where the
    code computes with them (the statistics).

    A handler is a function from the request and the store to the response
    and the store after it: requests are taken one at a time.  The store
    is reachable; of its errors the duplicate key of an insert is modelled,
    with the [catch] branch it leads to.  What the server cannot
    decide itself is an argument: the identity provider's verdict, the
    identifier syntax of the driver, the clock, the identifier generated
    for an insert. *)

From Stdlib Require Import ZArith String Ascii List.
From Stdlib Require Import Uint63 Floats.PrimFloat Floats.FloatOps Floats.SpecFloat.
From Stdlib Require Import Floats.FloatAxioms.
From stdpp Require Import gmap strings list pretty.

Local Open Scope string_scope.

(** ** Values and documents *)

(** The scalar values a document field holds: the JSON scalars of a request
    body, plus the two BSON types the server itself creates ([new Date()],
    [new ObjectId(id)]).  Numbers of documents are integer valued. *)
Inductive value :=
  | VNull
  | VBool (b : bool)
  | VNum (n : Z)
  | VStr (s : string)
  | VDate (ms : Z)
  | VOid (o : N).

Global Instance value_eq_dec : EqDecision value.
Proof. solve_decision. Defined.

(** A document; [d !! f = None] is JavaScript's [d.f === undefined]. *)
Abbreviation doc := (gmap string value).

Module JS.

(** ToBoolean on a defined value. *)
Definition truthy (v : value) : bool :=
  match v with
  | VNull => false
  | VBool b => b
  | VNum n => negb (n =? 0)%Z
  | VStr s => negb (String.eqb s "")
  | VDate _ | VOid _ => true
  end.

(** ToBoolean on a possibly undefined value: [if (x)], [!x]. *)
Definition to_boolean (o : option value) : bool :=
  match o with
  | Some v => truthy v
  | None => false
  end.

(** [x || d] with a defined default [d]. *)
Definition or_else (o : option value) (d : value) : value :=
  match o with
  | Some v => if truthy v then v else d
  | None => d
  end.

(** ToBoolean on a possibly undefined string. *)
Definition nonempty (o : option string) : bool :=
  match o with
  | Some s => negb (String.eqb s "")
  | None => false
  end.

(** [s.split(c)] for a one-character separator [c]. *)
Fixpoint split (c : ascii) (s : string) : list string :=
  match s with
  | EmptyString => [EmptyString]
  | String a s' =>
      if Ascii.eqb a c then EmptyString :: split c s'
      else match split c s' with
           | w :: ws => String a w :: ws
           | [] => [String a EmptyString]
           end
  end.

End JS.

(** ** Numbers

    JavaScript numbers are binary64 floats; [Prim2SF] gives the sign, the
    mantissa [m] and the exponent [e] of a finite one, its value being
    [m * 2 ^ e]. *)

Module Number.

(** The length of an array as a number (array lengths are below
    [2 ^ 32], where the conversion is exact). *)
Definition of_nat (n : nat) : float :=
  PrimFloat.of_uint63 (Uint63.of_Z (Z.of_nat n)).

(** The integer [n] for which [n / 10 ^ f - m * 2 ^ e] is as close to zero
    as possible, the larger one when there are two. *)
Definition nearest (f : nat) (m : positive) (e : Z) : Z :=
  let scaled := (Z.pos m * 10 ^ Z.of_nat f)%Z in
  if (0 <=? e)%Z then (scaled * 2 ^ e)%Z
  else ((2 * scaled + 2 ^ (- e)) / 2 ^ (1 - e))%Z.

(** [m * 2 ^ e >= 10 ^ 21] *)
Definition huge (m : positive) (e : Z) : bool :=
  if (0 <=? e)%Z then (10 ^ 21 <=? Z.pos m * 2 ^ e)%Z
  else (10 ^ 21 * 2 ^ (- e) <=? Z.pos m)%Z.

Definition zeros (k : nat) : string :=
  string_of_list_ascii (replicate k "0"%char).

(** The decimal digits of [n] with a point before the last [f] of
    them, zero padded to at least one digit before the point. *)
Definition fixed (f : nat) (n : Z) : string :=
  let m := pretty (Z.to_N n) in
  if (f =? 0)%nat then m
  else
    let m := zeros (f + 1 - String.length m) ++ m in
    let k := String.length m in
    substring 0 (k - f) m ++ "." ++ substring (k - f) f m.

(** [x.toFixed(f)]; [toString] is Number::toString, which [toFixed] falls
    back to from [10 ^ 21] on. *)
Definition toFixed (toString : float → string) (f : nat) (x : float) : string :=
  match Prim2SF x with
  | S754_nan => "NaN"
  | S754_infinity s => if s then "-Infinity" else "Infinity"
  | S754_zero _ => fixed f 0
  | S754_finite s m e =>
      (if s then "-" else "") ++
      (if huge m e then toString (PrimFloat.abs x)
       else fixed f (nearest f m e))
  end.

End Number.

(** A field of the statistics: a number or, out of [toFixed], a string. *)
Inductive numeric :=
  | Num (x : float)
  | Str (s : string).

(** ** The document store *)

Module Mongo.

(** What the driver sends for a JavaScript value: [undefined] is
    serialised as [null]. *)
Definition bson (o : option value) : value :=
  match o with
  | Some v => v
  | None => VNull
  end.

(** A condition on one field: [{f: v}] or [{f: {$in: vs}}]. *)
Inductive cond :=
  | Eq (v : value)
  | In (vs : list value).

(** A filter document: the conjunction of its field conditions. *)
Definition query := list (string * cond).

(** Equality match on a scalar field; a missing field matches [null]. *)
Definition field_is (d : doc) (f : string) (q : value) : bool :=
  bool_decide (bson (d !! f) = q).

Definition holds (d : doc) (fc : string * cond) : bool :=
  match fc.2 with
  | Eq q => field_is d fc.1 q
  | In qs => existsb (field_is d fc.1) qs
  end.

Definition matches (q : query) (d : doc) : bool := forallb (holds d) q.

(** [collection.find(q).toArray()] *)
Definition find (q : query) (c : list doc) : list doc :=
  List.filter (matches q) c.

(** [collection.findOne(q)]: the first match in natural order. *)
Definition findOne (q : query) (c : list doc) : option doc :=
  List.find (matches q) c.

(** [collection.updateOne(q, {$set: upd})]: the fields of [upd] are written
    into the first match; no match, no change (there is no upsert). *)
Fixpoint updateOne (q : query) (upd : doc) (c : list doc) : list doc :=
  match c with
  | [] => []
  | d :: c' =>
      if matches q d then (upd ∪ d) :: c' else d :: updateOne q upd c'
  end.

(** The document as stored by [insertOne]: the driver adds a generated
    [_id] when the document has none ([doc._id == null]). *)
Definition with_id (oid : N) (d : doc) : doc :=
  match d !! "_id" with
  | None | Some VNull => <["_id" := VOid oid]> d
  | Some _ => d
  end.

(** The unique index on [_id]: the document brings an [_id] that a stored
    document has. *)
Definition duplicate_key (d : doc) (c : list doc) : bool :=
  match d !! "_id" with
  | None | Some VNull => false
  | Some v => existsb (λ x : doc, bool_decide (x !! "_id" = Some v)) c
  end.

(** [collection.insertOne(d)]: the collection with the document at its
    end, or [None] when the insert is rejected for a duplicate key (the
    driver throws).  [oid] is the identifier the driver generates for this
    call, one that no stored document has. *)
Definition insertOne (oid : N) (d : doc) (c : list doc) : option (list doc) :=
  if duplicate_key d c then None else Some (c ++ [with_id oid d])%list.

End Mongo.

(** The collections of [brickBaseDb] the modelled routes use. *)
Record db := {
  users : list doc;
  agreements : list doc;
  apartments : list doc;
}.

(** ** Requests and responses *)

(** The claims of a verified identity token the server reads. *)
Record decoded_token := { email : option string }.

Record request := {
  authorization : option string;   (* req.headers.authorization *)
  id : string;                     (* req.params.id *)
  body : doc;                      (* req.body *)
  decoded : option decoded_token;  (* req.decoded *)
}.

Inductive payload :=
  | Message (m : string)            (* { message: m } *)
  | Inserted (insertedId : value)   (* the result of insertOne *)
  | Stats (total : nat) (availablePercentage unavailablePercentage : numeric).

Record response := { status : nat; sent : payload }.

(** What a middleware does: hand over to the next one, answer itself, or
    throw. *)
Inductive outcome :=
  | Next (req : request)
  | Reply (res : response)
  | Throw.

Definition set_decoded (d : decoded_token) (req : request) : request :=
  {| authorization := authorization req; id := id req; body := body req;
     decoded := Some d |}.

(** ** Middleware *)

(** [authHeader.split(" ")[1]] *)
Definition token (authHeader : string) : option string :=
  JS.split " " authHeader !! 1%nat.

(** The credential a request carries: the token of its authorization
    header, when there is a header and the token is not empty. *)
Definition credential (req : request) : option string :=
  match authorization req ≫= token with
  | Some t => if String.eqb t "" then None else Some t
  | None => None
  end.

Section Middleware.

(** [admin.auth().verifyIdToken]: the identity provider, [None] when it
    rejects the token. *)
Variable verifyIdToken : string → option decoded_token.

Definition verifyFirebaseToken (req : request) : outcome :=
  let authHeader := authorization req in
  if negb (JS.nonempty authHeader) then
    Reply {| status := 401; sent := Message "Unauthorized Access" |}
  else
    let token := authHeader ≫= token in
    if negb (JS.nonempty token) then
      Reply {| status := 401; sent := Message "Unauthorized Access" |}
    else
      match token ≫= verifyIdToken with
      | Some d => Next (set_decoded d req)
      | None => Reply {| status := 403; sent := Message "Forbidden Access" |}
      end.

End Middleware.

(** The filter [{ email }] for the email of a verified token. *)
Definition by_email (d : decoded_token) : Mongo.query :=
  [("email", Mongo.Eq (Mongo.bson (VStr <$> email d)))].

Definition verifyUser (usersCollection : list doc) (req : request) : outcome :=
  match decoded req with
  | None => Throw
  | Some d =>
      match Mongo.findOne (by_email d) usersCollection with
      | Some user =>
          if bool_decide (user !! "role" = Some (VStr "user")) then Next req
          else Reply {| status := 403;
                        sent := Message "Only users can access this route" |}
      | None => Reply {| status := 403;
                         sent := Message "Only users can access this route" |}
      end
  end.

Definition verifyMember (usersCollection : list doc) (req : request) : outcome :=
  match decoded req with
  | None => Throw
  | Some d =>
      match Mongo.findOne (by_email d) usersCollection with
      | Some user =>
          if bool_decide (user !! "role" = Some (VStr "member")) then Next req
          else Reply {| status := 403;
                        sent := Message "Only members can access this route" |}
      | None => Reply {| status := 403;
                         sent := Message "Only members can access this route" |}
      end
  end.

Definition verifyAdmin (usersCollection : list doc) (req : request) : outcome :=
  match decoded req with
  | None => Throw
  | Some d =>
      match Mongo.findOne (by_email d) usersCollection with
      | Some user =>
          if bool_decide (user !! "role" = Some (VStr "admin")) then Next req
          else Reply {| status := 403; sent := Message "Forbidden Access" |}
      | None => Reply {| status := 403; sent := Message "Forbidden Access" |}
      end
  end.

(** The role gates, by the capability they stand for. *)
Inductive capability := CapUser | CapMember | CapAdmin.

Definition role_name (cap : capability) : string :=
  match cap with
  | CapUser => "user"
  | CapMember => "member"
  | CapAdmin => "admin"
  end.

Definition gate (cap : capability) : list doc → request → outcome :=
  match cap with
  | CapUser => verifyUser
  | CapMember => verifyMember
  | CapAdmin => verifyAdmin
  end.

(** ** Agreement routes *)

Definition bad_request (m : string) : response :=
  {| status := 400; sent := Message m |}.

Definition ok (p : payload) : response := {| status := 200; sent := p |}.

(** [POST /agreements], step 1: the submitter's pending or approved
    agreement, if any. *)
Definition existingAgreement (agreementData : doc) (agreementsCollection : list doc)
  : option doc :=
  Mongo.findOne
    [("email", Mongo.Eq (Mongo.bson (agreementData !! "email")));
     ("status", Mongo.In [VStr "pending"; VStr "checked"])]
    agreementsCollection.

(** Step 2: the approved agreements of the requested apartment. *)
Definition checkedAgreements (agreementData : doc) (agreementsCollection : list doc)
  : list doc :=
  Mongo.find
    [("blockName", Mongo.Eq (Mongo.bson (agreementData !! "blockName")));
     ("apartmentNo", Mongo.Eq (Mongo.bson (agreementData !! "apartmentNo")));
     ("status", Mongo.Eq (VStr "checked"))]
    agreementsCollection.

(** A member among the owners of those agreements, if any. *)
Definition memberUser (agreementData : doc) (s : db) : option doc :=
  let checked := checkedAgreements agreementData (agreements s) in
  if (0 <? length checked)%nat then
    let emails := map (λ ag : doc, Mongo.bson (ag !! "email")) checked in
    Mongo.findOne
      [("email", Mongo.In emails); ("role", Mongo.Eq (VStr "member"))]
      (users s)
  else None.

(** The handler of [POST /agreements]; [oid] is the identifier the driver
    generates should the body carry none. *)
Definition post_agreements (oid : N) (req : request) (s : db) : response * db :=
  let agreementData := body req in
  match existingAgreement agreementData (agreements s) with
  | Some _ =>
      (bad_request
         "User already has an existing agreement (pending or approved).", s)
  | None =>
      match memberUser agreementData s with
      | Some _ =>
          (bad_request "This apartment is already assigned to a member.", s)
      | None =>
          match Mongo.insertOne oid agreementData (agreements s) with
          | Some agreements' =>
              (ok (Inserted
                     (Mongo.bson (Mongo.with_id oid agreementData !! "_id"))),
               {| users := users s;
                  agreements := agreements';
                  apartments := apartments s |})
          | None =>
              (* catch (error) *)
              ({| status := 500; sent := Message "Failed to create agreement" |},
               s)
          end
      end
  end.

Section Decide.

(** [ObjectId.isValid] and the identifier [new ObjectId(id)] denotes. *)
Variable isValid : string → bool.
Variable ObjectId : string → N.

Definition filter_id (id : string) : Mongo.query :=
  [("_id", Mongo.Eq (VOid (ObjectId id)))].

(** The [$set] document of [PATCH /agreements/:id]; [now] is
    [new Date()]. *)
Definition updateFields (now : Z) (body : doc) : doc :=
  let fields : doc :=
    {["status" := JS.or_else (body !! "status") (VStr "checked")]} in
  if bool_decide (body !! "role" = Some (VStr "member"))
  then <["acceptedDate" := VDate now]> fields
  else fields.

(** The second write: the owner of the agreement becomes a member. *)
Definition promote_owner (id : string) (agreementsCollection usersCollection : list doc)
  : list doc :=
  let userEmail :=
    Mongo.findOne (filter_id id) agreementsCollection ≫= λ agreement : doc,
    agreement !! "email" in
  if JS.to_boolean userEmail then
    Mongo.updateOne [("email", Mongo.Eq (Mongo.bson userEmail))]
      {["role" := VStr "member"]} usersCollection
  else usersCollection.

(** The handler of [PATCH /agreements/:id]. *)
Definition patch_agreement (now : Z) (req : request) (s : db) : response * db :=
  if negb (isValid (id req)) then (bad_request "Invalid agreement ID", s)
  else
    let agreements' :=
      Mongo.updateOne (filter_id (id req)) (updateFields now (body req))
        (agreements s) in
    let users' :=
      if bool_decide (body req !! "role" = Some (VStr "member"))
      then promote_owner (id req) agreements' (users s)
      else users s in
    (ok (Message "Agreement updated successfully"),
     {| users := users'; agreements := agreements';
        apartments := apartments s |}).

(** The calls that write the agreement store, and the store after a
    sequence of them. *)
Inductive call :=
  | Submit (oid : N) (req : request)
  | Decide (now : Z) (req : request).

Definition run (s : db) (c : call) : db :=
  match c with
  | Submit oid req => (post_agreements oid req s).2
  | Decide now req => (patch_agreement now req s).2
  end.

Definition run_all (s : db) (cs : list call) : db := foldl run s cs.

(** A call that brings no acceptance date: a submission without the field,
    a decision without the role [member]. *)
Definition no_acceptance (c : call) : Prop :=
  match c with
  | Submit _ req => body req !! "acceptedDate" = None
  | Decide _ req => body req !! "role" ≠ Some (VStr "member")
  end.

End Decide.

(** A route: the handler behind its middleware.  [None] stands for an
    exception that the route's own code does not catch. *)
Definition route (guards : list (request → outcome))
    (handler : request → response * db) (s : db) (req : request)
  : option (response * db) :=
  (fix go (gs : list (request → outcome)) (req : request) :=
     match gs with
     | [] => Some (handler req)
     | g :: gs' =>
         match g req with
         | Next req' => go gs' req'
         | Reply res => Some (res, s)
         | Throw => None
         end
     end) guards req.

(** [app.post("/agreements", verifyFirebaseToken, verifyUser, ...)] *)
Definition post_agreements_route (verifyIdToken : string → option decoded_token)
    (oid : N) (s : db) (req : request) : option (response * db) :=
  route [verifyFirebaseToken verifyIdToken; verifyUser (users s)]
    (λ req, post_agreements oid req s) s req.

(** [app.patch("/agreements/:id", verifyFirebaseToken, verifyAdmin, ...)] *)
Definition patch_agreement_route (verifyIdToken : string → option decoded_token)
    (isValid : string → bool) (ObjectId : string → N)
    (now : Z) (s : db) (req : request) : option (response * db) :=
  route [verifyFirebaseToken verifyIdToken; verifyAdmin (users s)]
    (λ req, patch_agreement isValid ObjectId now req s) s req.

(** ** Occupancy statistics *)

Section Occupancy.

(** String conversion of a template literal's substitution, and
    Number::toString. *)
Variable toString : option value → string.
Variable numberToString : float → string.

(** [`${d.blockName}-${d.apartmentNo}`] *)
Definition key (d : doc) : string :=
  toString (d !! "blockName") ++ "-" ++ toString (d !! "apartmentNo").

Definition occupiedMap (agreements : list doc) : gmap string bool :=
  foldl (λ (m : gmap string bool) (a : doc), <[key a := true]> m) ∅ agreements.

(** The number of apartments with an approved agreement. *)
Definition unavailable (apartments agreements : list doc) : nat :=
  length
    (List.filter
       (λ ap : doc, bool_decide (is_Some (occupiedMap agreements !! key ap)))
       apartments).

(** [total ? ((n / total) * 100).toFixed(2) : 0] *)
Definition percentage (n total : nat) : numeric :=
  if (total =? 0)%nat then Num 0%float
  else
    Str (Number.toFixed numberToString 2
           (Number.of_nat n / Number.of_nat total * 100)%float).

(** The body of [GET /apartments/stats] on the apartments and the
    approved agreements. *)
Definition computeStats (apartments agreements : list doc) : payload :=
  let total := length apartments in
  let unavailable := unavailable apartments agreements in
  let available := (total - unavailable)%nat in
  Stats total (percentage available total) (percentage unavailable total).

Definition get_apartments_stats (s : db) : response :=
  ok (computeStats (apartments s)
        (Mongo.find [("status", Mongo.Eq (VStr "checked"))] (agreements s))).

End Occupancy.

(** ** Further routes

    The lookups of agreements, the user routes, and the writes of coupons
    and payments.  A handler takes what it reads of the request; query
    string parameters are single strings. *)

(** What these routes send besides messages and insert results. *)
Inductive sent_body :=
  | Json (p : payload)
  | Document (d : doc)
  | Documents (ds : list doc)
  | RoleOf (role : option value)                     (* { role: user.role } *)
  | UserStats (totalUsers totalMembers : nat)
  | UpdateResult (matchedCount modifiedCount : nat). (* the result of updateOne *)

Record reply := { code : nat; sends : sent_body }.

Definition say (c : nat) (m : string) : reply :=
  {| code := c; sends := Json (Message m) |}.

(** The counts [updateOne(q, {$set: upd})] reports: whether a document
    matched, and whether writing [upd] changed it. *)
Definition matchedCount (q : Mongo.query) (c : list doc) : nat :=
  match Mongo.findOne q c with
  | Some _ => 1
  | None => 0
  end.

Definition modifiedCount (q : Mongo.query) (upd : doc) (c : list doc) : nat :=
  match Mongo.findOne q c with
  | Some d => if bool_decide (upd ∪ d = d) then 0 else 1
  | None => 0
  end.

(** The middleware of a route, in order, up to the first that answers. *)
Fixpoint through (guards : list (request → outcome)) (req : request) : outcome :=
  match guards with
  | [] => Next req
  | g :: guards' =>
      match g req with
      | Next req' => through guards' req'
      | Reply res => Reply res
      | Throw => Throw
      end
  end.

(** The handler of [GET /agreements]; [email] is [req.query.email]. *)
Definition get_agreements (email : option string) (s : db) : reply :=
  if JS.nonempty email then
    match Mongo.findOne
            [("email", Mongo.Eq (Mongo.bson (VStr <$> email)));
             ("status", Mongo.Eq (VStr "checked"))]
            (agreements s) with
    | Some agreement => {| code := 200; sends := Document agreement |}
    | None => say 404 "No active agreement found"
    end
  else
    {| code := 200;
       sends := Documents
                  (Mongo.find [("status", Mongo.Eq (VStr "pending"))]
                     (agreements s)) |}.

(** [GET /users/:email/role] *)
Definition get_user_role (email : string) (s : db) : reply :=
  if String.eqb email "" then say 400 "Email is required"
  else
    match Mongo.findOne [("email", Mongo.Eq (VStr email))] (users s) with
    | Some user => {| code := 200; sends := RoleOf (user !! "role") |}
    | None => say 404 "User not found"
    end.

(** [GET /users/stats] *)
Definition get_users_stats (s : db) : reply :=
  let total := length (users s) in
  let members :=
    length
      (List.filter
         (λ user : doc, bool_decide (user !! "role" = Some (VStr "member")))
         (users s)) in
  {| code := 200; sends := UserStats total members |}.

(** [POST /users]: what the handler sends and the store after it.  The
    handler has no [try]: when [insertOne] throws it sends nothing itself
    ([None]) and nothing is stored; what the client then gets is up to the
    framework. *)
Definition post_users (oid : N) (body : doc) (s : db) : option reply * db :=
  match Mongo.findOne [("email", Mongo.Eq (Mongo.bson (body !! "email")))]
          (users s) with
  | Some _ => (Some (say 200 "User already exists"), s)
  | None =>
      match Mongo.insertOne oid body (users s) with
      | Some users' =>
          (Some {| code := 200;
                   sends := Json (Inserted
                              (Mongo.bson (Mongo.with_id oid body !! "_id"))) |},
           {| users := users';
              agreements := agreements s;
              apartments := apartments s |})
      | None => (None, s)
      end
  end.

(** [GET /users?role=...]; [role] is [req.query.role]. *)
Definition get_users (role : option string) (s : db) : reply :=
  {| code := 200;
     sends := Documents
                (Mongo.find [("role", Mongo.Eq (Mongo.bson (VStr <$> role)))]
                   (users s)) |}.

(** [POST /payments] on the payments collection. *)
Definition post_payments (oid : N) (paymentData : doc) (paymentsCollection : list doc)
  : reply * list doc :=
  if negb (JS.to_boolean (paymentData !! "email"))
     || negb (JS.to_boolean (paymentData !! "month"))
     || negb (JS.to_boolean (paymentData !! "rent"))
  then (say 400 "Missing required fields", paymentsCollection)
  else
    match Mongo.insertOne oid paymentData paymentsCollection with
    | Some paymentsCollection' =>
        ({| code := 200;
            sends := Json (Inserted
                       (Mongo.bson (Mongo.with_id oid paymentData !! "_id"))) |},
         paymentsCollection')
    | None => (say 500 "Payment failed", paymentsCollection)
    end.

Section Identified.

(** [ObjectId.isValid] and [new ObjectId(id)], which throws on the strings
    that are not valid; [Number(x)]. *)
Variable isValid : string → bool.
Variable ObjectId : string → N.
Variable Number : value → value.

(** [GET /agreements/:id]; the exception of [new ObjectId(id)] is caught. *)
Definition get_agreement (id : string) (s : db) : reply :=
  if negb (isValid id) then say 500 "Failed to fetch agreement"
  else
    match Mongo.findOne (filter_id ObjectId id) (agreements s) with
    | Some agreement => {| code := 200; sends := Document agreement |}
    | None => say 404 "Agreement not found"
    end.

(** [PATCH /users/:id].  Nothing in the handler catches the exception of
    [new ObjectId(id)]: the handler then sends nothing itself and writes
    nothing ([None]); what the client gets is up to the framework. *)
Definition patch_user (id : string) (body : doc) (s : db) : option (reply * db) :=
  if negb (isValid id) then None
  else
    let filter := filter_id ObjectId id in
    let fields : doc := {["role" := Mongo.bson (body !! "role")]} in
    Some ({| code := 200;
             sends := UpdateResult (matchedCount filter (users s))
                        (modifiedCount filter fields (users s)) |},
          {| users := Mongo.updateOne filter fields (users s);
             agreements := agreements s;
             apartments := apartments s |}).

(** [POST /coupons] on the coupons collection; [now] is [new Date()]. *)
Definition post_coupons (oid : N) (now : Z) (body : doc) (couponsCollection : list doc)
  : reply * list doc :=
  let code := body !! "code" in
  let discount := body !! "discount" in
  let description := body !! "description" in
  let status := body !! "status" in
  if negb (JS.to_boolean code) || negb (JS.to_boolean discount)
     || negb (JS.to_boolean description)
  then (say 400 "All fields are required", couponsCollection)
  else
    match Mongo.findOne [("code", Mongo.Eq (Mongo.bson code))] couponsCollection with
    | Some _ => (say 400 "Coupon code already exists", couponsCollection)
    | None =>
        let newCoupon : doc :=
          {["code" := Mongo.bson code;
            "discount" := Number (Mongo.bson discount);
            "description" := Mongo.bson description;
            "status" := JS.or_else status (VStr "available");
            "createdAt" := VDate now]} in
        match Mongo.insertOne oid newCoupon couponsCollection with
        | Some couponsCollection' =>
            ({| code := 200;
                sends := Json (Inserted
                           (Mongo.bson (Mongo.with_id oid newCoupon !! "_id"))) |},
             couponsCollection')
        | None => (say 500 "Failed to create coupon", couponsCollection)
        end
    end.

(** [PATCH /coupons/:id/status] *)
Definition patch_coupon_status (id : string) (body : doc) (couponsCollection : list doc)
  : reply * list doc :=
  let status := body !! "status" in
  if negb (bool_decide (status = Some (VStr "available"))
           || bool_decide (status = Some (VStr "unavailable")))
  then (say 400 "Invalid status", couponsCollection)
  else if negb (isValid id)
  then (say 500 "Failed to update coupon status", couponsCollection)
  else
    let filter := filter_id ObjectId id in
    let fields : doc := {["status" := Mongo.bson status]} in
    let couponsCollection' := Mongo.updateOne filter fields couponsCollection in
    if (modifiedCount filter fields couponsCollection =? 0)%nat
    then (say 404 "Coupon not found or status unchanged", couponsCollection')
    else (say 200 "Status updated successfully", couponsCollection').

End Identified.

(** [app.patch("/users/:id", verifyFirebaseToken, verifyAdmin, ...)];
    [None] stands for an exception thrown out of the handler, which the
    route's own code does not answer. *)
Definition patch_user_route (verifyIdToken : string → option decoded_token)
    (isValid : string → bool) (ObjectId : string → N)
    (s : db) (req : request) : option (reply * db) :=
  match through [verifyFirebaseToken verifyIdToken; verifyAdmin (users s)] req with
  | Next req' => patch_user isValid ObjectId (id req') (body req') s
  | Reply res => Some ({| code := status res; sends := Json (sent res) |}, s)
  | Throw => None
  end.

(** ** Vocabulary of the specification *)

(** [a] is an agreement of the email [agreementData] is submitted for, and
    it is pending or approved.  (Emails are compared as the store does: a
    missing email is a [null] one.) *)
Definition active_agreement_of (agreementData a : doc) : Prop :=
  Mongo.bson (a !! "email") = Mongo.bson (agreementData !! "email")
  ∧ (a !! "status" = Some (VStr "pending")
     ∨ a !! "status" = Some (VStr "checked")).

Definition has_active_agreement (agreementData : doc) (s : db) : Prop :=
  ∃ a, a ∈ agreements s ∧ active_agreement_of agreementData a.

(** [a] is an approved agreement for the apartment of [agreementData]. *)
Definition checked_for_apartment (agreementData a : doc) : Prop :=
  Mongo.bson (a !! "blockName") = Mongo.bson (agreementData !! "blockName")
  ∧ Mongo.bson (a !! "apartmentNo") = Mongo.bson (agreementData !! "apartmentNo")
  ∧ a !! "status" = Some (VStr "checked").

(** The owner of [a] has a user record with role [member]. *)
Definition owner_is_member (usersCollection : list doc) (a : doc) : Prop :=
  ∃ user, user ∈ usersCollection
          ∧ Mongo.bson (user !! "email") = Mongo.bson (a !! "email")
          ∧ user !! "role" = Some (VStr "member").

(** The document brings no [_id] that a stored document has. *)
Definition no_duplicate_key (d : doc) (c : list doc) : Prop :=
  ∀ v a, d !! "_id" = Some v → v ≠ VNull → a ∈ c → a !! "_id" ≠ Some v.

(** [user] is the principal's record: the first record of the collection
    whose email is the email of the token (a token without an email
    standing with the records whose email is [null] or missing). *)
Definition record_of (d : decoded_token) (usersCollection : list doc) (user : doc)
  : Prop :=
  ∃ i, usersCollection !! i = Some user
       ∧ Mongo.bson (user !! "email") = Mongo.bson (VStr <$> email d)
       ∧ ∀ k x, (k < i)%nat → usersCollection !! k = Some x →
           Mongo.bson (x !! "email") ≠ Mongo.bson (VStr <$> email d).

(** The messages of the two conflicts. *)
Definition DuplicateAgreement : response :=
  bad_request "User already has an existing agreement (pending or approved).".

Definition ApartmentOccupied : response :=
  bad_request "This apartment is already assigned to a member.".

(** An agreement in force or awaiting review. *)
Definition active (a : doc) : Prop :=
  a !! "status" = Some (VStr "pending") ∨ a !! "status" = Some (VStr "checked").

(** No two active agreements of the collection are of one email. *)
Definition one_active_per_email (c : list doc) : Prop :=
  ∀ i j a b, c !! i = Some a → c !! j = Some b → active a → active b →
    Mongo.bson (a !! "email") = Mongo.bson (b !! "email") → i = j.

(** No two documents of the collection agree on the field [f]. *)
Definition unique_on (f : string) (c : list doc) : Prop :=
  ∀ i j a b, c !! i = Some a → c !! j = Some b →
    Mongo.bson (a !! f) = Mongo.bson (b !! f) → i = j.

(** The string has no occurrence of the character. *)
Fixpoint avoids (c : ascii) (s : string) : bool :=
  match s with
  | EmptyString => true
  | String a s' => negb (Ascii.eqb a c) && avoids c s'
  end.

(** [t] is the second word of the header [h]: [h] is a word, a space and
    [t], followed by nothing or by a space and anything; words have no
    space (and may be empty). *)
Definition second_word (h t : string) : Prop :=
  ∃ scheme, avoids " " scheme = true ∧ avoids " " t = true
    ∧ (h = scheme ++ " " ++ t ∨ ∃ rest, h = scheme ++ " " ++ t ++ " " ++ rest).

(** A payment with the fields [POST /payments] requires. *)
Definition complete_payment (p : doc) : Prop :=
  JS.to_boolean (p !! "email") = true
  ∧ JS.to_boolean (p !! "month") = true
  ∧ JS.to_boolean (p !! "rent") = true.

(** The review queue and the member count, as the routes compute them. *)
Definition pending_queue (s : db) : list doc :=
  Mongo.find [("status", Mongo.Eq (VStr "pending"))] (agreements s).

Definition is_member (user : doc) : bool :=
  bool_decide (user !! "role" = Some (VStr "member")).

(** ** Rounding of doubles

    The vocabulary of the library's specification of binary64 arithmetic,
    for the quotient and the product of the percentages. *)

(** The record [mrs] holds the quotient of [N] by [B], rounded down, and
    where the remainder lies: at or above one half ([shr_r]), and neither
    at zero nor at one half ([shr_s]). *)
Definition located (N B : Z) (mrs : shr_record) : Prop :=
  (0 ≤ N)%Z ∧ (0 < B)%Z ∧ shr_m mrs = (N / B)%Z
  ∧ (shr_r mrs = true ↔ (B ≤ 2 * (N mod B))%Z)
  ∧ (shr_s mrs = true ↔ (N mod B)%Z ≠ 0%Z ∧ (2 * (N mod B))%Z ≠ B).

(** Where [R / B] lies between zero and one. *)
Definition loc_of (R B : Z) : location :=
  if (R =? 0)%Z then loc_Exact else loc_Inexact (2 * R ?= B)%Z.

(** ** Sample data

    A concrete identifier syntax (24 hexadecimal digits) and small stores,
    on which the statements below are evaluated. *)

Module Sample.

Definition hex_digit (c : ascii) : option N :=
  let n := N_of_ascii c in
  if ((48 <=? n) && (n <=? 57))%N then Some (n - 48)%N
  else if ((97 <=? n) && (n <=? 102))%N then Some (n - 87)%N
  else if ((65 <=? n) && (n <=? 70))%N then Some (n - 55)%N
  else None.

Fixpoint hex_value (acc : N) (s : string) : option N :=
  match s with
  | EmptyString => Some acc
  | String c s' =>
      match hex_digit c with
      | Some d => hex_value (16 * acc + d)%N s'
      | None => None
      end
  end.

Definition isValid (s : string) : bool :=
  (String.length s =? 24)%nat && bool_decide (is_Some (hex_value 0 s)).

Definition ObjectId (s : string) : N := default 0%N (hex_value 0 s).

(** An identity provider that knows two tokens. *)
Definition verifyIdToken (t : string) : option decoded_token :=
  if String.eqb t "tok-alice" then Some {| email := Some "alice@x.io" |}
  else if String.eqb t "tok-root" then Some {| email := Some "root@x.io" |}
  else None.

Definition user (e r : string) : doc :=
  {["email" := VStr e; "role" := VStr r]}.

Definition agreement (i : N) (e b n st : string) : doc :=
  {["_id" := VOid i; "email" := VStr e; "blockName" := VStr b;
    "apartmentNo" := VStr n; "status" := VStr st]}.

Definition apartment (b n : string) : doc :=
  {["blockName" := VStr b; "apartmentNo" := VStr n]}.

Definition submission (e b n : string) : doc :=
  {["email" := VStr e; "blockName" := VStr b; "apartmentNo" := VStr n]}.

Definition request_of (i : string) (b : doc) : request :=
  {| authorization := Some "Bearer tok-alice"; id := i; body := b;
     decoded := Some {| email := Some "alice@x.io" |} |}.

(** A block of [n] apartments, and approved agreements for the first [k]
    of them. *)
Definition block (n : nat) : list doc :=
  map (λ i : nat, apartment "B" (pretty i)) (seq 0 n).

Definition lets (k : nat) : list doc :=
  map (λ i : nat, agreement (N.of_nat i) "t@x.io" "B" (pretty i) "checked")
    (seq 0 k).

Definition id1 : string := "000000000000000000000001".
Definition id9 : string := "000000000000000000000009".

(** Template substitution on the values the samples use: undefined, null,
    booleans, strings, and integers of magnitude below [10 ^ 21] (from
    there on JavaScript prints an exponent).  The samples hold no other
    value; such a value prints as a question mark here. *)
Definition toString (o : option value) : string :=
  match o with
  | None => "undefined"
  | Some VNull => "null"
  | Some (VBool b) => if b then "true" else "false"
  | Some (VNum n) => if (Z.abs n <? 10 ^ 21)%Z then pretty n else "?"
  | Some (VStr s) => s
  | Some (VDate _) | Some (VOid _) => "?"
  end.

(** Number::toString stands in [toFixed] for doubles from [10 ^ 21] on,
    which no percentage reaches; the samples never call it. *)
Definition numberToString (x : float) : string := "?".

End Sample.

(** * Properties *)

(** ** The store *)

Section MongoFacts.

Implicit Types (q : Mongo.query) (c : list doc) (d upd : doc).

Lemma findOne_None q c :
  Mongo.findOne q c = None ↔ ∀ d, d ∈ c → Mongo.matches q d = false.
Proof.
  unfold Mongo.findOne. induction c as [|d c IH]; simpl.
  - split; [intros _ d Hd; inversion Hd | done].
  - destruct (Mongo.matches q d) eqn:Hm.
    + split; [done |]. intros H. specialize (H d (list_elem_of_here _ _)).
      congruence.
    + rewrite IH. split.
      * intros H d' Hd'. apply elem_of_cons in Hd' as [-> | Hd']; auto.
      * intros H d' Hd'. apply H. by apply list_elem_of_further.
Qed.

Lemma findOne_Some q c d :
  Mongo.findOne q c = Some d → d ∈ c ∧ Mongo.matches q d = true.
Proof.
  unfold Mongo.findOne. intros H. apply find_some in H as [Hin Hm].
  split; [by apply list_elem_of_In | done].
Qed.

Lemma findOne_is_Some q c d :
  d ∈ c → Mongo.matches q d = true → is_Some (Mongo.findOne q c).
Proof.
  intros Hd Hm. destruct (Mongo.findOne q c) eqn:Hf; [by eexists |].
  rewrite findOne_None in Hf. rewrite (Hf d Hd) in Hm. discriminate.
Qed.

Lemma find_elem q c d :
  d ∈ Mongo.find q c ↔ d ∈ c ∧ Mongo.matches q d = true.
Proof.
  unfold Mongo.find. rewrite !list_elem_of_In. apply filter_In.
Qed.

Lemma updateOne_no_match q upd c :
  Mongo.findOne q c = None → Mongo.updateOne q upd c = c.
Proof.
  unfold Mongo.findOne. induction c as [|d c IH]; simpl; [done |].
  destruct (Mongo.matches q d); [done |]. intros H. by rewrite IH.
Qed.

Lemma updateOne_length q upd c :
  length (Mongo.updateOne q upd c) = length c.
Proof.
  induction c as [|d c IH]; simpl; [done |].
  destruct (Mongo.matches q d); simpl; by rewrite ?IH.
Qed.

(** Position by position, [updateOne] leaves a document alone or writes
    [upd] into it. *)
Lemma updateOne_lookup q upd c i :
  Mongo.updateOne q upd c !! i = c !! i
  ∨ ∃ d, c !! i = Some d ∧ Mongo.updateOne q upd c !! i = Some (upd ∪ d).
Proof.
  revert i. induction c as [|d c IH]; intros i; simpl; [by left |].
  destruct (Mongo.matches q d).
  - destruct i as [|i]; simpl; [right; by exists d | by left].
  - destruct i as [|i]; simpl; [by left | apply IH].
Qed.

(** The first match is the one updated; when the update keeps it a match
    it is found again, updated. *)
Lemma findOne_updateOne q upd c d :
  Mongo.findOne q c = Some d →
  Mongo.matches q (upd ∪ d) = true →
  Mongo.findOne q (Mongo.updateOne q upd c) = Some (upd ∪ d).
Proof.
  unfold Mongo.findOne. induction c as [|d' c IH]; simpl; [done |].
  destruct (Mongo.matches q d') eqn:Hm.
  - intros [= ->] Hu. simpl. by rewrite Hu.
  - intros Hf Hu. simpl. rewrite Hm. by apply IH.
Qed.

(** The position of the first match. *)
Lemma updateOne_at q upd c d :
  Mongo.findOne q c = Some d →
  ∃ i, c !! i = Some d ∧ Mongo.updateOne q upd c = <[i := upd ∪ d]> c.
Proof.
  unfold Mongo.findOne. induction c as [|d' c IH]; simpl; [done |].
  destruct (Mongo.matches q d') eqn:Hm.
  - intros [= ->]. by exists 0%nat.
  - intros Hf. destruct (IH Hf) as (i & Hi & Hu).
    exists (S i). simpl. by rewrite Hu.
Qed.

End MongoFacts.

(** ** Access guard *)

Lemma credential_Some req t :
  credential req = Some t ↔
  ∃ h, authorization req = Some h ∧ token h = Some t ∧ t ≠ "".
Proof.
  unfold credential. destruct (authorization req) as [h|]; simpl.
  - destruct (token h) as [t'|] eqn:Ht.
    + destruct (String.eqb_spec t' "") as [-> | Hne].
      * split; [done | intros (? & [= <-] & Ht' & ?)]. congruence.
      * split.
        -- intros [= ->]. by exists h.
        -- intros (? & [= <-] & Ht' & ?). congruence.
    + split; [done | intros (? & [= <-] & Ht' & ?)]. congruence.
  - split; [done | by intros (? & ? & _)].
Qed.

Lemma credential_nonempty req :
  JS.nonempty (authorization req) = false → credential req = None.
Proof.
  unfold credential. destruct (authorization req) as [h|]; [| done].
  simpl. destruct (String.eqb_spec h "") as [-> | ?]; [done | discriminate].
Qed.

(** The verifier, by cases on the credential. *)
Lemma verifyFirebaseToken_cases verifyIdToken req :
  verifyFirebaseToken verifyIdToken req =
    match credential req with
    | None => Reply {| status := 401; sent := Message "Unauthorized Access" |}
    | Some t =>
        match verifyIdToken t with
        | Some d => Next (set_decoded d req)
        | None => Reply {| status := 403; sent := Message "Forbidden Access" |}
        end
    end.
Proof.
  unfold verifyFirebaseToken.
  destruct (JS.nonempty (authorization req)) eqn:Hh; simpl.
  - unfold credential. destruct (authorization req ≫= token) as [t|]; simpl.
    + by destruct (String.eqb t ""); simpl.
    + done.
  - by rewrite credential_nonempty.
Qed.

(** ** Agreement creation *)

Lemma bson_str (o : option value) (x : string) :
  Mongo.bson o = VStr x ↔ o = Some (VStr x).
Proof. destruct o as [v|]; simpl; [| done]. split; congruence. Qed.

Lemma existingAgreement_None (agreementData : doc) (s : db) :
  existingAgreement agreementData (agreements s) = None ↔
  ¬ has_active_agreement agreementData s.
Proof.
  unfold existingAgreement. rewrite findOne_None. unfold has_active_agreement.
  assert (∀ a : doc,
    Mongo.matches
      [("email", Mongo.Eq (Mongo.bson (agreementData !! "email")));
       ("status", Mongo.In [VStr "pending"; VStr "checked"])] a = true
    ↔ active_agreement_of agreementData a) as Hm.
  { intros a. unfold active_agreement_of. simpl.
    unfold Mongo.holds, Mongo.field_is; simpl.
    rewrite !andb_true_iff, !orb_true_iff, !bool_decide_eq_true, !bson_str.
    intuition discriminate. }
  split.
  - intros H (a & Ha & Hact). apply Hm in Hact. rewrite (H a Ha) in Hact.
    discriminate.
  - intros H a Ha. apply not_true_is_false. rewrite Hm.
    intros Hact. apply H. by exists a.
Qed.

Lemma checkedAgreements_elem (agreementData a : doc) (c : list doc) :
  a ∈ checkedAgreements agreementData c ↔
  a ∈ c ∧ checked_for_apartment agreementData a.
Proof.
  unfold checkedAgreements. rewrite find_elem. unfold checked_for_apartment.
  simpl. unfold Mongo.holds, Mongo.field_is; simpl.
  rewrite !andb_true_iff, !bool_decide_eq_true, !bson_str. tauto.
Qed.

Lemma memberUser_None (agreementData : doc) (s : db) :
  memberUser agreementData s = None ↔
  ∀ a, a ∈ agreements s → checked_for_apartment agreementData a →
       ¬ owner_is_member (users s) a.
Proof.
  unfold memberUser.
  set (checked := checkedAgreements agreementData (agreements s)).
  assert (∀ u : doc,
    Mongo.matches
      [("email", Mongo.In (map (λ ag : doc, Mongo.bson (ag !! "email")) checked));
       ("role", Mongo.Eq (VStr "member"))] u = true
    ↔ ∃ a, a ∈ checked
           ∧ Mongo.bson (u !! "email") = Mongo.bson (a !! "email")
           ∧ u !! "role" = Some (VStr "member")) as Hm.
  { intros u. simpl. unfold Mongo.holds, Mongo.field_is; simpl.
    rewrite !andb_true_iff, existsb_exists, !bool_decide_eq_true, bson_str.
    split.
    - intros [(v & Hv & Hu) [Hr _]]. apply in_map_iff in Hv as (a & <- & Ha).
      rewrite bool_decide_eq_true in Hu. exists a.
      by rewrite list_elem_of_In.
    - intros (a & Ha & He & Hr). split_and!; [| done..].
      exists (Mongo.bson (a !! "email")). split.
      + apply in_map_iff. exists a. by rewrite <- list_elem_of_In.
      + by rewrite bool_decide_eq_true. }
  destruct (0 <? length checked)%nat eqn:Hlen.
  - rewrite findOne_None. split.
    + intros H a Ha Hc (u & Hu & He & Hr).
      assert (Mongo.matches
        [("email", Mongo.In (map (λ ag : doc, Mongo.bson (ag !! "email")) checked));
         ("role", Mongo.Eq (VStr "member"))] u = true) as Hmu.
      { apply Hm. exists a. split_and!; [| done..].
        by apply checkedAgreements_elem. }
      rewrite (H u Hu) in Hmu. discriminate.
    + intros H u Hu. apply not_true_is_false. rewrite Hm.
      intros (a & Ha & He & Hr). apply checkedAgreements_elem in Ha as [Ha Hc].
      apply (H a Ha Hc). by exists u.
  - split; [| done]. intros _ a Ha Hc _.
    assert (a ∈ checked) as Hin by by apply checkedAgreements_elem.
    apply Nat.ltb_ge in Hlen. destruct checked; [inversion Hin | simpl in Hlen; lia].
Qed.

(** The duplicate key, in words. *)
Lemma duplicate_key_false (d : doc) (c : list doc) :
  Mongo.duplicate_key d c = false ↔ no_duplicate_key d c.
Proof.
  unfold Mongo.duplicate_key, no_duplicate_key.
  destruct (d !! "_id") as [v|] eqn:Hid; [| by split].
  assert (existsb (λ x : doc, bool_decide (x !! "_id" = Some v)) c = false
          ↔ ∀ a, a ∈ c → a !! "_id" ≠ Some v) as Hex.
  { rewrite <- not_true_iff_false, existsb_exists. split.
    - intros H a Ha Heq. apply H. exists a.
      split; [by apply list_elem_of_In | by apply bool_decide_eq_true].
    - intros H (a & Ha & Heq). apply bool_decide_eq_true in Heq.
      apply (H a); [by apply list_elem_of_In | done]. }
  destruct (decide (v = VNull)) as [-> | Hv].
  - split; [| done]. intros _ v' a [= <-] Hn. done.
  - assert (match v with
            | VNull => false
            | _ => existsb (λ x : doc, bool_decide (x !! "_id" = Some v)) c
            end = existsb (λ x : doc, bool_decide (x !! "_id" = Some v)) c)
      as -> by (by destruct v).
    rewrite Hex. split.
    + intros H v' a [= <-] _ Ha. by apply H.
    + intros H a Ha. by apply (H v a).
Qed.

Lemma insertOne_Some (oid : N) (d : doc) (c c' : list doc) :
  Mongo.insertOne oid d c = Some c' ↔
  Mongo.duplicate_key d c = false ∧ c' = (c ++ [Mongo.with_id oid d])%list.
Proof.
  unfold Mongo.insertOne. destruct (Mongo.duplicate_key d c).
  - split; [done | by intros [? _]].
  - split; [by intros [= <-] | by intros [_ ->]].
Qed.

(** The outcomes of [POST /agreements]. *)
Lemma post_agreements_cases (oid : N) (req : request) (s : db) :
  post_agreements oid req s =
    match existingAgreement (body req) (agreements s),
          memberUser (body req) s with
    | Some _, _ => (DuplicateAgreement, s)
    | None, Some _ => (ApartmentOccupied, s)
    | None, None =>
        if Mongo.duplicate_key (body req) (agreements s)
        then ({| status := 500; sent := Message "Failed to create agreement" |},
              s)
        else
          (ok (Inserted (Mongo.bson (Mongo.with_id oid (body req) !! "_id"))),
           {| users := users s;
              agreements := agreements s ++ [Mongo.with_id oid (body req)];
              apartments := apartments s |})
    end.
Proof.
  unfold post_agreements, Mongo.insertOne.
  destruct (existingAgreement _ _); [done |].
  destruct (memberUser _ _); [done |].
  by destruct (Mongo.duplicate_key _ _).
Qed.

Lemma with_id_lookup (oid : N) (d : doc) (f : string) :
  f ≠ "_id" → Mongo.with_id oid d !! f = d !! f.
Proof.
  intros Hf. unfold Mongo.with_id.
  destruct (d !! "_id") as [[]|]; by rewrite ?lookup_insert_ne.
Qed.

(** C4: when the store holds a pending or approved agreement for the email
    of the submission, the request is answered 400 with the duplicate
    message and the store is left as it was. *)
Theorem duplicate_agreement_rejected (oid : N) (req : request) (s : db) :
  has_active_agreement (body req) s →
  post_agreements oid req s = (DuplicateAgreement, s).
Proof.
  intros H. rewrite post_agreements_cases.
  destruct (existingAgreement _ _) eqn:He; [done |].
  apply existingAgreement_None in He. done.
Qed.

(** C1, as the code has it: a request that passes both conflict checks and
    brings no [_id] a stored agreement has is stored as submitted, apart
    from the identifier the store adds: the stored status is the one the
    body supplies.  With an [_id] that is taken the insert fails, the
    answer is 500 and nothing is stored. *)
Theorem post_agreements_stores_body (oid : N) (req : request) (s : db) :
  ¬ has_active_agreement (body req) s →
  (∀ a, a ∈ agreements s → checked_for_apartment (body req) a →
        ¬ owner_is_member (users s) a) →
  let stored := Mongo.with_id oid (body req) in
  (no_duplicate_key (body req) (agreements s) →
     post_agreements oid req s
     = (ok (Inserted (Mongo.bson (stored !! "_id"))),
        {| users := users s;
           agreements := (agreements s ++ [stored])%list;
           apartments := apartments s |})
     ∧ stored !! "status" = body req !! "status"
     ∧ (∀ f, f ≠ "_id" → stored !! f = body req !! f))
  ∧ (¬ no_duplicate_key (body req) (agreements s) →
     post_agreements oid req s
     = ({| status := 500; sent := Message "Failed to create agreement" |}, s)).
Proof.
  intros Hdup Hocc stored. rewrite post_agreements_cases.
  apply existingAgreement_None in Hdup. apply memberUser_None in Hocc.
  rewrite Hdup, Hocc. split.
  - intros Hkey. apply duplicate_key_false in Hkey. rewrite Hkey.
    split_and!; [done | |].
    + by apply with_id_lookup.
    + intros f Hf. by apply with_id_lookup.
  - intros Hkey. destruct (Mongo.duplicate_key _ _) eqn:Hk; [done |].
    by apply duplicate_key_false in Hk.
Qed.

(** C3, as the code has it: when the submitter has no pending or approved
    agreement, a member owning an approved agreement for the requested
    apartment gets the request answered 400 with the occupied message and
    the store left as it was; when no approved agreement for the apartment
    has a member as owner, the agreement is inserted and the answer is
    200, unless the body brings an [_id] that a stored agreement has: then
    the insert fails, the answer is 500 and the store is left as it was. *)
Theorem apartment_conflict_decides (oid : N) (req : request) (s : db) :
  ¬ has_active_agreement (body req) s →
  ((∃ a, a ∈ agreements s ∧ checked_for_apartment (body req) a
         ∧ owner_is_member (users s) a) →
     post_agreements oid req s = (ApartmentOccupied, s))
  ∧ ((∀ a, a ∈ agreements s → checked_for_apartment (body req) a →
           ¬ owner_is_member (users s) a) →
     (no_duplicate_key (body req) (agreements s) →
        status (post_agreements oid req s).1 = 200%nat
        ∧ (post_agreements oid req s).2 =
            {| users := users s;
               agreements :=
                 (agreements s ++ [Mongo.with_id oid (body req)])%list;
               apartments := apartments s |})
     ∧ (¬ no_duplicate_key (body req) (agreements s) →
        post_agreements oid req s
        = ({| status := 500; sent := Message "Failed to create agreement" |},
           s))).
Proof.
  intros Hdup. apply existingAgreement_None in Hdup.
  rewrite post_agreements_cases, Hdup. split.
  - intros (a & Ha & Hc & Hm).
    destruct (memberUser (body req) s) eqn:Hu; [done |].
    exfalso. rewrite memberUser_None in Hu. by apply (Hu a).
  - intros Hfree. apply memberUser_None in Hfree. rewrite Hfree. split.
    + intros Hkey. apply duplicate_key_false in Hkey. by rewrite Hkey.
    + intros Hkey. destruct (Mongo.duplicate_key _ _) eqn:Hk; [done |].
      by apply duplicate_key_false in Hk.
Qed.

(** C3 at a sample store, on an occupied apartment and on one whose
    approved agreement belongs to a user who was never promoted. *)
Lemma apartment_conflict_decides_witness :
  let s := {| users := [Sample.user "bob@x.io" "member";
                        Sample.user "carol@x.io" "user"];
              agreements := [Sample.agreement 1 "bob@x.io" "B1" "101" "checked";
                             Sample.agreement 2 "carol@x.io" "B2" "7" "checked"];
              apartments := [] |} in
  let occupied := Sample.request_of "" (Sample.submission "alice@x.io" "B1" "101") in
  let free := Sample.request_of "" (Sample.submission "alice@x.io" "B2" "7") in
  post_agreements 9 occupied s = (ApartmentOccupied, s)
  ∧ status (post_agreements 9 free s).1 = 200%nat
  ∧ agreements (post_agreements 9 free s).2
    = (agreements s ++ [<["_id" := VOid 9]> (body free)])%list.
Proof.
  intros s occupied free. split_and!.
  - refine (proj1 (apartment_conflict_decides 9 occupied s _) _).
    + apply existingAgreement_None. vm_compute. reflexivity.
    + exists (Sample.agreement 1 "bob@x.io" "B1" "101" "checked").
      split_and!; [apply list_elem_of_here | vm_compute; done |].
      exists (Sample.user "bob@x.io" "member").
      split_and!; [apply list_elem_of_here | vm_compute; done..].
  - refine (proj1 (proj1 (proj2 (apartment_conflict_decides 9 free s _) _) _)).
    + apply existingAgreement_None. vm_compute. reflexivity.
    + apply memberUser_None. vm_compute. reflexivity.
    + apply duplicate_key_false. vm_compute. reflexivity.
  - vm_compute. reflexivity.
Defined.

(** C3 as stated fails where the submitter also holds a pending agreement:
    the apartment is occupied by a member, yet the answer is the duplicate
    one. *)
Lemma apartment_occupied_duplicate_first :
  let s := {| users := [Sample.user "bob@x.io" "member";
                        Sample.user "alice@x.io" "user"];
              agreements := [Sample.agreement 1 "bob@x.io" "B1" "101" "checked";
                             Sample.agreement 2 "alice@x.io" "B2" "7" "pending"];
              apartments := [] |} in
  let req := Sample.request_of "" (Sample.submission "alice@x.io" "B1" "101") in
  (∃ a, a ∈ agreements s ∧ checked_for_apartment (body req) a
        ∧ owner_is_member (users s) a)
  ∧ post_agreements 9 req s = (DuplicateAgreement, s)
  ∧ post_agreements 9 req s ≠ (ApartmentOccupied, s).
Proof.
  intros s req. split_and!.
  - exists (Sample.agreement 1 "bob@x.io" "B1" "101" "checked").
    split_and!; [apply list_elem_of_here | vm_compute; done |].
    exists (Sample.user "bob@x.io" "member").
    split_and!; [apply list_elem_of_here | vm_compute; done..].
  - vm_compute. reflexivity.
  - vm_compute. discriminate.
Qed.

(** C4 at a sample store: a second submission of an approved tenant. *)
Lemma duplicate_agreement_rejected_witness :
  let s := {| users := [Sample.user "alice@x.io" "user"];
              agreements := [Sample.agreement 1 "alice@x.io" "B1" "101" "checked"];
              apartments := [] |} in
  let req := Sample.request_of "" (Sample.submission "alice@x.io" "B2" "7") in
  post_agreements 9 req s = (DuplicateAgreement, s).
Proof.
  intros s req. apply (duplicate_agreement_rejected 9 req s).
  exists (Sample.agreement 1 "alice@x.io" "B1" "101" "checked").
  split; [apply list_elem_of_here |]. split; [vm_compute; done |].
  right. vm_compute. reflexivity.
Defined.

(** C1 as stated fails on a body that says [checked]: it passes both
    checks on an empty store and is stored as [checked]. *)
Lemma post_agreements_self_approved :
  let s := {| users := [Sample.user "alice@x.io" "user"];
              agreements := []; apartments := [] |} in
  let b := <["status" := VStr "checked"]>
             (Sample.submission "alice@x.io" "B1" "101") in
  let req := Sample.request_of "" b in
  existingAgreement b (agreements s) = None
  ∧ memberUser b s = None
  ∧ ∃ a, agreements (post_agreements 9 req s).2 = [a]
         ∧ a !! "status" = Some (VStr "checked")
         ∧ a !! "status" ≠ Some (VStr "pending").
Proof.
  intros s b req. split_and!; [vm_compute; reflexivity..|].
  exists (Mongo.with_id 9 b). split_and!.
  - vm_compute. reflexivity.
  - vm_compute. reflexivity.
  - vm_compute. discriminate.
Qed.

Lemma post_agreements_stores_body_witness :
  let s := {| users := [Sample.user "alice@x.io" "user"];
              agreements := [<["_id" := VStr "a1"]>
                               (Sample.submission "bob@x.io" "B9" "9")];
              apartments := [] |} in
  let b := <["status" := VStr "pending"]>
             (Sample.submission "alice@x.io" "B1" "101") in
  let taken := <["_id" := VStr "a1"]> b in
  (agreements (post_agreements 9 (Sample.request_of "" b) s).2
   = (agreements s ++ [Mongo.with_id 9 b])%list
   ∧ Mongo.with_id 9 b !! "status" = Some (VStr "pending"))
  ∧ post_agreements 9 (Sample.request_of "" taken) s
    = ({| status := 500; sent := Message "Failed to create agreement" |}, s).
Proof.
  intros s b taken. split.
  - assert (¬ has_active_agreement (body (Sample.request_of "" b)) s) as Hdup.
    { apply existingAgreement_None. vm_compute. reflexivity. }
    assert (∀ a, a ∈ agreements s →
              checked_for_apartment (body (Sample.request_of "" b)) a →
              ¬ owner_is_member (users s) a) as Hocc.
    { apply memberUser_None. vm_compute. reflexivity. }
    destruct (proj1 (post_agreements_stores_body 9 (Sample.request_of "" b) s
                       Hdup Hocc)) as (H1 & H2 & _).
    { apply duplicate_key_false. vm_compute. reflexivity. }
    split; [by rewrite H1 | exact H2].
  - refine (proj2 (post_agreements_stores_body 9 (Sample.request_of "" taken) s
                     _ _) _).
    + apply existingAgreement_None. vm_compute. reflexivity.
    + apply memberUser_None. vm_compute. reflexivity.
    + rewrite <- duplicate_key_false. vm_compute. discriminate.
Defined.

(** ** Administrative decision *)

Lemma updateFields_status (now : Z) (b : doc) :
  updateFields now b !! "status"
  = Some (JS.or_else (b !! "status") (VStr "checked")).
Proof.
  unfold updateFields. case_bool_decide.
  - rewrite lookup_insert_ne by done. apply lookup_singleton_eq.
  - apply lookup_singleton_eq.
Qed.

Lemma updateFields_acceptedDate (now : Z) (b : doc) :
  updateFields now b !! "acceptedDate"
  = if bool_decide (b !! "role" = Some (VStr "member"))
    then Some (VDate now) else None.
Proof.
  unfold updateFields. case_bool_decide.
  - apply lookup_insert_eq.
  - by rewrite lookup_singleton_ne.
Qed.

Lemma updateFields_other (now : Z) (b : doc) (f : string) :
  f ≠ "status" → f ≠ "acceptedDate" → updateFields now b !! f = None.
Proof.
  intros H1 H2. unfold updateFields. case_bool_decide.
  - rewrite lookup_insert_ne by done. by rewrite lookup_singleton_ne.
  - by rewrite lookup_singleton_ne.
Qed.

Lemma updateFields_not_member (now : Z) (b : doc) :
  b !! "role" ≠ Some (VStr "member") →
  updateFields now b
  = {["status" := JS.or_else (b !! "status") (VStr "checked")]}.
Proof. intros H. unfold updateFields. by rewrite bool_decide_false. Qed.

Section DecideFacts.

Variable isValid : string → bool.
Variable ObjectId : string → N.

Lemma filter_id_matches (i : string) (a : doc) :
  Mongo.matches (filter_id ObjectId i) a = true
  ↔ a !! "_id" = Some (VOid (ObjectId i)).
Proof.
  unfold filter_id. simpl. unfold Mongo.holds, Mongo.field_is; simpl.
  rewrite andb_true_r, bool_decide_eq_true.
  destruct (a !! "_id"); simpl; [| done]. split; congruence.
Qed.

Lemma filter_id_None (i : string) (c : list doc) :
  Mongo.findOne (filter_id ObjectId i) c = None
  ↔ ∀ a, a ∈ c → a !! "_id" ≠ Some (VOid (ObjectId i)).
Proof.
  rewrite findOne_None. split.
  - intros H a Ha Hid. apply filter_id_matches in Hid.
    rewrite (H a Ha) in Hid. discriminate.
  - intros H a Ha. apply not_true_is_false. rewrite filter_id_matches.
    by apply H.
Qed.

(** A decision on an identifier no agreement has changes nothing. *)
Lemma patch_agreement_unmatched (now : Z) (req : request) (s : db) :
  isValid (id req) = true →
  Mongo.findOne (filter_id ObjectId (id req)) (agreements s) = None →
  patch_agreement isValid ObjectId now req s
  = (ok (Message "Agreement updated successfully"), s).
Proof.
  intros Hv Hf. unfold patch_agreement, promote_owner. rewrite Hv. simpl.
  rewrite (updateOne_no_match _ _ _ Hf), Hf. simpl.
  destruct s. simpl. by case_bool_decide.
Qed.

(** A decision on the identifier of a stored agreement: the fields are
    written into the first agreement with that identifier and, for the role
    [member], the role of the first user with its email is written too. *)
Lemma patch_agreement_matched (now : Z) (req : request) (s : db) (a : doc) :
  isValid (id req) = true →
  Mongo.findOne (filter_id ObjectId (id req)) (agreements s) = Some a →
  ∃ i, agreements s !! i = Some a
    ∧ Mongo.findOne (filter_id ObjectId (id req))
        (<[i := updateFields now (body req) ∪ a]> (agreements s))
      = Some (updateFields now (body req) ∪ a)
    ∧ patch_agreement isValid ObjectId now req s
      = (ok (Message "Agreement updated successfully"),
         {| users :=
              if bool_decide (body req !! "role" = Some (VStr "member"))
                 && JS.to_boolean (a !! "email")
              then Mongo.updateOne
                     [("email", Mongo.Eq (Mongo.bson (a !! "email")))]
                     {["role" := VStr "member"]} (users s)
              else users s;
            agreements := <[i := updateFields now (body req) ∪ a]> (agreements s);
            apartments := apartments s |}).
Proof.
  intros Hv Hf. destruct (updateOne_at _ (updateFields now (body req)) _ _ Hf)
    as (i & Hi & Hu).
  assert (∀ f, f ≠ "status" → f ≠ "acceptedDate" →
            (updateFields now (body req) ∪ a) !! f = a !! f) as Hkeep.
  { intros f H1 H2. apply lookup_union_r. by apply updateFields_other. }
  assert (Mongo.findOne (filter_id ObjectId (id req))
            (Mongo.updateOne (filter_id ObjectId (id req))
               (updateFields now (body req)) (agreements s))
          = Some (updateFields now (body req) ∪ a)) as Hagain.
  { apply findOne_updateOne; [done |].
    apply filter_id_matches. rewrite Hkeep by done.
    apply findOne_Some in Hf as [_ Hm]. by apply filter_id_matches. }
  exists i. split_and!; [done | by rewrite <- Hu |].
  unfold patch_agreement, promote_owner. rewrite Hv. simpl. rewrite Hagain.
  rewrite <- Hu. f_equal. f_equal.
  case_bool_decide as Hrole; simpl; [| done]. by rewrite Hkeep.
Qed.

(** C9: a decision on a well-formed identifier that no stored agreement
    has is answered with the success confirmation, and the store (the
    agreements and the users with their roles) stays as it was. *)
Theorem patch_agreement_unknown_id (now : Z) (req : request) (s : db) :
  isValid (id req) = true →
  (∀ a, a ∈ agreements s → a !! "_id" ≠ Some (VOid (ObjectId (id req)))) →
  patch_agreement isValid ObjectId now req s
  = ({| status := 200; sent := Message "Agreement updated successfully" |}, s).
Proof.
  intros Hv Hnone. apply patch_agreement_unmatched; [done |].
  by apply filter_id_None.
Qed.

(** Without the role [member] a decision writes [status] into at most one
    agreement and nothing else. *)
Lemma patch_agreement_not_member (now : Z) (req : request) (s : db) :
  body req !! "role" ≠ Some (VStr "member") →
  let s' := (patch_agreement isValid ObjectId now req s).2 in
  users s' = users s
  ∧ apartments s' = apartments s
  ∧ length (agreements s') = length (agreements s)
  ∧ ∀ i, agreements s' !! i = agreements s !! i
         ∨ ∃ a, agreements s !! i = Some a
                ∧ agreements s' !! i
                  = Some (<["status" := JS.or_else (body req !! "status")
                                          (VStr "checked")]> a).
Proof.
  intros Hrole. unfold patch_agreement.
  destruct (isValid (id req)); simpl.
  - rewrite bool_decide_false by done. split_and!; [done | done | |].
    + apply updateOne_length.
    + intros i. rewrite (updateFields_not_member _ _ Hrole).
      destruct (updateOne_lookup (filter_id ObjectId (id req))
                  {["status" := JS.or_else (body req !! "status") (VStr "checked")]}
                  (agreements s) i) as [H | (a & Ha & H)]; [by left |].
      right. exists a. split; [done |].
      by rewrite H, insert_union_singleton_l.
  - split_and!; try done. intros i. by left.
Qed.

(** C10: a decision whose role is not [member] writes no agreement field
    but [status] ([acceptedDate] and every other field of every agreement
    are as before, and no agreement is added or removed) and leaves every
    user record, so every role, as it was. *)
Theorem patch_agreement_frame (now : Z) (req : request) (s : db) :
  body req !! "role" ≠ Some (VStr "member") →
  let s' := (patch_agreement isValid ObjectId now req s).2 in
  users s' = users s
  ∧ length (agreements s') = length (agreements s)
  ∧ (∀ i f, f ≠ "status" →
       (agreements s' !! i) ≫= (λ a : doc, a !! f)
       = (agreements s !! i) ≫= (λ a : doc, a !! f))
  ∧ (∀ i, agreements s' !! i = agreements s !! i
          ∨ ∃ a, agreements s !! i = Some a
                 ∧ agreements s' !! i
                   = Some (<["status" := JS.or_else (body req !! "status")
                                           (VStr "checked")]> a)).
Proof.
  intros Hrole s'. subst s'.
  destruct (patch_agreement_not_member now req s Hrole) as (Hu & _ & Hl & Ha).
  split_and!; [done | done | | done].
  intros i f Hf. destruct (Ha i) as [-> | (a & H1 & H2)]; [done |].
  rewrite H1, H2. simpl. by rewrite lookup_insert_ne.
Qed.

(** The user found for the owner's email has the role [member] after the
    second write. *)
Lemma promoted_role (e : value) (usersCollection : list doc) (u : doc) :
  Mongo.findOne [("email", Mongo.Eq e)] usersCollection = Some u →
  ∃ u', Mongo.findOne [("email", Mongo.Eq e)]
          (Mongo.updateOne [("email", Mongo.Eq e)] {["role" := VStr "member"]}
             usersCollection) = Some u'
        ∧ u' !! "role" = Some (VStr "member")
        ∧ ∀ f, f ≠ "role" → u' !! f = u !! f.
Proof.
  intros Hu. exists ({["role" := VStr "member"]} ∪ u).
  assert (∀ f, f ≠ "role" →
            (({["role" := VStr "member"]} : doc) ∪ u) !! f = u !! f) as Hkeep.
  { intros f Hf. apply lookup_union_r. by rewrite lookup_singleton_ne. }
  split_and!; [| | done].
  - apply findOne_updateOne; [done |].
    apply findOne_Some in Hu as [_ Hm]. revert Hm. simpl.
    unfold Mongo.holds, Mongo.field_is; simpl. by rewrite Hkeep.
  - apply lookup_union_Some_l. apply lookup_singleton_eq.
Qed.

(** One call that brings no acceptance date keeps the store free of
    acceptance dates. *)
Lemma run_no_acceptance (s : db) (c : call) :
  no_acceptance c →
  (∀ a, a ∈ agreements s → a !! "acceptedDate" = None) →
  ∀ a, a ∈ agreements (run isValid ObjectId s c) → a !! "acceptedDate" = None.
Proof.
  intros Hc Hs a'. destruct c as [oid req | now req]; simpl in *.
  - rewrite post_agreements_cases.
    destruct (existingAgreement _ _); [apply Hs |].
    destruct (memberUser _ _); [apply Hs |].
    destruct (Mongo.duplicate_key _ _); [apply Hs |]. simpl.
    rewrite elem_of_app, list_elem_of_singleton. intros [Ha | ->].
    + by apply Hs.
    + by rewrite with_id_lookup.
  - destruct (patch_agreement_not_member now req s Hc) as (_ & _ & Hl & Hi).
    intros Ha'. apply list_elem_of_lookup in Ha' as [i Ha'].
    destruct (Hi i) as [H | (a & H1 & H2)].
    + apply Hs. apply list_elem_of_lookup. exists i. by rewrite <- H.
    + rewrite H2 in Ha'. injection Ha' as <-.
      rewrite lookup_insert_ne by done. apply Hs.
      apply list_elem_of_lookup. by exists i.
Qed.

Lemma run_all_no_acceptance (cs : list call) (s : db) :
  Forall no_acceptance cs →
  (∀ a, a ∈ agreements s → a !! "acceptedDate" = None) →
  ∀ a, a ∈ agreements (run_all isValid ObjectId s cs) →
       a !! "acceptedDate" = None.
Proof.
  revert s. induction cs as [|c cs IH]; intros s Hcs Hs; [done |].
  apply Forall_cons in Hcs as [Hc Hcs]. simpl.
  apply IH; [done |]. by apply run_no_acceptance.
Qed.

(** C7, as the code has it: a decision on a well-formed identifier sets
    the status of the agreement with that identifier to [status ||
    "checked"]: to the supplied status when that is truthy, and to
    [checked] when none is supplied or the supplied one is falsy (an empty
    string, [null], [false], [0]). *)
Theorem patch_agreement_status (now : Z) (req : request) (s : db) (a : doc) :
  isValid (id req) = true →
  Mongo.findOne (filter_id ObjectId (id req)) (agreements s) = Some a →
  let s' := (patch_agreement isValid ObjectId now req s).2 in
  ∃ a', Mongo.findOne (filter_id ObjectId (id req)) (agreements s') = Some a'
    ∧ (∀ v, body req !! "status" = Some v → JS.truthy v = true →
            a' !! "status" = Some v)
    ∧ (JS.to_boolean (body req !! "status") = false →
         a' !! "status" = Some (VStr "checked"))
    ∧ (∀ f, f ≠ "status" → f ≠ "acceptedDate" → a' !! f = a !! f).
Proof.
  intros Hv Hf s'. subst s'.
  destruct (patch_agreement_matched now req s a Hv Hf) as (i & Hi & Hagain & ->).
  simpl. exists (updateFields now (body req) ∪ a). split_and!; [done | | |].
  - intros v Hs Ht. apply lookup_union_Some_l. rewrite updateFields_status.
    rewrite Hs. simpl. by rewrite Ht.
  - intros Hfalsy. apply lookup_union_Some_l. rewrite updateFields_status.
    destruct (body req !! "status") as [v|]; simpl in *; [| done].
    by rewrite Hfalsy.
  - intros f H1 H2. apply lookup_union_r. by apply updateFields_other.
Qed.

(** X27: what decides on [acceptedDate] is the supplied role alone.  A
    decision whose role is not [member] leaves the [acceptedDate] of every
    agreement as it was.  A decision with the role [member] on the
    well-formed identifier of a stored agreement sets that agreement's
    [acceptedDate] to the current time, its status to
    [status || "checked"] (so to whatever truthy status was supplied), and
    gives the user found for the agreement's truthy email the role
    [member].  A store without acceptance dates stays so under submissions
    without the field and decisions without the role [member]. *)
Theorem patch_agreement_acceptedDate (now : Z) (req : request) (s : db) :
  let s' := (patch_agreement isValid ObjectId now req s).2 in
  (body req !! "role" ≠ Some (VStr "member") →
     ∀ i, (agreements s' !! i) ≫= (λ a : doc, a !! "acceptedDate")
          = (agreements s !! i) ≫= (λ a : doc, a !! "acceptedDate"))
  ∧ (body req !! "role" = Some (VStr "member") →
     isValid (id req) = true →
     ∀ a, Mongo.findOne (filter_id ObjectId (id req)) (agreements s) = Some a →
       ∃ a', Mongo.findOne (filter_id ObjectId (id req)) (agreements s')
               = Some a'
         ∧ a' !! "acceptedDate" = Some (VDate now)
         ∧ a' !! "status"
           = Some (JS.or_else (body req !! "status") (VStr "checked"))
         ∧ (JS.to_boolean (a !! "email") = true →
            ∀ u, Mongo.findOne
                   [("email", Mongo.Eq (Mongo.bson (a !! "email")))] (users s)
                 = Some u →
              ∃ u', Mongo.findOne
                      [("email", Mongo.Eq (Mongo.bson (a !! "email")))]
                      (users s') = Some u'
                    ∧ u' !! "role" = Some (VStr "member")))
  ∧ (∀ cs, Forall no_acceptance cs →
       (∀ a, a ∈ agreements s → a !! "acceptedDate" = None) →
       ∀ a, a ∈ agreements (run_all isValid ObjectId s cs) →
            a !! "acceptedDate" = None).
Proof.
  intros s'. subst s'. split_and!.
  - intros Hrole i.
    destruct (patch_agreement_not_member now req s Hrole) as (_ & _ & _ & Hi).
    destruct (Hi i) as [-> | (a & H1 & H2)]; [done |].
    rewrite H1, H2. simpl. by rewrite lookup_insert_ne.
  - intros Hrole Hv a Hf.
    destruct (patch_agreement_matched now req s a Hv Hf) as (i & Hi & Hagain & ->).
    simpl. exists (updateFields now (body req) ∪ a). split_and!; [done | | |].
    + apply lookup_union_Some_l. rewrite updateFields_acceptedDate.
      by rewrite bool_decide_true.
    + apply lookup_union_Some_l. apply updateFields_status.
    + intros He u Hu. rewrite bool_decide_true by done. rewrite He. simpl.
      destruct (promoted_role _ _ _ Hu) as (u' & H1 & H2 & _). by exists u'.
  - intros cs Hcs Hs. by apply run_all_no_acceptance.
Qed.

End DecideFacts.

(** C9 at a sample store: the identifier [id9] is well formed and no
    agreement has it. *)
Lemma patch_agreement_unknown_id_witness :
  let s := {| users := [Sample.user "alice@x.io" "user"];
              agreements := [Sample.agreement 1 "alice@x.io" "B1" "101" "pending"];
              apartments := [] |} in
  let req := Sample.request_of Sample.id9
               {["status" := VStr "checked"; "role" := VStr "member"]} in
  patch_agreement Sample.isValid Sample.ObjectId 1000 req s
  = ({| status := 200; sent := Message "Agreement updated successfully" |}, s).
Proof.
  intros s req.
  apply (patch_agreement_unknown_id Sample.isValid Sample.ObjectId 1000 req s).
  - vm_compute. reflexivity.
  - apply filter_id_None. vm_compute. reflexivity.
Defined.

(** C10 at a sample store: a rejection without a role. *)
Lemma patch_agreement_frame_witness :
  let s := {| users := [Sample.user "alice@x.io" "user"];
              agreements := [Sample.agreement 1 "alice@x.io" "B1" "101" "pending"];
              apartments := [] |} in
  let req := Sample.request_of Sample.id1 {["status" := VStr "rejected"]} in
  let s' := (patch_agreement Sample.isValid Sample.ObjectId 1000 req s).2 in
  users s' = users s
  ∧ (agreements s' !! 0%nat) ≫= (λ a : doc, a !! "acceptedDate") = None
  ∧ agreements s' = [Sample.agreement 1 "alice@x.io" "B1" "101" "rejected"].
Proof.
  intros s req s'.
  assert (body req !! "role" ≠ Some (VStr "member")) as Hrole
    by (vm_compute; discriminate).
  destruct (patch_agreement_frame Sample.isValid Sample.ObjectId 1000 req s Hrole)
    as (Hu & _ & Hf & _).
  split_and!; [exact Hu | | vm_compute; reflexivity].
  exact (Hf 0%nat "acceptedDate" ltac:(discriminate)).
Defined.

(** C7 as stated fails on an empty status: the stored status is [checked],
    not the supplied value. *)
Lemma patch_agreement_empty_status :
  let s := {| users := [Sample.user "alice@x.io" "user"];
              agreements := [Sample.agreement 1 "alice@x.io" "B1" "101" "pending"];
              apartments := [] |} in
  let req := Sample.request_of Sample.id1 {["status" := VStr ""]} in
  let s' := (patch_agreement Sample.isValid Sample.ObjectId 1000 req s).2 in
  Sample.isValid (id req) = true
  ∧ body req !! "status" = Some (VStr "")
  ∧ ∃ a', agreements s' = [a']
          ∧ a' !! "status" = Some (VStr "checked")
          ∧ a' !! "status" ≠ body req !! "status".
Proof.
  intros s req s'. split_and!; [vm_compute; reflexivity..|].
  exists (Sample.agreement 1 "alice@x.io" "B1" "101" "checked").
  split_and!; [vm_compute; reflexivity.. | vm_compute; discriminate].
Qed.

Lemma patch_agreement_status_witness :
  let s := {| users := [Sample.user "alice@x.io" "user"];
              agreements := [Sample.agreement 1 "alice@x.io" "B1" "101" "pending"];
              apartments := [] |} in
  let req := Sample.request_of Sample.id1 {["status" := VStr "rejected"]} in
  let s' := (patch_agreement Sample.isValid Sample.ObjectId 1000 req s).2 in
  ∃ a', Mongo.findOne (filter_id Sample.ObjectId (id req)) (agreements s')
          = Some a'
        ∧ a' !! "status" = Some (VStr "rejected").
Proof.
  intros s req s'.
  destruct (patch_agreement_status Sample.isValid Sample.ObjectId 1000 req s
              (Sample.agreement 1 "alice@x.io" "B1" "101" "pending")
              eq_refl eq_refl) as (a' & Hf & Hs & _).
  exists a'. split; [exact Hf |]. by apply Hs.
Defined.

(** C2: the decision [PATCH /agreements/:id] with the body
    [{status: "rejected", role: "member"}] on a pending agreement.  The
    handler's comment announces the acceptance date for an admin who
    accepts the agreement and assigns the role; its guard reads the role
    alone.  So the agreement ends up [rejected] with an acceptance date,
    and its owner a member. *)
Lemma patch_agreement_rejected_with_date :
  let s := {| users := [Sample.user "alice@x.io" "user"];
              agreements := [Sample.agreement 1 "alice@x.io" "B1" "101" "pending"];
              apartments := [] |} in
  let req := Sample.request_of Sample.id1
               {["status" := VStr "rejected"; "role" := VStr "member"]} in
  let s' := (patch_agreement Sample.isValid Sample.ObjectId 1000 req s).2 in
  ∃ a', agreements s' = [a']
        ∧ a' !! "acceptedDate" = Some (VDate 1000)
        ∧ a' !! "status" = Some (VStr "rejected")
        ∧ users s' = [Sample.user "alice@x.io" "member"].
Proof.
  intros s req s'.
  exists (<["acceptedDate" := VDate 1000]>
            (Sample.agreement 1 "alice@x.io" "B1" "101" "rejected")).
  split_and!; vm_compute; reflexivity.
Qed.

Lemma patch_agreement_acceptedDate_witness :
  let s := {| users := [Sample.user "alice@x.io" "user"];
              agreements := [Sample.agreement 1 "alice@x.io" "B1" "101" "pending"];
              apartments := [] |} in
  let req := Sample.request_of Sample.id1
               {["status" := VStr "checked"; "role" := VStr "member"]} in
  let s' := (patch_agreement Sample.isValid Sample.ObjectId 1000 req s).2 in
  ∃ a', Mongo.findOne (filter_id Sample.ObjectId (id req)) (agreements s')
          = Some a'
        ∧ a' !! "acceptedDate" = Some (VDate 1000)
        ∧ a' !! "status" = Some (VStr "checked").
Proof.
  intros s req s'.
  destruct (proj1 (proj2 (patch_agreement_acceptedDate Sample.isValid
              Sample.ObjectId 1000 req s)) eq_refl eq_refl
              (Sample.agreement 1 "alice@x.io" "B1" "101" "pending") eq_refl)
    as (a' & Hf & Hd & Hs & _).
  exists a'. split_and!; [exact Hf | exact Hd | exact Hs].
Defined.

(** ** Routes *)

(** After the credential check the role gates find the decoded token, so
    the route never throws: it answers from a gate, leaving the store as it
    was, or from the handler. *)
Lemma post_agreements_route_answers
    (verifyIdToken : string → option decoded_token) (oid : N) (s : db)
    (req : request) :
  (∃ res, post_agreements_route verifyIdToken oid s req = Some (res, s)
          ∧ (status res = 401%nat ∨ status res = 403%nat))
  ∨ ∃ d, post_agreements_route verifyIdToken oid s req
         = Some (post_agreements oid (set_decoded d req) s).
Proof.
  unfold post_agreements_route, route.
  rewrite verifyFirebaseToken_cases.
  destruct (credential req) as [t|]; [| left; eexists; split; [done | by left]].
  destruct (verifyIdToken t) as [d|];
    [| left; eexists; split; [done | by right]].
  unfold verifyUser. simpl. destruct (Mongo.findOne _ _) as [u|].
  - case_bool_decide.
    + right. by exists d.
    + left. eexists. split; [done | by right].
  - left. eexists. split; [done | by right].
Qed.

(** ** Occupancy statistics *)

(** Below a binary point the integer [toFixed] picks is within one half of
    the scaled value, the upper one at a tie; at or above it the scaled
    value is an integer already. *)
Lemma nearest_spec (f : nat) (m : positive) (e : Z) :
  let n := Number.nearest f m e in
  let scaled := (Z.pos m * 10 ^ Z.of_nat f)%Z in
  ((e < 0)%Z →
     (2 ^ (- e) * (2 * n - 1) ≤ 2 * scaled < 2 ^ (- e) * (2 * n + 1))%Z)
  ∧ ((0 ≤ e)%Z → n = (scaled * 2 ^ e)%Z).
Proof.
  unfold Number.nearest. simpl. split.
  - intros He. rewrite (proj2 (Z.leb_gt 0 e)) by lia.
    set (S := (Z.pos m * 10 ^ Z.of_nat f)%Z).
    assert (0 < 2 ^ (- e))%Z as HP by (apply Z.pow_pos_nonneg; lia).
    replace (2 ^ (1 - e))%Z with (2 * 2 ^ (- e))%Z
      by (rewrite <- Z.pow_succ_r by lia; f_equal; lia).
    set (P := (2 ^ (- e))%Z) in *.
    pose proof (Z.div_mod (2 * S + P) (2 * P) ltac:(lia)) as Hdm.
    pose proof (Z.mod_pos_bound (2 * S + P) (2 * P) ltac:(lia)) as Hr.
    nia.
  - intros He. by rewrite (proj2 (Z.leb_le 0 e)) by lia.
Qed.

(** *** Binary64 rounding

    The library specifies the primitive operations on doubles by functions
    on mantissas and exponents; what follows reads off these functions
    that a quotient and a product are the nearest doubles, and that the
    conversion of a count is exact. *)

Section FloatFacts.

Local Open Scope Z_scope.

(** The number of binary digits of a mantissa. *)
Lemma digits2_pos_spec (p : positive) :
  2 ^ (Z.pos (digits2_pos p) - 1) ≤ Z.pos p < 2 ^ Z.pos (digits2_pos p).
Proof.
  induction p as [p IH | p IH |]; simpl digits2_pos.
  - rewrite Pos2Z.inj_succ, (Pos2Z.inj_xI p).
    replace (Z.succ (Z.pos (digits2_pos p)) - 1)
      with (Z.succ (Z.pos (digits2_pos p) - 1)) by lia.
    rewrite !Z.pow_succ_r by lia.
    set (a := 2 ^ (Z.pos (digits2_pos p) - 1)) in *.
    set (b := 2 ^ Z.pos (digits2_pos p)) in *. lia.
  - rewrite Pos2Z.inj_succ, (Pos2Z.inj_xO p).
    replace (Z.succ (Z.pos (digits2_pos p)) - 1)
      with (Z.succ (Z.pos (digits2_pos p) - 1)) by lia.
    rewrite !Z.pow_succ_r by lia.
    set (a := 2 ^ (Z.pos (digits2_pos p) - 1)) in *.
    set (b := 2 ^ Z.pos (digits2_pos p)) in *. lia.
  - done.
Qed.

Lemma digits2_pos_unique (p : positive) (d : Z) :
  2 ^ (d - 1) ≤ Z.pos p < 2 ^ d → Z.pos (digits2_pos p) = d.
Proof.
  intros [Hl Hu]. pose proof (digits2_pos_spec p) as [Hl' Hu'].
  destruct (Z.lt_trichotomy (Z.pos (digits2_pos p)) d) as [H | [H | H]];
    [| done |].
  - assert (2 ^ Z.pos (digits2_pos p) ≤ 2 ^ (d - 1))
      by (apply Z.pow_le_mono_r; lia). lia.
  - assert (2 ^ d ≤ 2 ^ (Z.pos (digits2_pos p) - 1)).
    { destruct (Z.le_gt_cases 0 d).
      - apply Z.pow_le_mono_r; lia.
      - rewrite (Z.pow_neg_r 2 d) by lia.
        apply Z.pow_nonneg. lia. }
    lia.
Qed.

Lemma fexp_normal (x : Z) : -1021 ≤ x → fexp prec emax x = x - 53.
Proof. unfold fexp, SpecFloat.emin, prec, emax. lia. Qed.

(** One shift to the right halves the unit the record counts in. *)
Lemma located_shr_1 (N B : Z) (mrs : shr_record) :
  located N B mrs → located N (2 * B) (shr_1 mrs).
Proof.
  intros (HN & HB & Hm & Hr & Hs).
  pose proof (Z.mod_pos_bound N B HB) as Hrho.
  assert (N / (2 * B) = N / B / 2) as Hq
    by (rewrite (Z.mul_comm 2 B); symmetry; apply Z.div_div; lia).
  assert (N mod (2 * B) = N mod B + B * ((N / B) mod 2)) as Hrem
    by (rewrite (Z.mul_comm 2 B); apply Z.rem_mul_r; lia).
  assert (0 ≤ N / B) as Hpos by (apply Z.div_pos; lia).
  pose proof (Z.div_mod (N / B) 2 ltac:(lia)) as Hdm.
  pose proof (Z.mod_pos_bound (N / B) 2 ltac:(lia)) as Hb.
  destruct mrs as [m r s]. simpl in Hm, Hr, Hs. subst m.
  assert (orb r s = true ↔ N mod B ≠ 0) as Hrs.
  { rewrite orb_true_iff, Hr, Hs. lia. }
  unfold located. rewrite Hq, Hrem.
  split; [done |]. split; [lia |].
  destruct (N / B) as [|[p|p|]|p] eqn:E; [| | | | lia]; cbn [shr_1 shr_m shr_r shr_s].
  - rewrite Hrs. change (0 `mod` 2) with 0. change (0 / 2) with 0.
    split; [done |]. split; [split; [done | lia] | lia].
  - rewrite Hrs, (Pos2Z.inj_xI p) in *.
    assert ((2 * Z.pos p + 1) / 2 = Z.pos p ∧ (2 * Z.pos p + 1) mod 2 = 1)
      as [-> ->] by lia.
    split; [done |]. split; [split; [lia | done] | lia].
  - rewrite Hrs, (Pos2Z.inj_xO p) in *.
    assert ((2 * Z.pos p) / 2 = Z.pos p ∧ (2 * Z.pos p) mod 2 = 0)
      as [-> ->] by lia.
    split; [done |]. split; [split; [done | lia] | lia].
  - rewrite Hrs. change (1 / 2) with 0. change (1 `mod` 2) with 1.
    split; [done |]. split; [split; [lia | done] | lia].
Qed.

Lemma located_iter_pos (p : positive) (N B : Z) (mrs : shr_record) :
  located N B mrs → located N (B * 2 ^ Z.pos p) (SpecFloat.iter_pos shr_1 p mrs).
Proof.
  revert N B mrs. induction p as [p IH | p IH |]; intros N B mrs H; simpl.
  - apply located_shr_1, IH, IH in H.
    replace (B * 2 ^ Z.pos p~1) with (2 * B * 2 ^ Z.pos p * 2 ^ Z.pos p); [done |].
    rewrite (Pos2Z.inj_xI p), Z.pow_add_r, Z.pow_mul_r by lia.
    change (2 ^ 2) with 4. rewrite Z.pow_1_r.
    replace (4 ^ Z.pos p) with (2 ^ Z.pos p * 2 ^ Z.pos p); [lia |].
    rewrite <- Z.pow_mul_l. done.
  - apply IH, IH in H.
    replace (B * 2 ^ Z.pos p~0) with (B * 2 ^ Z.pos p * 2 ^ Z.pos p); [done |].
    rewrite (Pos2Z.inj_xO p), Z.pow_mul_r by lia.
    change (2 ^ 2) with 4.
    replace (4 ^ Z.pos p) with (2 ^ Z.pos p * 2 ^ Z.pos p); [lia |].
    rewrite <- Z.pow_mul_l. done.
  - apply located_shr_1 in H. by rewrite Z.pow_1_r, (Z.mul_comm B 2).
Qed.

Lemma located_shr (N B e j : Z) (mrs : shr_record) :
  located N B mrs → 0 ≤ j →
  ∃ mrs', shr mrs e j = (mrs', e + j) ∧ located N (B * 2 ^ j) mrs'.
Proof.
  intros H Hj. destruct j as [|p|p]; [| | lia].
  - exists mrs. simpl. rewrite Z.add_0_r, Z.mul_1_r. done.
  - eexists. split; [done |]. by apply located_iter_pos.
Qed.

(** A mantissa with the location of the fraction behind it. *)
Lemma located_loc_of (M B R : Z) :
  0 ≤ M → 0 ≤ R < B →
  located (M * B + R) B (shr_record_of_loc M (loc_of R B)).
Proof.
  intros HM HR.
  assert ((M * B + R) / B = M ∧ (M * B + R) mod B = R) as [Hq Hr].
  { split.
    - rewrite Z.add_comm, Z.div_add by lia. rewrite Z.div_small; lia.
    - rewrite Z.add_comm, Z.mod_add by lia. apply Z.mod_small; lia. }
  unfold located. rewrite Hq, Hr. unfold loc_of.
  split; [nia |]. split; [lia |].
  destruct (Z.eqb_spec R 0) as [-> | Hne]; simpl.
  - split; [done |]. split; [split; [done | lia] |]. split; [done | lia].
  - destruct (Z.compare_spec (2 * R) B); simpl;
      (split; [done |]); split; split; try done; lia.
Qed.

(** The location the division computes for its remainder. *)
Lemma new_location_loc_of (B R : Z) :
  0 ≤ R < B → new_location B R = loc_of R B.
Proof.
  intros HR. unfold new_location, new_location_even, new_location_odd, loc_of.
  destruct (Z.even B) eqn:Hev; [done |].
  destruct (Z.eqb_spec R 0); [done |]. f_equal.
  assert (Z.odd B = true) as Hodd by (rewrite <- Z.negb_even, Hev; done).
  apply Z.odd_spec in Hodd as [b ->].
  destruct (Z.compare_spec (2 * R + 1) (2 * b + 1));
    destruct (Z.compare_spec (2 * R) (2 * b + 1)); try done; lia.
Qed.

(** Rounding to nearest, ties to even, moves by at most half a unit. *)
Lemma located_round (N B : Z) (mrs : shr_record) :
  located N B mrs →
  let m := round_nearest_even (shr_m mrs) (loc_of_shr_record mrs) in
  N / B ≤ m ≤ N / B + 1 ∧ - B ≤ 2 * (m * B - N) ≤ B.
Proof.
  intros (HN & HB & Hm & Hr & Hs).
  pose proof (Z.mod_pos_bound N B HB) as Hrho.
  pose proof (Z.div_mod N B ltac:(lia)) as Hdm.
  destruct mrs as [m r s]. simpl in Hm, Hr, Hs. subst m.
  destruct r, s; simpl.
  - assert (B ≤ 2 * N `mod` B) by (by apply Hr).
    assert (2 * N `mod` B ≠ B) by (by apply Hs). nia.
  - assert (B ≤ 2 * N `mod` B) by (by apply Hr).
    assert (¬ (N `mod` B ≠ 0 ∧ 2 * N `mod` B ≠ B))
      by (intros H'; apply Hs in H'; done).
    destruct (Z.even (N / B)); nia.
  - assert (¬ B ≤ 2 * N `mod` B) by (intros H'; apply Hr in H'; done). nia.
  - assert (¬ B ≤ 2 * N `mod` B) by (intros H'; apply Hr in H'; done).
    assert (¬ (N `mod` B ≠ 0 ∧ 2 * N `mod` B ≠ B))
      by (intros H'; apply Hs in H'; done).
    nia.
Qed.

Lemma Zdigits2_range (M d : Z) :
  2 ^ (d - 1) ≤ M < 2 ^ d → 0 < M → Zdigits2 M = d.
Proof.
  intros HM Hpos. destruct M as [|p|p]; [lia | | lia].
  by apply digits2_pos_unique.
Qed.

Lemma shr_fexp_normal (M e j : Z) (l : location) :
  2 ^ (52 + j) ≤ M < 2 ^ (53 + j) → 0 ≤ j → -1074 ≤ e + j →
  shr_fexp prec emax M e l = shr (shr_record_of_loc M l) e j.
Proof.
  intros HM Hj He. unfold shr_fexp.
  assert (0 < 2 ^ (52 + j)) by (apply Z.pow_pos_nonneg; lia).
  rewrite (Zdigits2_range M (53 + j)); [| | lia].
  - rewrite fexp_normal by lia. f_equal. lia.
  - by replace (53 + j - 1) with (52 + j) by lia.
Qed.

(** Rounding to nearest: a mantissa [M] of [53 + j] bits with a fraction
    [R / B] behind it comes out as a mantissa of 53 bits, the exponent
    [j] or [j + 1] higher, at most half a unit of the last place away. *)
Lemma binary_round_aux_nearest (M B R e j : Z) :
  0 ≤ R < B → 0 ≤ j → 2 ^ (52 + j) ≤ M < 2 ^ (53 + j) →
  -1074 ≤ e + j → e + j < 971 →
  ∃ m' e',
    binary_round_aux prec emax false M e (loc_of R B) = S754_finite false m' e'
    ∧ 2 ^ 52 ≤ Z.pos m' < 2 ^ 53
    ∧ e + j ≤ e' ≤ e + j + 1
    ∧ - (2 ^ (e' - e) * B)
      ≤ 2 * (Z.pos m' * 2 ^ (e' - e) * B - (M * B + R))
      ≤ 2 ^ (e' - e) * B
    ∧ (j = 0 → R = 0 → Z.pos m' = M ∧ e' = e).
Proof.
  intros HR Hj HM Hlo Hhi.
  assert (0 < 2 ^ j) as HP by (apply Z.pow_pos_nonneg; lia).
  assert (2 ^ (52 + j) = 2 ^ 52 * 2 ^ j ∧ 2 ^ (53 + j) = 2 ^ 53 * 2 ^ j)
    as [E52 E53] by (rewrite !Z.pow_add_r by lia; done).
  assert (0 < M) as HMpos by lia.
  unfold binary_round_aux.
  rewrite (shr_fexp_normal M e j) by done.
  destruct (located_shr (M * B + R) B e j _
              (located_loc_of M B R ltac:(lia) HR) Hj) as (mrs' & -> & Hloc).
  pose proof (located_round _ _ _ Hloc) as Hround. cbv zeta in Hround.
  set (m := round_nearest_even (shr_m mrs') (loc_of_shr_record mrs')) in *.
  assert ((M * B + R) / (B * 2 ^ j) = M / 2 ^ j) as Hq.
  { rewrite <- Z.div_div by lia. f_equal.
    rewrite Z.add_comm, Z.div_add by lia. rewrite Z.div_small; lia. }
  rewrite Hq in Hround.
  assert (2 ^ 52 ≤ M / 2 ^ j < 2 ^ 53) as Hdiv.
  { split.
    - apply Z.div_le_lower_bound; lia.
    - apply Z.div_lt_upper_bound; lia. }
  destruct Hround as [Hm Hnear].
  set (P := 2 ^ j) in *.
  destruct (Z_lt_le_dec m (2 ^ 53)) as [Hlt | Hge].
  - rewrite (shr_fexp_normal m (e + j) 0)
      by (rewrite ?Z.add_0_r; try done; lia).
    cbn [shr]. destruct m as [|pm|pm] eqn:Em; [lia | | lia].
    cbn [shr_m shr_record_of_loc].
    replace (e + j <=? emax - prec) with true
      by (symmetry; apply Z.leb_le; unfold emax, prec; lia).
    exists pm, (e + j). split; [done |]. split; [lia |]. split; [lia |].
    replace (e + j - e) with j by lia. fold P. split.
    + replace (Z.pos pm * P * B) with (Z.pos pm * (B * P)) by ring.
      replace (P * B) with (B * P) by ring. lia.
    + intros -> ->. subst P. change (2 ^ 0) with 1 in *.
      rewrite Z.div_1_r in *. split; [nia | lia].
  - assert (m = 2 ^ 53) as Em by lia.
    assert (2 ^ (52 + 1) ≤ m < 2 ^ (53 + 1)) as Hm1
      by (rewrite Em; split; by vm_compute).
    rewrite (shr_fexp_normal m (e + j) 1) by (done || lia).
    rewrite Em. cbn [shr shr_record_of_loc SpecFloat.iter_pos].
    change (shr_1 {| shr_m := 2 ^ 53; shr_r := false; shr_s := false |})
      with {| shr_m := 2 ^ 52; shr_r := false; shr_s := false |}.
    cbn [shr_m]. change (2 ^ 52) with (Z.pos (2 ^ 52)%positive) at 1.
    cbv iota beta.
    replace (e + j + 1 <=? emax - prec) with true
      by (symmetry; apply Z.leb_le; unfold emax, prec; lia).
    exists (2 ^ 52)%positive, (e + j + 1).
    split; [done |]. split; [done |]. split; [lia |].
    replace (e + j + 1 - e) with (j + 1) by lia.
    rewrite Z.pow_add_r, Z.pow_1_r by lia. fold P.
    change (Z.pos (2 ^ 52)%positive) with (2 ^ 52).
    rewrite Em in Hnear. split.
    + replace (2 ^ 52 * (P * 2) * B) with (2 ^ 53 * (B * P))
        by (change (2 ^ 53) with (2 ^ 52 * 2); ring).
      nia.
    + intros -> ->. subst P. change (2 ^ 0) with 1 in *.
      rewrite Z.div_1_r in *. nia.
Qed.

Lemma iter_xO (p k : positive) :
  Z.pos (Pos.iter xO p k) = Z.pos p * 2 ^ Z.pos k.
Proof.
  induction k as [|k IH] using Pos.peano_ind.
  - simpl. lia.
  - rewrite Pos.iter_succ, (Pos2Z.inj_xO (Pos.iter xO p k)), IH.
    rewrite Pos2Z.inj_succ, Z.pow_succ_r by lia. ring.
Qed.

(** The conversion of an integer below [2 ^ 53] is exact. *)
Lemma binary_normalize_exact (p : positive) :
  Z.pos p < 2 ^ 53 →
  ∃ m e, binary_normalize prec emax (Z.pos p) 0 false = S754_finite false m e
         ∧ 2 ^ 52 ≤ Z.pos m < 2 ^ 53 ∧ -52 ≤ e ≤ 0
         ∧ Z.pos m = Z.pos p * 2 ^ (- e).
Proof.
  intros Hp. pose proof (digits2_pos_spec p) as Hd.
  set (d := Z.pos (digits2_pos p)) in *.
  assert (0 < d ≤ 53) as Hd53.
  { split; [done |]. destruct (Z_lt_le_dec 53 d) as [H |]; [| done].
    assert (2 ^ 53 ≤ 2 ^ (d - 1)) by (apply Z.pow_le_mono_r; lia). lia. }
  assert (2 ^ 52 = 2 ^ (d - 1) * 2 ^ (53 - d) ∧ 2 ^ 53 = 2 ^ d * 2 ^ (53 - d))
    as [E52 E53].
  { rewrite <- !Z.pow_add_r by lia. split; f_equal; lia. }
  assert (0 < 2 ^ (53 - d)) as HP by (apply Z.pow_pos_nonneg; lia).
  assert (∃ mz, shl_align p 0 (fexp prec emax (d + 0)) = (mz, d - 53)
                ∧ Z.pos mz = Z.pos p * 2 ^ (53 - d)) as (mz & Hal & Hmz).
  { unfold shl_align. rewrite fexp_normal by lia.
    replace (d + 0 - 53 - 0) with (d - 53) by lia.
    destruct (d - 53) as [|k|k] eqn:Ek; [| lia |].
    - exists p. replace (53 - d) with 0 by lia. split; [done | lia].
    - exists (Pos.iter xO p k). replace (d + 0 - 53) with (Z.neg k) by lia.
      split; [done |]. rewrite iter_xO. f_equal. f_equal. lia. }
  unfold binary_normalize, binary_round. fold d. rewrite Hal.
  destruct (binary_round_aux_nearest (Z.pos mz) 1 0 (d - 53) 0)
    as (m' & e' & Hr & Hm' & He' & _ & Hex); [lia | lia | | lia | lia |].
  { rewrite Hmz. change (52 + 0) with 52. change (53 + 0) with 53.
    rewrite E52, E53.
    set (a := 2 ^ (d - 1)) in *. set (b := 2 ^ d) in *. nia. }
  destruct (Hex eq_refl eq_refl) as [Em' Ee'].
  change (loc_of 0 1) with loc_Exact in Hr.
  exists m', e'. split; [done |]. split; [done |]. split; [lia |].
  rewrite Em', Hmz, Ee'. f_equal. f_equal. lia.
Qed.

Lemma of_nat_zero : Prim2SF (Number.of_nat 0) = S754_zero false.
Proof. reflexivity. Qed.

Lemma of_nat_exact (n : nat) :
  0 < Z.of_nat n < 2 ^ 53 →
  ∃ m e, Prim2SF (Number.of_nat n) = S754_finite false m e
         ∧ 2 ^ 52 ≤ Z.pos m < 2 ^ 53 ∧ -52 ≤ e ≤ 0
         ∧ Z.pos m = Z.of_nat n * 2 ^ (- e).
Proof.
  intros Hn. unfold Number.of_nat. rewrite of_uint63_spec, Uint63.of_Z_spec.
  rewrite Z.mod_small.
  - destruct (Z.of_nat n) as [|p|p] eqn:E; [lia | | lia].
    apply binary_normalize_exact, Hn.
  - split; [lia |]. eapply Z.lt_trans; [apply Hn | by vm_compute].
Qed.

(** The quotient of two normal doubles is the nearest double: with
    [e = e1 - e2 - 53 + c], the mantissa [mq] is within half a unit of
    [m1 * 2 ^ 53 / (m2 * 2 ^ c)]. *)
Lemma SFdiv_nearest (m1 m2 : positive) (e1 e2 : Z) :
  2 ^ 52 ≤ Z.pos m1 < 2 ^ 53 → 2 ^ 52 ≤ Z.pos m2 < 2 ^ 53 →
  -52 ≤ e1 ≤ 0 → -52 ≤ e2 ≤ 0 →
  ∃ mq c,
    SFdiv prec emax (S754_finite false m1 e1) (S754_finite false m2 e2)
    = S754_finite false mq (e1 - e2 - 53 + c)
    ∧ 2 ^ 52 ≤ Z.pos mq < 2 ^ 53 ∧ 0 ≤ c ≤ 2
    ∧ - (2 ^ c * Z.pos m2)
      ≤ 2 * (Z.pos mq * 2 ^ c * Z.pos m2 - Z.pos m1 * 2 ^ 53)
      ≤ 2 ^ c * Z.pos m2.
Proof.
  intros H1 H2 He1 He2.
  set (q := (Z.pos m1 * 2 ^ 53) / Z.pos m2).
  set (r := (Z.pos m1 * 2 ^ 53) mod Z.pos m2).
  pose proof (Z.div_mod (Z.pos m1 * 2 ^ 53) (Z.pos m2) ltac:(lia)) as Hdm.
  pose proof (Z.mod_pos_bound (Z.pos m1 * 2 ^ 53) (Z.pos m2) ltac:(lia)) as Hr.
  fold q r in Hdm, Hr.
  assert (SFdiv_core_binary prec emax (Z.pos m1) e1 (Z.pos m2) e2
          = (q, e1 - e2 - 53, loc_of r (Z.pos m2))) as Hcore.
  { unfold SFdiv_core_binary.
    rewrite (Zdigits2_range (Z.pos m1) 53), (Zdigits2_range (Z.pos m2) 53)
      by (done || lia).
    rewrite fexp_normal by lia.
    replace (Z.min (53 + e1 - (53 + e2) - 53) (e1 - e2))
      with (e1 - e2 - 53) by lia.
    replace (e1 - e2 - (e1 - e2 - 53)) with 53 by lia.
    rewrite Z.shiftl_mul_pow2 by lia.
    unfold q, r, Z.div, Z.modulo.
    destruct (Z.div_eucl (Z.pos m1 * 2 ^ 53) (Z.pos m2)) as [q' r'] eqn:E.
    rewrite new_location_loc_of; [done |].
    pose proof (Z.mod_pos_bound (Z.pos m1 * 2 ^ 53) (Z.pos m2) ltac:(lia)) as H.
    unfold Z.modulo in H. by rewrite E in H. }
  unfold SFdiv. rewrite Hcore. cbn [xorb].
  assert (2 ^ 52 ≤ q < 2 ^ 54) as Hq.
  { split.
    - apply Z.div_le_lower_bound; [lia |]. nia.
    - apply Z.div_lt_upper_bound; [lia |].
      change (2 ^ 54) with (2 ^ 52 * 2 * 2). change (2 ^ 53) with (2 ^ 52 * 2) in *.
      nia. }
  destruct (Z_lt_le_dec q (2 ^ 53)) as [Hlt | Hge].
  - destruct (binary_round_aux_nearest q (Z.pos m2) r (e1 - e2 - 53) 0)
      as (m' & e' & Hres & Hm' & He' & Hnear & _);
      [done | lia | change (52 + 0) with 52; change (53 + 0) with 53; lia
      | lia | lia |].
    exists m', (e' - (e1 - e2 - 53)). rewrite Hres.
    replace (e1 - e2 - 53 + (e' - (e1 - e2 - 53))) with e' by lia.
    split; [done |]. split; [done |]. split; [lia |].
    replace (q * Z.pos m2 + r) with (Z.pos m1 * 2 ^ 53) in Hnear by lia.
    done.
  - destruct (binary_round_aux_nearest q (Z.pos m2) r (e1 - e2 - 53) 1)
      as (m' & e' & Hres & Hm' & He' & Hnear & _);
      [done | lia | change (52 + 1) with 53; change (53 + 1) with 54; lia
      | lia | lia |].
    exists m', (e' - (e1 - e2 - 53)). rewrite Hres.
    replace (e1 - e2 - 53 + (e' - (e1 - e2 - 53))) with e' by lia.
    split; [done |]. split; [done |]. split; [lia |].
    replace (q * Z.pos m2 + r) with (Z.pos m1 * 2 ^ 53) in Hnear by lia.
    done.
Qed.

(** The double [100]. *)
Lemma hundred_spec : Prim2SF 100 = S754_finite false (25 * 2 ^ 48) (-46).
Proof. reflexivity. Qed.

(** A normal double times [100]: with [e + c] the exponent of the
    product, its mantissa is within half a unit of [100 * m / 2 ^ c]. *)
Lemma SFmul_hundred_nearest (m : positive) (e : Z) :
  2 ^ 52 ≤ Z.pos m < 2 ^ 53 → -200 ≤ e ≤ 0 →
  ∃ mp c,
    SFmul prec emax (S754_finite false m e) (Prim2SF 100)
    = S754_finite false mp (e + c)
    ∧ 2 ^ 52 ≤ Z.pos mp < 2 ^ 53 ∧ 6 ≤ c ≤ 8
    ∧ - 2 ^ c ≤ 2 * (Z.pos mp * 2 ^ c - 100 * Z.pos m) ≤ 2 ^ c.
Proof.
  intros Hm He. rewrite hundred_spec. unfold SFmul. cbn [xorb].
  rewrite Pos2Z.inj_mul.
  change (Z.pos (25 * 2 ^ 48)) with (25 * 2 ^ 48).
  set (M := Z.pos m * (25 * 2 ^ 48)).
  assert (∃ j, 52 ≤ j ≤ 53 ∧ 2 ^ (52 + j) ≤ M < 2 ^ (53 + j)) as (j & Hj & HM).
  { destruct (Z_lt_le_dec M (2 ^ 105)) as [Hlt | Hge].
    - exists 52. split; [lia |]. split; [| done].
      change (2 ^ (52 + 52)) with (2 ^ 52 * 2 ^ 52). unfold M.
      apply Z.mul_le_mono_nonneg; [by vm_compute | lia | by vm_compute |].
      by vm_compute.
    - exists 53. split; [lia |]. split; [done |].
      change (2 ^ (53 + 53)) with (2 ^ 53 * 2 ^ 53). unfold M.
      apply Z.mul_lt_mono_nonneg; [lia | lia | by vm_compute | by vm_compute]. }
  change loc_Exact with (loc_of 0 1).
  destruct (binary_round_aux_nearest M 1 0 (e + -46) j)
    as (m' & e' & Hres & Hm' & He' & Hnear & _); [lia | lia | done | lia | lia |].
  exists m', (e' - e). rewrite Hres.
  replace (e + (e' - e)) with e' by lia.
  split; [done |]. split; [done |]. split; [lia |].
  replace (e' - (e + -46)) with ((e' - e) + 46) in Hnear by lia.
  rewrite Z.pow_add_r in Hnear by lia.
  assert (0 < 2 ^ (e' - e)) as HP by (apply Z.pow_pos_nonneg; lia).
  set (P := 2 ^ (e' - e)) in *.
  unfold M in Hnear. change (25 * 2 ^ 48) with (100 * 2 ^ 46) in Hnear.
  set (Q := 2 ^ 46) in *. assert (0 < Q) by done.
  split.
  - apply (Z.mul_le_mono_pos_r _ _ Q); [done |]. lia.
  - apply (Z.mul_le_mono_pos_r _ _ Q); [done |]. lia.
Qed.

(** The rounded quotient of two counts [n ≤ t], in terms of the counts:
    its exponent is [- a] with [a] at least 52, and its mantissa within half
    a unit of [n * 2 ^ a / t]. *)
Lemma quotient_bound (n t mn mt mq an at' c : Z) :
  0 < n ≤ t → 0 ≤ an ≤ 52 → 0 ≤ at' ≤ 52 → 0 ≤ c ≤ 2 →
  mn = n * 2 ^ an → mt = t * 2 ^ at' → 2 ^ 52 ≤ mq →
  - (2 ^ c * mt) ≤ 2 * (mq * 2 ^ c * mt - mn * 2 ^ 53) ≤ 2 ^ c * mt →
  52 ≤ an - at' + 53 - c
  ∧ - t ≤ 2 * (mq * t - n * 2 ^ (an - at' + 53 - c)) ≤ t.
Proof.
  intros Hn Han Hat Hc -> -> Hmq [Hlo Hhi].
  assert (0 < 2 ^ an) as HX by (apply Z.pow_pos_nonneg; lia).
  assert (0 < 2 ^ (at' + c)) as HW by (apply Z.pow_pos_nonneg; lia).
  assert (2 ^ c * 2 ^ at' = 2 ^ (at' + c)) as EW
    by (rewrite Z.pow_add_r by lia; ring).
  assert (at' + c ≤ an + 1) as Hexp.
  { destruct (Z_le_gt_dec (at' + c) (an + 1)) as [| Hgt]; [done |]. exfalso.
    assert (0 < 2 ^ (at' + c - an - 2)) as HU by (apply Z.pow_pos_nonneg; lia).
    assert (2 ^ (at' + c) = 4 * 2 ^ an * 2 ^ (at' + c - an - 2)) as E.
    { change 4 with (2 ^ 2). rewrite <- !Z.pow_add_r by lia. f_equal. lia. }
    replace (2 ^ c * (t * 2 ^ at')) with (t * 2 ^ (at' + c)) in Hhi
      by (rewrite <- EW; ring).
    replace (mq * 2 ^ c * (t * 2 ^ at')) with (mq * t * 2 ^ (at' + c)) in Hhi
      by (rewrite <- EW; ring).
    rewrite E in Hhi.
    set (X := 2 ^ an) in *. set (U := 2 ^ (at' + c - an - 2)) in *.
    change (2 ^ 53) with 9007199254740992 in *.
    change (2 ^ 52) with 4503599627370496 in *.
    assert ((2 * mq - 1) * t * (4 * U) * X ≤ 2 * t * 9007199254740992 * X)
      as H1 by nia.
    assert ((2 * mq - 1) * t * (4 * U) ≤ 2 * t * 9007199254740992) as H2
      by (apply (Z.mul_le_mono_pos_r _ _ X); done).
    assert ((2 * mq - 1) * (4 * U) * t ≤ 2 * 9007199254740992 * t) as H3
      by lia.
    apply (Z.mul_le_mono_pos_r _ _ t) in H3; [| lia]. nia. }
  split; [lia |].
  assert (2 ^ an * 2 ^ 53 = 2 ^ (an - at' + 53 - c) * 2 ^ (at' + c)) as E.
  { rewrite <- !Z.pow_add_r by lia. f_equal. lia. }
  replace (2 ^ c * (t * 2 ^ at')) with (t * 2 ^ (at' + c)) in Hlo, Hhi
    by (rewrite <- EW; ring).
  replace (mq * 2 ^ c * (t * 2 ^ at')) with (mq * t * 2 ^ (at' + c)) in Hlo, Hhi
    by (rewrite <- EW; ring).
  replace (n * 2 ^ an * 2 ^ 53)
    with (n * 2 ^ (an - at' + 53 - c) * 2 ^ (at' + c)) in Hlo, Hhi
    by (rewrite <- Z.mul_assoc, <- E; ring).
  set (A := 2 ^ (an - at' + 53 - c)) in *. set (W := 2 ^ (at' + c)) in *.
  split.
  - apply (Z.mul_le_mono_pos_r _ _ W); [done |]. lia.
  - apply (Z.mul_le_mono_pos_r _ _ W); [done |]. lia.
Qed.

(** From the three roundings (of the quotient, of its product with 100, and
    of the decimal text) to the distance between the printed hundredths [k]
    and the exact percentage: the first two errors are too small to move
    [k * t] by a unit. *)
Lemma hundredth_bound (n t mq mp k a c : Z) :
  0 ≤ n → 0 < t < 2 ^ 32 → 52 ≤ a → 6 ≤ c ≤ 8 → 0 < mp →
  - t ≤ 2 * (mq * t - n * 2 ^ a) ≤ t →
  - 2 ^ c ≤ 2 * (mp * 2 ^ c - 100 * mq) ≤ 2 ^ c →
  2 ^ (a - c) * (2 * k - 1) ≤ 2 * (mp * 100) < 2 ^ (a - c) * (2 * k + 1) →
  0 ≤ k ∧ - t ≤ 2 * (k * t - 10000 * n) ≤ t.
Proof.
  intros Hn Ht Ha Hc Hmp [J1 J2] [K1 K2] [L1 L2].
  assert (2 ^ 44 ≤ 2 ^ (a - c)) as HV by (apply Z.pow_le_mono_r; lia).
  assert (2 ^ a = 2 ^ (a - c) * 2 ^ c) as EA
    by (rewrite <- Z.pow_add_r by lia; f_equal; lia).
  rewrite EA in J1, J2.
  set (V := 2 ^ (a - c)) in *.
  change (2 ^ 44) with 17592186044416 in HV.
  change (2 ^ 32) with 4294967296 in Ht.
  assert (0 ≤ k) as Hk by nia.
  split; [done |].
  assert (c = 6 ∨ c = 7 ∨ c = 8) as [-> | [-> | ->]] by lia.
  - change (2 ^ 6) with 64 in *. split.
    + destruct (Z_le_gt_dec (- t) (2 * (k * t - 10000 * n))); [done |].
      exfalso. nia.
    + destruct (Z_le_gt_dec (2 * (k * t - 10000 * n)) t); [done |].
      exfalso. nia.
  - change (2 ^ 7) with 128 in *. split.
    + destruct (Z_le_gt_dec (- t) (2 * (k * t - 10000 * n))); [done |].
      exfalso. nia.
    + destruct (Z_le_gt_dec (2 * (k * t - 10000 * n)) t); [done |].
      exfalso. nia.
  - change (2 ^ 8) with 256 in *. split.
    + destruct (Z_le_gt_dec (- t) (2 * (k * t - 10000 * n))); [done |].
      exfalso. nia.
    + destruct (Z_le_gt_dec (2 * (k * t - 10000 * n)) t); [done |].
      exfalso. nia.
Qed.

End FloatFacts.

(** *** Decimal text *)

Lemma substring_whole (b : string) : substring 0 (String.length b) b = b.
Proof. induction b as [|c b IH]; simpl; [done | by rewrite IH]. Qed.

Lemma substring_app_l (a b : string) :
  substring 0 (String.length a) (a ++ b) = a.
Proof.
  induction a as [|c a IH]; [by destruct b |].
  change (String c (substring 0 (String.length a) (a ++ b)) = String c a).
  by rewrite IH.
Qed.

Lemma substring_app_r (a b : string) :
  substring (String.length a) (String.length b) (a ++ b) = b.
Proof.
  induction a as [|c a IH]; [apply substring_whole | exact IH].
Qed.

Lemma string_length_app (a b : string) :
  String.length (a ++ b) = (String.length a + String.length b)%nat.
Proof.
  induction a as [|c a IH]; [done |].
  change (S (String.length (a ++ b))
          = S (String.length a + String.length b)). by rewrite IH.
Qed.

Lemma string_app_assoc (a b c : string) : (a ++ b) ++ c = a ++ b ++ c.
Proof.
  induction a as [|x a IH]; [done |].
  change (String x ((a ++ b) ++ c) = String x (a ++ b ++ c)). by rewrite IH.
Qed.

Lemma pretty_N_go_app (x : N) (s : string) :
  pretty_N_go x s = pretty_N_go x "" ++ s.
Proof.
  revert s. induction (N.lt_wf_0 x) as [x _ IH]; intros s.
  destruct (decide (0 < x)%N) as [Hx | Hx].
  - rewrite !(pretty_N_go_step x) by done.
    rewrite (IH (x `div` 10)%N) by (by apply N.div_lt).
    rewrite (IH (x `div` 10)%N ltac:(by apply N.div_lt) (String _ "")).
    by rewrite string_app_assoc.
  - assert (x = 0%N) as -> by lia. by rewrite !pretty_N_go_0.
Qed.

Lemma pretty_N_digit (x : N) :
  (x < 10)%N → pretty x = String (pretty_N_char x) "".
Proof.
  intros Hx. unfold pretty, pretty_N. case_decide as H0; [by subst |].
  rewrite pretty_N_go_step by lia.
  rewrite N.div_small, N.mod_small by done. by rewrite pretty_N_go_0.
Qed.

Lemma pretty_N_snoc (x : N) :
  (10 ≤ x)%N →
  pretty x = pretty (x `div` 10)%N ++ String (pretty_N_char (x `mod` 10)) "".
Proof.
  intros Hx. unfold pretty, pretty_N.
  assert (0 < x `div` 10)%N by (apply N.div_str_pos; lia).
  rewrite !decide_False by lia.
  rewrite pretty_N_go_step by lia. apply pretty_N_go_app.
Qed.

Lemma pretty_N_nonempty (x : N) : (1 ≤ String.length (pretty x))%nat.
Proof.
  destruct (decide (x < 10)%N) as [H | H].
  - by rewrite pretty_N_digit.
  - rewrite pretty_N_snoc, string_length_app by lia. simpl. lia.
Qed.

Lemma pretty_Z_of_N (x : N) : pretty (Z.of_N x) = pretty x.
Proof. by destruct x. Qed.

(** What [fixed 2] prints: the decimal digits of the hundreds, a point,
    and the two digits below. *)
Lemma fixed_two (k : Z) :
  (0 ≤ k)%Z →
  Number.fixed 2 k
  = pretty (k / 100)%Z ++ "." ++ pretty ((k / 10) `mod` 10)%Z ++ pretty (k `mod` 10)%Z.
Proof.
  intros Hk. unfold Number.fixed. cbn [Nat.eqb].
  set (x := Z.to_N k). replace k with (Z.of_N x) by (unfold x; lia).
  replace (Z.of_N x / 100)%Z with (Z.of_N (x `div` 100))
    by (by rewrite N2Z.inj_div).
  replace ((Z.of_N x / 10) `mod` 10)%Z with (Z.of_N ((x `div` 10) `mod` 10))
    by (by rewrite N2Z.inj_mod, N2Z.inj_div).
  replace (Z.of_N x `mod` 10)%Z with (Z.of_N (x `mod` 10))
    by (by rewrite N2Z.inj_mod).
  rewrite !pretty_Z_of_N.
  rewrite (pretty_N_digit (x `mod` 10)) by (apply N.mod_lt; lia).
  rewrite (pretty_N_digit ((x `div` 10) `mod` 10)) by (apply N.mod_lt; lia).
  destruct (decide (x < 10)%N) as [H1 | H1].
  - rewrite (pretty_N_digit x) by done.
    rewrite (N.div_small x 100), (N.div_small x 10), (N.mod_small x 10) by lia.
    done.
  - destruct (decide (x < 100)%N) as [H2 | H2].
    + rewrite (pretty_N_snoc x) by lia.
      assert (x `div` 10 < 10)%N by (apply N.Div0.div_lt_upper_bound; lia).
      rewrite (pretty_N_digit (x `div` 10)) by done.
      rewrite (N.div_small x 100), (N.mod_small (x `div` 10) 10) by lia.
      done.
    + rewrite (pretty_N_snoc x) by lia.
      assert (10 ≤ x `div` 10)%N by (apply N.div_le_lower_bound; lia).
      rewrite (pretty_N_snoc (x `div` 10)) by done.
      rewrite N.Div0.div_div. change (10 * 10)%N with 100%N.
      pose proof (pretty_N_nonempty (x `div` 100)) as Ha.
      set (a := pretty (x `div` 100)%N) in *.
      set (c1 := pretty_N_char ((x `div` 10) `mod` 10)).
      set (c0 := pretty_N_char (x `mod` 10)).
      rewrite string_app_assoc. change (String c1 "" ++ String c0 "")
        with (String c1 (String c0 "")).
      assert (String.length (a ++ String c1 (String c0 ""))
              = String.length a + 2)%nat as Hlen
        by (by rewrite string_length_app).
      rewrite Hlen.
      replace (2 + 1 - (String.length a + 2))%nat with 0%nat by lia.
      change (Number.zeros 0 ++ a ++ String c1 (String c0 ""))
        with (a ++ String c1 (String c0 "")).
      rewrite Hlen.
      replace (String.length a + 2 - 2)%nat with (String.length a) by lia.
      rewrite substring_app_l.
      change 2%nat with (String.length (String c1 (String c0 ""))) at 1.
      rewrite substring_app_r. done.
Qed.

(** *** Percentages *)

Section PercentageFacts.

Local Open Scope Z_scope.

Variable numberToString : float → string.

(** The double [(n / total) * 100] of two counts and the hundredth
    [toFixed(2)] prints for it. *)
Lemma toFixed_percentage (n total : nat) :
  (n ≤ total)%nat → 0 < Z.of_nat total < 2 ^ 32 →
  ∃ k, Number.toFixed numberToString 2
         (Number.of_nat n / Number.of_nat total * 100)%float
       = Number.fixed 2 k
       ∧ 0 ≤ k
       ∧ - Z.of_nat total
         ≤ 2 * (k * Z.of_nat total - 10000 * Z.of_nat n)
         ≤ Z.of_nat total.
Proof.
  intros Hn Ht.
  assert (Z.of_nat total < 2 ^ 53)
    by (eapply Z.lt_trans; [apply Ht | by vm_compute]).
  destruct (of_nat_exact total) as (mt & et & Et & Hmt & Het & Evt); [lia |].
  unfold Number.toFixed. rewrite mul_spec, div_spec, Et.
  unfold SF64mul, SF64div.
  destruct n as [|n'].
  - rewrite of_nat_zero, hundred_spec. cbn [SFdiv SFmul xorb].
    exists 0. split; [done |]. lia.
  - set (n := S n') in *.
    destruct (of_nat_exact n) as (mn & en & En & Hmn & Hen & Evn);
      [unfold n; lia |].
    rewrite En.
    destruct (SFdiv_nearest mn mt en et) as (mq & c & -> & Hmq & Hc & Hq);
      [done | done | done | done |].
    destruct (quotient_bound (Z.of_nat n) (Z.of_nat total) (Z.pos mn)
                (Z.pos mt) (Z.pos mq) (- en) (- et) c)
      as [Ha Hquot]; [unfold n; lia | lia | lia | done | done | done | lia
                      | done |].
    destruct (SFmul_hundred_nearest mq (en - et - 53 + c))
      as (mp & c' & -> & Hmp & Hc' & Hprod); [done | lia |].
    set (ep := en - et - 53 + c + c').
    assert (Number.huge mp ep = false) as ->.
    { unfold Number.huge. rewrite (proj2 (Z.leb_gt 0 ep)) by (unfold ep; lia).
      apply Z.leb_gt.
      assert (2 ^ 44 ≤ 2 ^ (- ep)) by (apply Z.pow_le_mono_r; unfold ep; lia).
      change (2 ^ 44) with 17592186044416 in *.
      change (2 ^ 53) with 9007199254740992 in *.
      change (10 ^ 21) with 1000000000000000000000.
      set (P := 2 ^ (- ep)) in *. lia. }
    exists (Number.nearest 2 mp ep). split; [done |].
    pose proof (proj1 (nearest_spec 2 mp ep) ltac:(unfold ep; lia)) as Hk.
    cbv zeta in Hk. change (10 ^ Z.of_nat 2) with 100 in Hk.
    apply (hundredth_bound (Z.of_nat n) (Z.of_nat total) (Z.pos mq) (Z.pos mp)
             _ (- en - - et + 53 - c) c');
      [lia | lia | lia | done | lia | done | done |].
    replace (- en - - et + 53 - c - c') with (- ep) by (unfold ep; lia).
    done.
Qed.

End PercentageFacts.

(** C8: the statistics never divide by zero and report each percentage to
    the nearest hundredth.  With no apartments both percentages are the
    number [0] and no quotient is formed.  With [total] apartments, [total]
    positive and below [2 ^ 32] as the length of an array is, the divisor is
    the double [total] exactly (so not zero), and each percentage is a text
    of decimal digits with a point before the last two: the hundredths [k]
    it stands for lie between 0 and 10000, at most half a hundredth away
    from the exact percentage [100 * n / total].  Only at an exact tie are
    there two such [k], and there the double arithmetic decides. *)
Theorem computeStats_percentages (toString : option value → string)
    (numberToString : float → string) (apartments agreements : list doc) :
  let total := length apartments in
  let unavailable := unavailable toString apartments agreements in
  let available := (total - unavailable)%nat in
  let hundredths (k : Z) : string :=
    pretty (k / 100)%Z ++ "." ++ pretty ((k / 10) `mod` 10)%Z
      ++ pretty (k `mod` 10)%Z in
  (unavailable ≤ total)%nat
  ∧ (total = 0%nat →
       computeStats toString numberToString apartments agreements
       = Stats 0 (Num 0%float) (Num 0%float))
  ∧ ((0 < total)%nat → (Z.of_nat total < 2 ^ 32)%Z →
       (∃ m e, Prim2SF (Number.of_nat total) = S754_finite false m e
               ∧ (e ≤ 0)%Z ∧ (Z.pos m = Z.of_nat total * 2 ^ (- e))%Z)
       ∧ ∃ ka ku : Z,
           computeStats toString numberToString apartments agreements
           = Stats total (Str (hundredths ka)) (Str (hundredths ku))
           ∧ (0 ≤ ka ≤ 10000)%Z ∧ (0 ≤ ku ≤ 10000)%Z
           ∧ (2 * Z.abs (ka * Z.of_nat total - 10000 * Z.of_nat available)
              ≤ Z.of_nat total)%Z
           ∧ (2 * Z.abs (ku * Z.of_nat total - 10000 * Z.of_nat unavailable)
              ≤ Z.of_nat total)%Z).
Proof.
  intros total unavail available hundredths.
  assert (unavail ≤ total)%nat as Hle
    by (subst total unavail; unfold unavailable; apply filter_length_le).
  split_and!.
  - done.
  - intros H0. unfold computeStats, percentage. fold total. by rewrite H0.
  - intros Hpos Hlt. split.
    + destruct (of_nat_exact total) as (m & e & Em & _ & He & Ev).
      { split; [lia |]. eapply Z.lt_trans; [apply Hlt | by vm_compute]. }
      exists m, e. split; [done |]. split; [lia | done].
    + destruct (toFixed_percentage numberToString available total)
        as (ka & Ea & Hka0 & Hka); [lia | lia |].
      destruct (toFixed_percentage numberToString unavail total)
        as (ku & Eu & Hku0 & Hku); [lia | lia |].
      exists ka, ku. split; [| split; [| split; [| split]]].
      * unfold computeStats, percentage. fold total unavail available.
        rewrite (proj2 (Nat.eqb_neq total 0)) by lia.
        rewrite Ea, Eu, !fixed_two by done. done.
      * split; [done |]. assert (Z.of_nat available ≤ Z.of_nat total)%Z by lia.
        nia.
      * split; [done |]. assert (Z.of_nat unavail ≤ Z.of_nat total)%Z by lia.
        nia.
      * lia.
      * lia.
Qed.

(** Three apartments, one of them let: the percentages the statistics
    report are within half a hundredth of two thirds and of one third. *)
Lemma computeStats_percentages_witness :
  let hundredths (k : Z) : string :=
    pretty (k / 100)%Z ++ "." ++ pretty ((k / 10) `mod` 10)%Z
      ++ pretty (k `mod` 10)%Z in
  ∃ ka ku : Z,
    computeStats Sample.toString Sample.numberToString
      [Sample.apartment "B1" "101"; Sample.apartment "B1" "102";
       Sample.apartment "B2" "7"]
      [Sample.agreement 1 "bob@x.io" "B1" "102" "checked"]
    = Stats 3 (Str (hundredths ka)) (Str (hundredths ku))
    ∧ (2 * Z.abs (ka * 3 - 10000 * 2) ≤ 3)%Z
    ∧ (2 * Z.abs (ku * 3 - 10000 * 1) ≤ 3)%Z.
Proof.
  intros hundredths.
  destruct (proj2 (proj2 (proj2 (computeStats_percentages Sample.toString
              Sample.numberToString
              [Sample.apartment "B1" "101"; Sample.apartment "B1" "102";
               Sample.apartment "B2" "7"]
              [Sample.agreement 1 "bob@x.io" "B1" "102" "checked"]))
              ltac:(simpl; lia) ltac:(by vm_compute)))
    as (ka & ku & E & _ & _ & Ha & Hu).
  exists ka, ku. split; [exact E |]. split; [exact Ha | exact Hu].
Defined.

(** The percentage is the double's, not the exact percentage's, rounding:
    of 160 apartments with 23 let, [14.375] per cent exactly, the statistics
    report [14.37], which neither rounding half up nor rounding half to even
    gives; one of 32, [3.125] per cent exactly, is reported as [3.13]. *)
Lemma computeStats_tie_of_the_double :
  computeStats Sample.toString Sample.numberToString
    (Sample.block 160) (Sample.lets 23)
  = Stats 160 (Str "85.63") (Str "14.37")
  ∧ (2 * (10000 * 23) = (1437 + 1438) * 160)%Z
  ∧ computeStats Sample.toString Sample.numberToString
      (Sample.block 32) (Sample.lets 1)
    = Stats 32 (Str "96.88") (Str "3.13")
  ∧ (2 * (10000 * 1) = (312 + 313) * 32)%Z.
Proof. vm_compute. done. Qed.

(** Three apartments, one of them let. *)
Example computeStats_one_of_three :
  computeStats Sample.toString Sample.numberToString
    [Sample.apartment "B1" "101"; Sample.apartment "B1" "102";
     Sample.apartment "B2" "7"]
    [Sample.agreement 1 "bob@x.io" "B1" "102" "checked"]
  = Stats 3 (Str "66.67") (Str "33.33").
Proof. vm_compute. reflexivity. Qed.

Example computeStats_no_apartments :
  computeStats Sample.toString Sample.numberToString []
    [Sample.agreement 1 "bob@x.io" "B1" "102" "checked"]
  = Stats 0 (Num 0%float) (Num 0%float).
Proof. vm_compute. reflexivity. Qed.

(** What the guard on [total] keeps out of the answer. *)
Example toFixed_zero_by_zero :
  Number.toFixed Sample.numberToString 2
    (Number.of_nat 0 / Number.of_nat 0 * 100)%float = "NaN".
Proof. vm_compute. reflexivity. Qed.

Example toFixed_ties_and_halves :
  Number.toFixed Sample.numberToString 2 (Number.of_nat 1 / Number.of_nat 32 * 100)%float
  = "3.13"
  ∧ Number.toFixed Sample.numberToString 2 (Number.of_nat 1 / Number.of_nat 8 * 100)%float
    = "12.50"
  ∧ Number.toFixed Sample.numberToString 2 (Number.of_nat 3 / Number.of_nat 3 * 100)%float
    = "100.00".
Proof. vm_compute. done. Qed.

(** The percentage is rounded as a double: [(23 / 160) * 100] lies just
    below [14.375]. *)
Example toFixed_of_the_double :
  Number.toFixed Sample.numberToString 2
    (Number.of_nat 23 / Number.of_nat 160 * 100)%float = "14.37".
Proof. vm_compute. reflexivity. Qed.

(** The header forms of the credential check. *)
Example token_forms :
  token "Bearer abc" = Some "abc" ∧ token "Bearer" = None
  ∧ token "Bearer " = Some "" ∧ token "" = None.
Proof. vm_compute. done. Qed.

Example verifyFirebaseToken_samples :
  let req h := {| authorization := h; id := ""; body := ∅; decoded := None |} in
  verifyFirebaseToken Sample.verifyIdToken (req None)
  = Reply {| status := 401; sent := Message "Unauthorized Access" |}
  ∧ verifyFirebaseToken Sample.verifyIdToken (req (Some "Bearer"))
    = Reply {| status := 401; sent := Message "Unauthorized Access" |}
  ∧ verifyFirebaseToken Sample.verifyIdToken (req (Some "Bearer forged"))
    = Reply {| status := 403; sent := Message "Forbidden Access" |}
  ∧ verifyFirebaseToken Sample.verifyIdToken (req (Some "Bearer tok-alice"))
    = Next (set_decoded {| email := Some "alice@x.io" |} (req (Some "Bearer tok-alice"))).
Proof. vm_compute. done. Qed.


(** * Further properties *)

(** ** Lists of documents *)

Section StoreFacts.

Implicit Types (q : Mongo.query) (c : list doc) (d upd : doc).

(** The first match, with its position. *)
Lemma findOne_first q c d :
  Mongo.findOne q c = Some d →
  ∃ i, c !! i = Some d
       ∧ ∀ k x, (k < i)%nat → c !! k = Some x → Mongo.matches q x = false.
Proof.
  unfold Mongo.findOne. induction c as [|d' c IH]; simpl; [done |].
  destruct (Mongo.matches q d') eqn:Hm.
  - intros [= ->]. exists 0%nat. split; [done | intros; lia].
  - intros Hf. destruct (IH Hf) as (i & Hi & Hlt). exists (S i).
    split; [done |]. intros [|k] x Hk Hx; simpl in Hx.
    + by injection Hx as <-.
    + apply (Hlt k); [lia | done].
Qed.

Lemma findOne_at q c i d :
  c !! i = Some d → Mongo.matches q d = true →
  (∀ k x, (k < i)%nat → c !! k = Some x → Mongo.matches q x = false) →
  Mongo.findOne q c = Some d.
Proof.
  unfold Mongo.findOne. revert i. induction c as [|d' c IH]; intros i; [done |].
  destruct i as [|i]; simpl.
  - intros [= ->] -> _. done.
  - intros Hi Hm Hlt. rewrite (Hlt 0%nat d' ltac:(lia) eq_refl).
    apply (IH i); [done | done |].
    intros k x Hk Hx. apply (Hlt (S k)); [lia | done].
Qed.

(** [updateOne] writes at the position of the first match. *)
Lemma updateOne_first q upd c d :
  Mongo.findOne q c = Some d →
  ∃ i, c !! i = Some d
       ∧ (∀ k x, (k < i)%nat → c !! k = Some x → Mongo.matches q x = false)
       ∧ Mongo.updateOne q upd c = <[i := upd ∪ d]> c.
Proof.
  unfold Mongo.findOne. induction c as [|d' c IH]; simpl; [done |].
  destruct (Mongo.matches q d') eqn:Hm.
  - intros [= ->]. exists 0%nat. split_and!; [done | intros; lia | done].
  - intros Hf. destruct (IH Hf) as (i & Hi & Hlt & Hu). exists (S i).
    split_and!; [done | | by simpl; rewrite Hu].
    intros [|k] x Hk Hx; simpl in Hx.
    + by injection Hx as <-.
    + apply (Hlt k); [lia | done].
Qed.

Lemma findOne_app q c1 c2 :
  Mongo.findOne q (c1 ++ c2)%list =
    match Mongo.findOne q c1 with
    | Some d => Some d
    | None => Mongo.findOne q c2
    end.
Proof.
  unfold Mongo.findOne. induction c1 as [|d c1 IH]; simpl; [done |].
  by destruct (Mongo.matches q d).
Qed.

Lemma find_app q c1 c2 :
  Mongo.find q (c1 ++ c2)%list = (Mongo.find q c1 ++ Mongo.find q c2)%list.
Proof. unfold Mongo.find. apply List.filter_app. Qed.

(** A field the update does not mention is left alone everywhere. *)
Lemma updateOne_field q upd c i (f : string) :
  upd !! f = None →
  (Mongo.updateOne q upd c !! i) ≫= (λ a : doc, a !! f)
  = (c !! i) ≫= (λ a : doc, a !! f).
Proof.
  intros Hf. destruct (updateOne_lookup q upd c i) as [-> | (d & Hd & ->)];
    [done |].
  rewrite Hd. simpl. by apply lookup_union_r.
Qed.

(** At most one position changes. *)
Lemma updateOne_elsewhere q upd c :
  ∃ i0, ∀ i, i ≠ i0 → Mongo.updateOne q upd c !! i = c !! i.
Proof.
  destruct (Mongo.findOne q c) as [d|] eqn:Hf.
  - destruct (updateOne_at q upd c d Hf) as (i0 & Hi & ->).
    exists i0. intros i Hne. by rewrite list_lookup_insert_ne.
  - exists 0%nat. intros i _. by rewrite updateOne_no_match.
Qed.

(** Counting through a replacement at one position. *)
Lemma filter_insert_length (P : doc → bool) c i (x y : doc) :
  c !! i = Some x →
  (length (List.filter P (<[i := y]> c)) + (if P x then 1 else 0)
   = length (List.filter P c) + (if P y then 1 else 0))%nat.
Proof.
  revert i. induction c as [|d c IH]; intros i; [done |].
  destruct i as [|i]; simpl.
  - intros [= ->]. destruct (P x), (P y); simpl; lia.
  - intros Hi. specialize (IH i Hi). destruct (P d); simpl; lia.
Qed.

(** Uniqueness on a field survives an update that does not mention it, and
    an insert of a value no document has. *)
Lemma unique_on_updateOne (f : string) q upd c :
  upd !! f = None → unique_on f c → unique_on f (Mongo.updateOne q upd c).
Proof.
  intros Hf Hu i j a b Hi Hj Hab.
  pose proof (updateOne_field q upd c i f Hf) as Ei.
  pose proof (updateOne_field q upd c j f Hf) as Ej.
  rewrite Hi in Ei. rewrite Hj in Ej. simpl in Ei, Ej.
  assert (length (Mongo.updateOne q upd c) = length c) as Hlen
    by apply updateOne_length.
  destruct (lookup_lt_is_Some_2 c i) as [a0 Ha0];
    [rewrite <- Hlen; by apply lookup_lt_Some in Hi |].
  destruct (lookup_lt_is_Some_2 c j) as [b0 Hb0];
    [rewrite <- Hlen; by apply lookup_lt_Some in Hj |].
  rewrite Ha0 in Ei. rewrite Hb0 in Ej. simpl in Ei, Ej.
  apply (Hu i j a0 b0); [done | done |]. by rewrite <- Ei, <- Ej.
Qed.

Lemma unique_on_insertOne (f : string) (oid : N) c c' d :
  f ≠ "_id" → unique_on f c →
  Mongo.findOne [(f, Mongo.Eq (Mongo.bson (d !! f)))] c = None →
  Mongo.insertOne oid d c = Some c' →
  unique_on f c'.
Proof.
  intros Hf Hu Hnone Hins. apply insertOne_Some in Hins as [_ ->].
  rewrite findOne_None in Hnone.
  assert (∀ k x, c !! k = Some x → Mongo.bson (x !! f) ≠ Mongo.bson (d !! f))
    as Hfresh.
  { intros k x Hk Heq.
    assert (x ∈ c) as Hx by (apply list_elem_of_lookup; by exists k).
    specialize (Hnone x Hx). simpl in Hnone.
    unfold Mongo.holds, Mongo.field_is in Hnone; simpl in Hnone.
    rewrite andb_true_r in Hnone. apply bool_decide_eq_false in Hnone. done. }
  intros i j a b Hi Hj Hab.
  apply lookup_app_Some in Hi as [Hi | [Hli Hi]];
    apply lookup_app_Some in Hj as [Hj | [Hlj Hj]].
  - by apply (Hu i j a b).
  - apply list_lookup_singleton_Some in Hj as [_ <-].
    rewrite with_id_lookup in Hab by done. by destruct (Hfresh i a Hi).
  - apply list_lookup_singleton_Some in Hi as [_ <-].
    rewrite with_id_lookup in Hab by done. by destruct (Hfresh j b Hj).
  - apply list_lookup_singleton_Some in Hi as [Hi _].
    apply list_lookup_singleton_Some in Hj as [Hj _]. lia.
Qed.

End StoreFacts.

(** ** The credential and the gates of a route *)

Lemma split_before (c : ascii) (a b : string) :
  avoids c a = true → JS.split c (a ++ String c b) = a :: JS.split c b.
Proof.
  induction a as [|x a IH]; simpl.
  - intros _. by rewrite Ascii.eqb_refl.
  - intros H. apply andb_true_iff in H as [Hx Ha].
    apply negb_true_iff in Hx. rewrite Hx, (IH Ha). done.
Qed.

Lemma split_whole (c : ascii) (a : string) :
  avoids c a = true → JS.split c a = [a].
Proof.
  induction a as [|x a IH]; simpl; [done |].
  intros H. apply andb_true_iff in H as [Hx Ha].
  apply negb_true_iff in Hx. by rewrite Hx, (IH Ha).
Qed.

(** A string has no space, or a first space with a space-free word before
    it. *)
Lemma first_space (h : string) :
  avoids " " h = true
  ∨ ∃ a b, h = a ++ String " " b ∧ avoids " " a = true.
Proof.
  induction h as [|x h IH]; [by left |].
  destruct (Ascii.eqb x " ") eqn:Hx.
  - right. exists "", h. apply Ascii.eqb_eq in Hx as ->. done.
  - destruct IH as [IH | (a & b & -> & Ha)].
    + left. simpl. by rewrite Hx, IH.
    + right. exists (String x a), b. simpl. by rewrite Hx, Ha.
Qed.

(** [split(" ")[1]] is the second word of the header. *)
Lemma token_second_word (h t : string) :
  token h = Some t ↔ second_word h t.
Proof.
  unfold token, second_word. split.
  - destruct (first_space h) as [Hh | (a & b & -> & Ha)].
    + rewrite (split_whole _ _ Hh). discriminate.
    + rewrite (split_before _ _ _ Ha). simpl.
      destruct (first_space b) as [Hb | (a' & b' & -> & Ha')].
      * rewrite (split_whole _ _ Hb). intros [= <-].
        exists a. split_and!; [done | done |]. by left.
      * rewrite (split_before _ _ _ Ha'). intros [= <-].
        exists a. split_and!; [done | done |]. right. by exists b'.
  - intros (scheme & Hs & Ht & [-> | (rest & ->)]).
    + change (scheme ++ " " ++ t) with (scheme ++ String " " t).
      by rewrite (split_before _ _ _ Hs), (split_whole _ _ Ht).
    + change (scheme ++ " " ++ t ++ " " ++ rest)
        with (scheme ++ String " " (t ++ String " " rest)).
      by rewrite (split_before _ _ _ Hs), (split_before _ _ _ Ht).
Qed.

(** The credential is the non-empty second word of the header. *)
Lemma credential_second_word (req : request) (t : string) :
  credential req = Some t ↔
  ∃ h, authorization req = Some h ∧ second_word h t ∧ t ≠ "".
Proof.
  rewrite credential_Some.
  split; intros (h & Hh & Ht & Hne); exists h;
    (split_and!; [done | by apply token_second_word | done]).
Qed.

(** C6: the credential of a request is the second space-separated word of
    its authorization header.  A request with no header, with a header of
    one word (the empty header too), or with a header whose second word is
    empty, is answered 401; a request whose header has a non-empty second
    word is answered by the identity provider's verdict on that word: 403
    when the provider rejects it, the next handler (with the decoded token)
    when it accepts.  Conversely 401 is answered only when there is no such
    word and 403 only when there is one and the provider rejects it, and the
    verifier gives no other answer of its own.  So absence is never a 403
    and rejection never a 401. *)
Theorem verifyFirebaseToken_401_403 (verifyIdToken : string → option decoded_token)
    (req : request) :
  let unauthenticated :=
    Reply {| status := 401; sent := Message "Unauthorized Access" |} in
  let forbidden :=
    Reply {| status := 403; sent := Message "Forbidden Access" |} in
  (authorization req = None →
     verifyFirebaseToken verifyIdToken req = unauthenticated)
  ∧ (∀ h, authorization req = Some h → avoids " " h = true →
       verifyFirebaseToken verifyIdToken req = unauthenticated)
  ∧ (∀ h, authorization req = Some h → second_word h "" →
       verifyFirebaseToken verifyIdToken req = unauthenticated)
  ∧ (∀ h t, authorization req = Some h → second_word h t → t ≠ "" →
       verifyFirebaseToken verifyIdToken req =
         match verifyIdToken t with
         | Some d => Next (set_decoded d req)
         | None => forbidden
         end)
  ∧ (verifyFirebaseToken verifyIdToken req = unauthenticated ↔
       ¬ ∃ h t, authorization req = Some h ∧ second_word h t ∧ t ≠ "")
  ∧ (verifyFirebaseToken verifyIdToken req = forbidden ↔
       ∃ h t, authorization req = Some h ∧ second_word h t ∧ t ≠ ""
              ∧ verifyIdToken t = None)
  ∧ (∀ res, verifyFirebaseToken verifyIdToken req = Reply res →
       res = {| status := 401; sent := Message "Unauthorized Access" |}
       ∨ res = {| status := 403; sent := Message "Forbidden Access" |}).
Proof.
  simpl. rewrite verifyFirebaseToken_cases. split_and!.
  - intros Hh. rewrite credential_nonempty; [done | by rewrite Hh].
  - intros h Hh Hs.
    destruct (credential req) as [t|] eqn:Ht; [| done].
    apply credential_second_word in Ht as (h' & Hh' & Hw & _).
    assert (h' = h) as -> by congruence.
    apply token_second_word in Hw. unfold token in Hw.
    rewrite (split_whole _ _ Hs) in Hw. discriminate.
  - intros h Hh Hw.
    destruct (credential req) as [t|] eqn:Ht; [| done].
    apply credential_second_word in Ht as (h' & Hh' & Hw' & Hne).
    assert (h' = h) as -> by congruence.
    apply token_second_word in Hw, Hw'. congruence.
  - intros h t Hh Ht Hne.
    assert (credential req = Some t) as ->
      by (apply credential_second_word; by exists h).
    done.
  - destruct (credential req) as [t|] eqn:Ht.
    + apply credential_second_word in Ht as (h & Hh & Hw & Hne).
      split; [by destruct (verifyIdToken t) |].
      intros Hn. destruct Hn. by exists h, t.
    + split; [| done]. intros _ (h & t & Hh & Hw & Hne).
      assert (credential req = Some t)
        by (apply credential_second_word; by exists h).
      congruence.
  - destruct (credential req) as [t|] eqn:Ht.
    + pose proof Ht as Ht'.
      apply credential_second_word in Ht' as (h & Hh & Hw & Hne).
      destruct (verifyIdToken t) eqn:Hv.
      * split; [done |]. intros (h' & t' & Hh' & Hw' & Hne' & Hv').
        assert (credential req = Some t')
          by (apply credential_second_word; by exists h').
        congruence.
      * split; [| done]. intros _. by exists h, t.
    + split; [done |]. intros (h & t & Hh & Hw & Hne & _).
      assert (credential req = Some t)
        by (apply credential_second_word; by exists h).
      congruence.
  - intros res. destruct (credential req) as [t|];
      [destruct (verifyIdToken t) |]; intros [= <-]; auto.
Qed.

(** The verifier on four requests: a header with the scheme alone and one
    with a scheme, a space and nothing else are answered 401; a token the
    provider does not know is answered 403; a known token goes through. *)
Lemma verifyFirebaseToken_401_403_witness :
  let request_with h :=
    {| authorization := Some h; id := ""; body := ∅; decoded := None |} in
  verifyFirebaseToken Sample.verifyIdToken (request_with "Bearer")
  = Reply {| status := 401; sent := Message "Unauthorized Access" |}
  ∧ verifyFirebaseToken Sample.verifyIdToken (request_with "Bearer ")
    = Reply {| status := 401; sent := Message "Unauthorized Access" |}
  ∧ verifyFirebaseToken Sample.verifyIdToken (request_with "Bearer stale")
    = Reply {| status := 403; sent := Message "Forbidden Access" |}
  ∧ verifyFirebaseToken Sample.verifyIdToken (request_with "Bearer tok-alice")
    = Next (set_decoded {| email := Some "alice@x.io" |}
              (request_with "Bearer tok-alice")).
Proof.
  intros request_with. split_and!.
  - apply (proj1 (proj2 (verifyFirebaseToken_401_403 Sample.verifyIdToken
                           (request_with "Bearer"))) "Bearer"); done.
  - apply (proj1 (proj2 (proj2 (verifyFirebaseToken_401_403
                           Sample.verifyIdToken (request_with "Bearer "))))
             "Bearer "); [done |].
    exists "Bearer". split_and!; [done | done |]. by left.
  - apply (proj1 (proj2 (proj2 (proj2 (verifyFirebaseToken_401_403
                           Sample.verifyIdToken (request_with "Bearer stale")))))
             "Bearer stale" "stale"); [done | | done].
    exists "Bearer". split_and!; [done | done |]. by left.
  - apply (proj1 (proj2 (proj2 (proj2 (verifyFirebaseToken_401_403
                           Sample.verifyIdToken
                           (request_with "Bearer tok-alice")))))
             "Bearer tok-alice" "tok-alice"); [done | | done].
    exists "Bearer". split_and!; [done | done |]. by left.
Defined.

(** X1: the verifier does not look at the scheme of the authorization
    header.  Whatever word precedes the first space (none at all, too), the
    credential is the word after it, and what follows a second space is
    ignored; the answer is the identity provider's verdict on that word. *)
Theorem verifyFirebaseToken_any_scheme
    (verifyIdToken : string → option decoded_token) (req : request)
    (scheme t rest : string) :
  avoids " " scheme = true → avoids " " t = true → t ≠ "" →
  authorization req = Some (scheme ++ " " ++ t)
  ∨ authorization req = Some (scheme ++ " " ++ t ++ " " ++ rest) →
  credential req = Some t
  ∧ verifyFirebaseToken verifyIdToken req =
      match verifyIdToken t with
      | Some d => Next (set_decoded d req)
      | None => Reply {| status := 403; sent := Message "Forbidden Access" |}
      end.
Proof.
  intros Hs Ht Hne Hh.
  assert (credential req = Some t) as Hc.
  { apply credential_Some. destruct Hh as [Hh | Hh]; eexists;
      (split; [exact Hh |]); (split; [| done]); unfold token.
    - change (scheme ++ " " ++ t) with (scheme ++ String " " t).
      rewrite (split_before _ _ _ Hs), (split_whole _ _ Ht). done.
    - change (scheme ++ " " ++ t ++ " " ++ rest)
        with (scheme ++ String " " (t ++ String " " rest)).
      rewrite (split_before _ _ _ Hs), (split_before _ _ _ Ht). done. }
  split; [done |]. by rewrite verifyFirebaseToken_cases, Hc.
Qed.

Lemma verifyFirebaseToken_any_scheme_witness :
  let req := {| authorization := Some "Basic tok-alice extra"; id := "";
                body := ∅; decoded := None |} in
  credential req = Some "tok-alice"
  ∧ verifyFirebaseToken Sample.verifyIdToken req
    = Next (set_decoded {| email := Some "alice@x.io" |} req).
Proof.
  intros req.
  apply (verifyFirebaseToken_any_scheme Sample.verifyIdToken req
           "Basic" "tok-alice" "extra"); [done | done | done |].
  right. reflexivity.
Defined.

(** A role gate on a request with a decoded token. *)
Lemma gate_cases (cap : capability) (usersCollection : list doc) (req : request)
    (d : decoded_token) :
  decoded req = Some d →
  gate cap usersCollection req =
    match Mongo.findOne (by_email d) usersCollection with
    | Some user =>
        if bool_decide (user !! "role" = Some (VStr (role_name cap)))
        then Next req
        else Reply {| status := 403;
                      sent := Message
                        match cap with
                        | CapUser => "Only users can access this route"
                        | CapMember => "Only members can access this route"
                        | CapAdmin => "Forbidden Access"
                        end |}
    | None => Reply {| status := 403;
                       sent := Message
                         match cap with
                         | CapUser => "Only users can access this route"
                         | CapMember => "Only members can access this route"
                         | CapAdmin => "Forbidden Access"
                         end |}
    end.
Proof.
  intros Hd. destruct cap; simpl; unfold verifyUser, verifyMember, verifyAdmin;
    by rewrite Hd.
Qed.

(** The credential check followed by a role gate. *)
Lemma through_gates (verifyIdToken : string → option decoded_token)
    (cap : capability) (usersCollection : list doc) (req : request) :
  through [verifyFirebaseToken verifyIdToken; gate cap usersCollection] req =
    match credential req with
    | None => Reply {| status := 401; sent := Message "Unauthorized Access" |}
    | Some t =>
        match verifyIdToken t with
        | None => Reply {| status := 403; sent := Message "Forbidden Access" |}
        | Some d =>
            match gate cap usersCollection (set_decoded d req) with
            | Next req' => Next req'
            | Reply res => Reply res
            | Throw => Throw
            end
        end
    end.
Proof.
  simpl. rewrite verifyFirebaseToken_cases.
  destruct (credential req) as [t|]; [| done]. by destruct (verifyIdToken t).
Qed.

Lemma route_through (guards : list (request → outcome))
    (handler : request → response * db) (s : db) (req : request) :
  route guards handler s req =
    match through guards req with
    | Next req' => Some (handler req')
    | Reply res => Some (res, s)
    | Throw => None
    end.
Proof.
  revert req. induction guards as [|g gs IH]; intros req; simpl; [done |].
  destruct (g req); [apply IH | done | done].
Qed.

(** What it takes to get through the credential check and a role gate. *)
Lemma through_gates_Next (verifyIdToken : string → option decoded_token)
    (cap : capability) (usersCollection : list doc) (req req' : request) :
  through [verifyFirebaseToken verifyIdToken; gate cap usersCollection] req
    = Next req' ↔
  ∃ t d user, credential req = Some t ∧ verifyIdToken t = Some d
    ∧ Mongo.findOne (by_email d) usersCollection = Some user
    ∧ user !! "role" = Some (VStr (role_name cap))
    ∧ req' = set_decoded d req.
Proof.
  rewrite through_gates. split.
  - destruct (credential req) as [t|]; [| done].
    destruct (verifyIdToken t) as [d|] eqn:Hv; [| done].
    rewrite (gate_cases cap usersCollection (set_decoded d req) d eq_refl).
    destruct (Mongo.findOne _ _) as [u|] eqn:Hu; [| done].
    case_bool_decide as Hr; [| done]. intros [= <-]. by exists t, d, u.
  - intros (t & d & u & -> & -> & Hu & Hr & ->).
    rewrite (gate_cases cap usersCollection (set_decoded d req) d eq_refl), Hu.
    by rewrite bool_decide_true.
Qed.

Lemma through_gates_Reply (verifyIdToken : string → option decoded_token)
    (cap : capability) (usersCollection : list doc) (req : request)
    (res : response) :
  through [verifyFirebaseToken verifyIdToken; gate cap usersCollection] req
    = Reply res →
  status res = 401%nat ∨ status res = 403%nat.
Proof.
  rewrite through_gates.
  destruct (credential req) as [t|]; [| intros [= <-]; by left].
  destruct (verifyIdToken t) as [d|]; [| intros [= <-]; by right].
  rewrite (gate_cases cap usersCollection (set_decoded d req) d eq_refl).
  destruct (Mongo.findOne _ _) as [u|]; [case_bool_decide; [done |] |];
    intros [= <-]; by right.
Qed.

Lemma through_gates_no_Throw (verifyIdToken : string → option decoded_token)
    (cap : capability) (usersCollection : list doc) (req : request) :
  through [verifyFirebaseToken verifyIdToken; gate cap usersCollection] req
    ≠ Throw.
Proof.
  rewrite through_gates.
  destruct (credential req) as [t|]; [| done].
  destruct (verifyIdToken t) as [d|]; [| done].
  rewrite (gate_cases cap usersCollection (set_decoded d req) d eq_refl).
  destruct (Mongo.findOne _ _) as [u|]; [by case_bool_decide | done].
Qed.

(** X2: [POST /agreements] behind its middleware always answers, and it
    leaves the store as it was unless the request carries a credential the
    identity provider accepts and the user record found for the token's
    email has the role [user]; a request turned away is answered 401 or
    403. *)
Theorem post_agreements_route_guarded
    (verifyIdToken : string → option decoded_token) (oid : N) (s : db)
    (req : request) :
  ∃ res s', post_agreements_route verifyIdToken oid s req = Some (res, s')
    ∧ ((∃ t d user, credential req = Some t ∧ verifyIdToken t = Some d
          ∧ Mongo.findOne (by_email d) (users s) = Some user
          ∧ user !! "role" = Some (VStr "user")
          ∧ (res, s') = post_agreements oid (set_decoded d req) s)
       ∨ (s' = s ∧ (status res = 401%nat ∨ status res = 403%nat))).
Proof.
  unfold post_agreements_route. rewrite route_through.
  change (verifyUser (users s)) with (gate CapUser (users s)).
  destruct (through _ req) as [req' | res |] eqn:Ht.
  - apply through_gates_Next in Ht as (t & d & u & Hc & Hv & Hu & Hr & ->).
    destruct (post_agreements oid (set_decoded d req) s) as [res s'] eqn:Hp.
    exists res, s'. split; [done |]. left. by exists t, d, u.
  - exists res, s. split; [done |]. right. split; [done |].
    by apply through_gates_Reply in Ht.
  - by apply through_gates_no_Throw in Ht.
Qed.

(** X3: [PATCH /agreements/:id] behind its middleware always answers, and
    it leaves the store as it was unless the request carries a credential
    the identity provider accepts and the user record found for the token's
    email has the role [admin]. *)
Theorem patch_agreement_route_guarded
    (verifyIdToken : string → option decoded_token)
    (isValid : string → bool) (ObjectId : string → N) (now : Z) (s : db)
    (req : request) :
  ∃ res s',
    patch_agreement_route verifyIdToken isValid ObjectId now s req
      = Some (res, s')
    ∧ ((∃ t d user, credential req = Some t ∧ verifyIdToken t = Some d
          ∧ Mongo.findOne (by_email d) (users s) = Some user
          ∧ user !! "role" = Some (VStr "admin")
          ∧ (res, s')
            = patch_agreement isValid ObjectId now (set_decoded d req) s)
       ∨ (s' = s ∧ (status res = 401%nat ∨ status res = 403%nat))).
Proof.
  unfold patch_agreement_route. rewrite route_through.
  change (verifyAdmin (users s)) with (gate CapAdmin (users s)).
  destruct (through _ req) as [req' | res |] eqn:Ht.
  - apply through_gates_Next in Ht as (t & d & u & Hc & Hv & Hu & Hr & ->).
    destruct (patch_agreement isValid ObjectId now (set_decoded d req) s)
      as [res s'] eqn:Hp.
    exists res, s'. split; [done |]. left. by exists t, d, u.
  - exists res, s. split; [done |]. right. split; [done |].
    by apply through_gates_Reply in Ht.
  - by apply through_gates_no_Throw in Ht.
Qed.

(** ** What the agreement calls keep *)

(** X4: a submission keeps the rule of one active agreement per email: when
    no two pending or approved agreements of the store are of one email
    before [POST /agreements], none are after it, whatever the body. *)
Theorem post_agreements_one_active (oid : N) (req : request) (s : db) :
  one_active_per_email (agreements s) →
  one_active_per_email (agreements (post_agreements oid req s).2).
Proof.
  intros Hone. rewrite post_agreements_cases.
  destruct (existingAgreement (body req) (agreements s)) eqn:He; [done |].
  destruct (memberUser (body req) s); [done |].
  destruct (Mongo.duplicate_key _ _); [done |]. simpl.
  apply existingAgreement_None in He.
  assert (∀ k x, agreements s !! k = Some x → active x →
            Mongo.bson (x !! "email")
            = Mongo.bson (Mongo.with_id oid (body req) !! "email") → False)
    as Hfresh.
  { intros k x Hk Hact Heq. apply He. exists x. split.
    - apply list_elem_of_lookup. by exists k.
    - split; [| exact Hact]. by rewrite with_id_lookup in Heq. }
  intros i j a b Hi Hj Ha Hb Hab.
  apply lookup_app_Some in Hi as [Hi | [Hli Hi]];
    apply lookup_app_Some in Hj as [Hj | [Hlj Hj]].
  - by apply (Hone i j a b).
  - apply list_lookup_singleton_Some in Hj as [_ <-].
    by destruct (Hfresh i a Hi Ha).
  - apply list_lookup_singleton_Some in Hi as [_ <-].
    by destruct (Hfresh j b Hj Hb).
  - apply list_lookup_singleton_Some in Hi as [Hi _].
    apply list_lookup_singleton_Some in Hj as [Hj _]. lia.
Qed.

Lemma post_agreements_one_active_witness :
  let s := {| users := [Sample.user "alice@x.io" "user"];
              agreements := [Sample.agreement 1 "bob@x.io" "B1" "101" "checked"];
              apartments := [] |} in
  let req := Sample.request_of ""
               (<["status" := VStr "pending"]>
                  (Sample.submission "alice@x.io" "B2" "7")) in
  one_active_per_email (agreements (post_agreements 9 req s).2).
Proof.
  intros s req. apply (post_agreements_one_active 9 req s).
  intros i j a b Hi Hj _ _ _.
  apply list_lookup_singleton_Some in Hi as [Hi _].
  apply list_lookup_singleton_Some in Hj as [Hj _]. lia.
Defined.

Section CallFacts.

Variable isValid : string → bool.
Variable ObjectId : string → N.

(** The users after a decision: as before, or with the role written into
    the first record of some email. *)
Lemma patch_agreement_users (now : Z) (req : request) (s : db) :
  users (patch_agreement isValid ObjectId now req s).2 = users s
  ∨ ∃ e, users (patch_agreement isValid ObjectId now req s).2
         = Mongo.updateOne [("email", Mongo.Eq e)] {["role" := VStr "member"]}
             (users s).
Proof.
  unfold patch_agreement, promote_owner.
  destruct (isValid (id req)); simpl; [| by left].
  case_bool_decide; [| by left].
  destruct (JS.to_boolean _); [right; by eexists | by left].
Qed.

Lemma patch_agreement_agreements (now : Z) (req : request) (s : db) :
  agreements (patch_agreement isValid ObjectId now req s).2 = agreements s
  ∨ agreements (patch_agreement isValid ObjectId now req s).2
    = Mongo.updateOne (filter_id ObjectId (id req))
        (updateFields now (body req)) (agreements s).
Proof.
  unfold patch_agreement. destruct (isValid (id req)); simpl; [by right | by left].
Qed.

(** X5: whatever the body, a decision adds and removes no document, writes
    no agreement field but [status] and [acceptedDate] and no user field
    but [role], changes at most one agreement and at most one user, and
    leaves the apartments alone. *)
Theorem patch_agreement_writes (now : Z) (req : request) (s : db) :
  let s' := (patch_agreement isValid ObjectId now req s).2 in
  length (agreements s') = length (agreements s)
  ∧ length (users s') = length (users s)
  ∧ apartments s' = apartments s
  ∧ (∀ i f, f ≠ "status" → f ≠ "acceptedDate" →
       (agreements s' !! i) ≫= (λ a : doc, a !! f)
       = (agreements s !! i) ≫= (λ a : doc, a !! f))
  ∧ (∀ i f, f ≠ "role" →
       (users s' !! i) ≫= (λ u : doc, u !! f)
       = (users s !! i) ≫= (λ u : doc, u !! f))
  ∧ (∃ i0, ∀ i, i ≠ i0 → agreements s' !! i = agreements s !! i)
  ∧ (∃ i0, ∀ i, i ≠ i0 → users s' !! i = users s !! i).
Proof.
  simpl.
  assert (apartments (patch_agreement isValid ObjectId now req s).2
          = apartments s) as Hap.
  { unfold patch_agreement. by destruct (isValid (id req)). }
  destruct (patch_agreement_agreements now req s) as [-> | ->];
    destruct (patch_agreement_users now req s) as [-> | [e ->]];
    rewrite ?updateOne_length;
    (split_and!; [done | done | done | | | |]);
    try done; try (by exists 0%nat); try apply updateOne_elsewhere.
  all: try (intros i f H1 H2; apply updateOne_field;
            by apply updateFields_other).
  all: intros i f H1; apply updateOne_field; by rewrite lookup_singleton_ne.
Qed.

(** One call keeps every agreement at its place, with its fields other
    than [status] and [acceptedDate]. *)
Lemma run_keeps (s : db) (c : call) (i : nat) (a : doc) (f : string) :
  f ≠ "status" → f ≠ "acceptedDate" →
  agreements s !! i = Some a →
  ∃ a', agreements (run isValid ObjectId s c) !! i = Some a' ∧ a' !! f = a !! f.
Proof.
  intros H1 H2 Hi. destruct c as [oid req | now req]; simpl.
  - rewrite post_agreements_cases.
    destruct (existingAgreement _ _); [by exists a |].
    destruct (memberUser _ _); [by exists a |].
    destruct (Mongo.duplicate_key _ _); [by exists a |]. simpl.
    exists a. split; [| done]. by apply lookup_app_l_Some.
  - destruct (patch_agreement_agreements now req s) as [-> | ->];
      [by exists a |].
    pose proof (updateOne_field (filter_id ObjectId (id req))
                  (updateFields now (body req)) (agreements s) i f
                  (updateFields_other now (body req) f H1 H2)) as E.
    rewrite Hi in E. simpl in E.
    destruct (Mongo.updateOne _ _ _ !! i) as [a'|] eqn:Ha'; [by exists a' |].
    apply lookup_ge_None in Ha'. rewrite updateOne_length in Ha'.
    apply lookup_lt_Some in Hi. lia.
Qed.

Lemma run_users_length (s : db) (c : call) :
  length (users (run isValid ObjectId s c)) = length (users s).
Proof.
  destruct c as [oid req | now req]; simpl.
  - rewrite post_agreements_cases.
    destruct (existingAgreement _ _); [done |].
    destruct (memberUser _ _); [done |].
    by destruct (Mongo.duplicate_key _ _).
  - destruct (patch_agreement_users now req s) as [-> | [e ->]]; [done |].
    apply updateOne_length.
Qed.

(** X6: submissions and decisions never delete, move or re-assign an
    agreement: after any sequence of them every agreement of the store is
    still at its position with its identifier, email and apartment (every
    field but [status] and [acceptedDate]), and the number of user records
    is as before. *)
Theorem run_all_keeps (cs : list call) (s : db) (i : nat) (a : doc) :
  agreements s !! i = Some a →
  length (users (run_all isValid ObjectId s cs)) = length (users s)
  ∧ ∃ a', agreements (run_all isValid ObjectId s cs) !! i = Some a'
          ∧ ∀ f, f ≠ "status" → f ≠ "acceptedDate" → a' !! f = a !! f.
Proof.
  revert s a. induction cs as [|c cs IH]; intros s a Hi; simpl.
  - split; [done |]. by exists a.
  - destruct (run_keeps s c i a "_id" ltac:(done) ltac:(done) Hi)
      as (a1 & Ha1 & _).
    destruct (IH (run isValid ObjectId s c) a1 Ha1) as (Hlen & a' & Ha' & Hf).
    split; [by rewrite Hlen, run_users_length |].
    exists a'. split; [done |]. intros f H1 H2. rewrite (Hf f H1 H2).
    destruct (run_keeps s c i a f H1 H2 Hi) as (a1' & Ha1' & <-).
    congruence.
Qed.

End CallFacts.

Lemma run_all_keeps_witness :
  let s := {| users := [Sample.user "alice@x.io" "user"];
              agreements := [Sample.agreement 1 "alice@x.io" "B1" "101" "pending"];
              apartments := [] |} in
  let cs := [Decide 1000 (Sample.request_of Sample.id1
                            {["status" := VStr "checked"; "role" := VStr "member"]});
             Submit 9 (Sample.request_of ""
                         (Sample.submission "bob@x.io" "B2" "7"))] in
  length (users (run_all Sample.isValid Sample.ObjectId s cs)) = 1%nat
  ∧ ∃ a', agreements (run_all Sample.isValid Sample.ObjectId s cs) !! 0%nat
          = Some a'
          ∧ ∀ f, f ≠ "status" → f ≠ "acceptedDate" →
                 a' !! f = Sample.agreement 1 "alice@x.io" "B1" "101" "pending" !! f.
Proof.
  intros s cs.
  exact (run_all_keeps Sample.isValid Sample.ObjectId cs s 0%nat
           (Sample.agreement 1 "alice@x.io" "B1" "101" "pending") eq_refl).
Defined.

(** ** Lookups of agreements *)

Section LookupFacts.

Variable isValid : string → bool.
Variable ObjectId : string → N.

(** X7: a submission can be read back: when the body carries no [_id], no
    stored agreement has the generated identifier, and the submission
    passes both conflict checks, [GET /agreements/:id] for that identifier
    answers 200 with the submitted body and its identifier. *)
Theorem post_then_get_agreement (oid : N) (req : request) (s : db) (i : string) :
  body req !! "_id" = None →
  (∀ a, a ∈ agreements s → a !! "_id" ≠ Some (VOid oid)) →
  existingAgreement (body req) (agreements s) = None →
  memberUser (body req) s = None →
  isValid i = true → ObjectId i = oid →
  get_agreement isValid ObjectId i (post_agreements oid req s).2
  = {| code := 200; sends := Document (<["_id" := VOid oid]> (body req)) |}.
Proof.
  intros Hid Hfresh He Hm Hv Ho. rewrite post_agreements_cases, He, Hm.
  assert (Mongo.duplicate_key (body req) (agreements s) = false) as ->
    by (unfold Mongo.duplicate_key; by rewrite Hid).
  unfold get_agreement. rewrite Hv. cbn [negb snd agreements].
  rewrite findOne_app.
  rewrite (proj2 (filter_id_None ObjectId i (agreements s)))
    by (rewrite Ho; exact Hfresh).
  unfold Mongo.with_id. rewrite Hid.
  assert (Mongo.matches (filter_id ObjectId i) (<["_id" := VOid oid]> (body req))
          = true) as Hmatch.
  { apply filter_id_matches. by rewrite lookup_insert_eq, Ho. }
  unfold Mongo.findOne. cbn [List.find]. by rewrite Hmatch.
Qed.

(** The review queue of [GET /agreements]. *)
Lemma get_agreements_queue (s : db) :
  get_agreements None s = {| code := 200; sends := Documents (pending_queue s) |}.
Proof. done. Qed.

Lemma pending_matches (a : doc) :
  Mongo.matches [("status", Mongo.Eq (VStr "pending"))] a
  = bool_decide (a !! "status" = Some (VStr "pending")).
Proof.
  simpl. unfold Mongo.holds, Mongo.field_is; simpl. rewrite andb_true_r.
  apply bool_decide_ext. apply bson_str.
Qed.

(** X9: a submission that passes both checks and brings no [_id] a stored
    agreement has joins the end of the review queue exactly when its body
    says [pending]; with any other status, or none, it is stored but never
    shown for review.  A submission whose [_id] is taken is not stored and
    leaves the queue as it was. *)
Theorem post_agreements_queue (oid : N) (req : request) (s : db) :
  existingAgreement (body req) (agreements s) = None →
  memberUser (body req) s = None →
  (no_duplicate_key (body req) (agreements s) →
     agreements (post_agreements oid req s).2
     = (agreements s ++ [Mongo.with_id oid (body req)])%list
     ∧ pending_queue (post_agreements oid req s).2
       = if bool_decide (body req !! "status" = Some (VStr "pending"))
         then (pending_queue s ++ [Mongo.with_id oid (body req)])%list
         else pending_queue s)
  ∧ (¬ no_duplicate_key (body req) (agreements s) →
     (post_agreements oid req s).2 = s).
Proof.
  intros He Hm. rewrite post_agreements_cases, He, Hm. split;
    [| intros Hk; destruct (Mongo.duplicate_key _ _) eqn:Hd;
       [done | by apply duplicate_key_false in Hd]].
  intros Hk. apply duplicate_key_false in Hk. rewrite Hk. split; [done |].
  unfold pending_queue. cbn [snd agreements]. rewrite find_app.
  unfold Mongo.find at 2. cbn [List.filter]. rewrite pending_matches.
  rewrite with_id_lookup by done.
  case_bool_decide; [done | by rewrite app_nil_r].
Qed.

(** X10: a decision takes a pending agreement out of the review queue when
    the status it writes is not [pending]: the queue is one shorter.  A
    decision that writes [pending] again leaves the queue as long as it
    was. *)
Theorem patch_agreement_queue (now : Z) (req : request) (s : db) (a : doc) :
  isValid (id req) = true →
  Mongo.findOne (filter_id ObjectId (id req)) (agreements s) = Some a →
  a !! "status" = Some (VStr "pending") →
  let s' := (patch_agreement isValid ObjectId now req s).2 in
  (length (pending_queue s')
   + (if bool_decide (JS.or_else (body req !! "status") (VStr "checked")
                      = VStr "pending") then 0 else 1)
   = length (pending_queue s))%nat.
Proof.
  intros Hv Hf Hs. simpl.
  destruct (patch_agreement_matched isValid ObjectId now req s a Hv Hf)
    as (i & Hi & _ & ->). simpl. unfold pending_queue, Mongo.find. simpl.
  pose proof (filter_insert_length
                (Mongo.matches [("status", Mongo.Eq (VStr "pending"))])
                (agreements s) i a (updateFields now (body req) ∪ a) Hi) as E.
  rewrite !pending_matches in E.
  rewrite (lookup_union_Some_l _ _ _ _ (updateFields_status now (body req)))
    in E.
  rewrite bool_decide_true in E by done.
  case_bool_decide as H1; case_bool_decide as H2; try lia; congruence.
Qed.

(** X11: after an approval the tenant finds the agreement: when a decision
    writes [checked] into the agreement it finds, that agreement has a
    non-empty email and the store held no approved agreement of that email,
    [GET /agreements?email=] for the email answers 200 with the agreement
    as decided. *)
Theorem patch_then_get_agreements (now : Z) (req : request) (s : db) (a : doc)
    (e : string) :
  isValid (id req) = true →
  Mongo.findOne (filter_id ObjectId (id req)) (agreements s) = Some a →
  a !! "email" = Some (VStr e) → e ≠ "" →
  JS.or_else (body req !! "status") (VStr "checked") = VStr "checked" →
  (∀ b, b ∈ agreements s → b !! "email" = Some (VStr e) →
        b !! "status" ≠ Some (VStr "checked")) →
  get_agreements (Some e) (patch_agreement isValid ObjectId now req s).2
  = {| code := 200;
       sends := Document (updateFields now (body req) ∪ a) |}.
Proof.
  intros Hv Hf He Hne Hst Hnone.
  destruct (patch_agreement_matched isValid ObjectId now req s a Hv Hf)
    as (i & Hi & _ & ->). simpl.
  unfold get_agreements. simpl.
  destruct (String.eqb_spec e "") as [-> | _]; [done |]. simpl.
  set (q := [("email", Mongo.Eq (VStr e)); ("status", Mongo.Eq (VStr "checked"))]).
  assert (∀ x : doc, Mongo.matches q x = true
            ↔ x !! "email" = Some (VStr e) ∧ x !! "status" = Some (VStr "checked"))
    as Hq.
  { intros x. subst q. simpl. unfold Mongo.holds, Mongo.field_is; simpl.
    rewrite !andb_true_iff, !bool_decide_eq_true, !bson_str. tauto. }
  rewrite (findOne_at q _ i (updateFields now (body req) ∪ a)); [done | | |].
  - apply list_lookup_insert_eq. by apply lookup_lt_Some in Hi.
  - apply Hq. split.
    + rewrite lookup_union_r by (by apply updateFields_other). done.
    + apply lookup_union_Some_l. by rewrite updateFields_status, Hst.
  - intros k x Hk Hx. rewrite list_lookup_insert_ne in Hx by lia.
    apply not_true_is_false. rewrite Hq. intros [H1 H2].
    apply (Hnone x); [| done | done].
    apply list_elem_of_lookup. by exists k.
Qed.

End LookupFacts.

Lemma post_then_get_agreement_witness :
  let s := {| users := [Sample.user "alice@x.io" "user"];
              agreements := [Sample.agreement 1 "bob@x.io" "B1" "101" "checked"];
              apartments := [] |} in
  let b := <["status" := VStr "pending"]>
             (Sample.submission "alice@x.io" "B2" "7") in
  get_agreement Sample.isValid Sample.ObjectId Sample.id9
    (post_agreements 9 (Sample.request_of "" b) s).2
  = {| code := 200; sends := Document (<["_id" := VOid 9]> b) |}.
Proof.
  intros s b.
  apply (post_then_get_agreement Sample.isValid Sample.ObjectId 9
           (Sample.request_of "" b) s Sample.id9);
    try (vm_compute; reflexivity).
  apply filter_id_None with (ObjectId := Sample.ObjectId) (i := Sample.id9).
  vm_compute. reflexivity.
Defined.

Lemma post_agreements_queue_witness :
  let s := {| users := [Sample.user "alice@x.io" "user"];
              agreements := [Sample.agreement 1 "bob@x.io" "B1" "101" "pending"];
              apartments := [] |} in
  let b := <["status" := VStr "pending"]>
             (Sample.submission "alice@x.io" "B2" "7") in
  pending_queue (post_agreements 9 (Sample.request_of "" b) s).2
  = [Sample.agreement 1 "bob@x.io" "B1" "101" "pending"; Mongo.with_id 9 b].
Proof.
  intros s b.
  refine (proj2 (proj1 (post_agreements_queue 9 (Sample.request_of "" b) s
                          eq_refl eq_refl) _)).
  apply duplicate_key_false. vm_compute. reflexivity.
Defined.

Lemma patch_agreement_queue_witness :
  let s := {| users := [Sample.user "alice@x.io" "user"];
              agreements := [Sample.agreement 1 "alice@x.io" "B1" "101" "pending"];
              apartments := [] |} in
  let req := Sample.request_of Sample.id1 {["status" := VStr "rejected"]} in
  (length (pending_queue
             (patch_agreement Sample.isValid Sample.ObjectId 1000 req s).2) + 1
   = 1)%nat.
Proof.
  intros s req.
  exact (patch_agreement_queue Sample.isValid Sample.ObjectId 1000 req s
           (Sample.agreement 1 "alice@x.io" "B1" "101" "pending")
           eq_refl eq_refl eq_refl).
Defined.

Lemma patch_then_get_agreements_witness :
  let s := {| users := [Sample.user "alice@x.io" "user"];
              agreements := [Sample.agreement 1 "alice@x.io" "B1" "101" "pending"];
              apartments := [] |} in
  let req := Sample.request_of Sample.id1 {["role" := VStr "member"]} in
  ∃ a', get_agreements (Some "alice@x.io")
          (patch_agreement Sample.isValid Sample.ObjectId 1000 req s).2
        = {| code := 200; sends := Document a' |}
        ∧ a' !! "status" = Some (VStr "checked").
Proof.
  intros s req. eexists. split.
  - apply (patch_then_get_agreements Sample.isValid Sample.ObjectId 1000 req s
             (Sample.agreement 1 "alice@x.io" "B1" "101" "pending")
             "alice@x.io"); try done.
    intros b Hb _. apply list_elem_of_singleton in Hb as ->.
    vm_compute. discriminate.
  - vm_compute. reflexivity.
Defined.

(** ** Users *)

Lemma email_matches (v : value) (u : doc) :
  Mongo.matches [("email", Mongo.Eq v)] u = true ↔ Mongo.bson (u !! "email") = v.
Proof.
  simpl. unfold Mongo.holds, Mongo.field_is; simpl.
  by rewrite andb_true_r, bool_decide_eq_true.
Qed.

(** The record a gate reads is the principal's. *)
Lemma findOne_record_of (d : decoded_token) (usersCollection : list doc)
    (user : doc) :
  Mongo.findOne (by_email d) usersCollection = Some user
  ↔ record_of d usersCollection user.
Proof.
  unfold record_of, by_email. split.
  - intros Hf. destruct (findOne_first _ _ _ Hf) as (i & Hi & Hlt).
    exists i. split_and!; [done | |].
    + apply email_matches. by apply (findOne_Some _ _ _ Hf).
    + intros k x Hk Hx Heq. apply email_matches in Heq.
      rewrite (Hlt k x Hk Hx) in Heq. discriminate.
  - intros (i & Hi & He & Hlt).
    apply (findOne_at _ _ i); [done | by apply email_matches |].
    intros k x Hk Hx. destruct (Mongo.matches _ x) eqn:Hm; [| done].
    apply email_matches in Hm. by destruct (Hlt k x Hk Hx).
Qed.

(** C5: a role gate lets a verified principal through exactly when the
    principal's own record (the first user record, in insertion order,
    whose email is the email of the verified token) has the role the gate
    is named after: [user] for [verifyUser], [member] for [verifyMember],
    [admin] for [verifyAdmin].  Every other principal is answered 403 with
    the gate's message.  Roles are not ordered: a principal whose record
    says [admin] is answered 403 by the user gate and by the member gate. *)
Theorem role_gate_exact (usersCollection : list doc) (req : request)
    (d : decoded_token) :
  decoded req = Some d →
  let denied m := Reply {| status := 403; sent := Message m |} in
  (verifyUser usersCollection req = Next req ↔
     ∃ user, record_of d usersCollection user
             ∧ user !! "role" = Some (VStr "user"))
  ∧ (verifyMember usersCollection req = Next req ↔
     ∃ user, record_of d usersCollection user
             ∧ user !! "role" = Some (VStr "member"))
  ∧ (verifyAdmin usersCollection req = Next req ↔
     ∃ user, record_of d usersCollection user
             ∧ user !! "role" = Some (VStr "admin"))
  ∧ (verifyUser usersCollection req ≠ Next req →
     verifyUser usersCollection req = denied "Only users can access this route")
  ∧ (verifyMember usersCollection req ≠ Next req →
     verifyMember usersCollection req
     = denied "Only members can access this route")
  ∧ (verifyAdmin usersCollection req ≠ Next req →
     verifyAdmin usersCollection req = denied "Forbidden Access")
  ∧ (∀ user, record_of d usersCollection user →
       user !! "role" = Some (VStr "admin") →
       verifyUser usersCollection req
       = denied "Only users can access this route"
       ∧ verifyMember usersCollection req
         = denied "Only members can access this route").
Proof.
  intros Hd denied.
  assert (∀ r : string,
    (∃ user, Mongo.findOne (by_email d) usersCollection = Some user
             ∧ user !! "role" = Some (VStr r))
    ↔ ∃ user, record_of d usersCollection user
              ∧ user !! "role" = Some (VStr r)) as Hrec.
  { intros r. split; intros (u & Hu & Hr); exists u;
      (split; [by apply findOne_record_of | done]). }
  unfold verifyUser, verifyMember, verifyAdmin, denied. rewrite Hd.
  split_and!.
  - rewrite <- Hrec. destruct (Mongo.findOne _ _) as [u|].
    + case_bool_decide as Hr.
      * split; [intros _; by exists u | done].
      * split; [done | intros (? & [= <-] & ?); done].
    + split; [done | by intros (? & ? & _)].
  - rewrite <- Hrec. destruct (Mongo.findOne _ _) as [u|].
    + case_bool_decide as Hr.
      * split; [intros _; by exists u | done].
      * split; [done | intros (? & [= <-] & ?); done].
    + split; [done | by intros (? & ? & _)].
  - rewrite <- Hrec. destruct (Mongo.findOne _ _) as [u|].
    + case_bool_decide as Hr.
      * split; [intros _; by exists u | done].
      * split; [done | intros (? & [= <-] & ?); done].
    + split; [done | by intros (? & ? & _)].
  - destruct (Mongo.findOne _ _) as [u|]; [| done]. by case_bool_decide.
  - destruct (Mongo.findOne _ _) as [u|]; [| done]. by case_bool_decide.
  - destruct (Mongo.findOne _ _) as [u|]; [| done]. by case_bool_decide.
  - intros u Hu Hr. apply findOne_record_of in Hu. rewrite Hu, Hr.
    by rewrite !bool_decide_false by done.
Qed.

(** The gates at a sample store of two records where the principal is
    [root], an admin listed second: the admin gate lets [root] through, the
    user and the member gate answer 403. *)
Lemma role_gate_exact_witness :
  let usersCollection :=
    [Sample.user "alice@x.io" "user"; Sample.user "root@x.io" "admin"] in
  let req :=
    {| authorization := Some "Bearer tok-root"; id := ""; body := ∅;
       decoded := Some {| email := Some "root@x.io" |} |} in
  verifyAdmin usersCollection req = Next req
  ∧ verifyUser usersCollection req
    = Reply {| status := 403;
               sent := Message "Only users can access this route" |}
  ∧ verifyMember usersCollection req
    = Reply {| status := 403;
               sent := Message "Only members can access this route" |}.
Proof.
  intros usersCollection req.
  pose proof (role_gate_exact usersCollection req
                {| email := Some "root@x.io" |} eq_refl) as H.
  cbv zeta in H. destruct H as (_ & _ & Hadmin & _ & _ & _ & Hother).
  assert (record_of {| email := Some "root@x.io" |} usersCollection
            (Sample.user "root@x.io" "admin")) as Hrec.
  { exists 1%nat. split_and!; [done | by vm_compute |].
    intros [|k] x Hk Hx; [| lia]. injection Hx as <-. vm_compute. discriminate. }
  split.
  - apply Hadmin. exists (Sample.user "root@x.io" "admin").
    split; [exact Hrec | by vm_compute].
  - apply (Hother (Sample.user "root@x.io" "admin") Hrec). by vm_compute.
Defined.

(** X12: the role endpoint reports what the gates check: for a principal
    with a non-empty email, a role gate lets the principal through exactly
    when [GET /users/:email/role] answers 200 with the role the gate is
    named after. *)
Theorem role_endpoint_agrees (cap : capability) (s : db) (req : request)
    (e : string) :
  e ≠ "" → decoded req = Some {| email := Some e |} →
  gate cap (users s) req = Next req
  ↔ get_user_role e s
    = {| code := 200; sends := RoleOf (Some (VStr (role_name cap))) |}.
Proof.
  intros He Hd. rewrite (gate_cases cap (users s) req _ Hd).
  unfold get_user_role, by_email. simpl.
  destruct (String.eqb_spec e "") as [-> | _]; [done |].
  destruct (Mongo.findOne _ _) as [u|]; [| done].
  case_bool_decide as Hr.
  - rewrite Hr. done.
  - split; [done |]. intros [= H]. done.
Qed.

Lemma role_endpoint_agrees_witness :
  let s := {| users := [Sample.user "alice@x.io" "user";
                        Sample.user "root@x.io" "admin"];
              agreements := []; apartments := [] |} in
  let req := {| authorization := None; id := ""; body := ∅;
                decoded := Some {| email := Some "root@x.io" |} |} in
  gate CapAdmin (users s) req = Next req.
Proof.
  intros s req.
  apply (role_endpoint_agrees CapAdmin s req "root@x.io"); [done | done |].
  vm_compute. reflexivity.
Defined.

(** The outcomes of [POST /users]. *)
Lemma post_users_cases (oid : N) (b : doc) (s : db) :
  post_users oid b s =
    match Mongo.findOne [("email", Mongo.Eq (Mongo.bson (b !! "email")))]
            (users s) with
    | Some _ => (Some (say 200 "User already exists"), s)
    | None =>
        if Mongo.duplicate_key b (users s) then (None, s)
        else
          (Some {| code := 200;
                   sends := Json (Inserted
                              (Mongo.bson (Mongo.with_id oid b !! "_id"))) |},
           {| users := (users s ++ [Mongo.with_id oid b])%list;
              agreements := agreements s;
              apartments := apartments s |})
    end.
Proof.
  unfold post_users, Mongo.insertOne. destruct (Mongo.findOne _ _); [done |].
  by destruct (Mongo.duplicate_key _ _).
Qed.

(** X13: creating a user is idempotent: after a [POST /users] that the
    handler answered, a second [POST /users] for the same email answers
    that the user exists and leaves the store as the first call left it.
    The handler answers unless the insert throws, which it does, storing
    nothing, exactly when the email is new and the body brings an [_id]
    that a stored user has. *)
Theorem post_users_again (oid oid' : N) (b b' : doc) (s : db) :
  Mongo.bson (b' !! "email") = Mongo.bson (b !! "email") →
  ((post_users oid b s).1 ≠ None →
     post_users oid' b' (post_users oid b s).2
     = (Some (say 200 "User already exists"), (post_users oid b s).2))
  ∧ ((post_users oid b s).1 = None ↔
       Mongo.findOne [("email", Mongo.Eq (Mongo.bson (b !! "email")))] (users s)
       = None
       ∧ ¬ no_duplicate_key b (users s))
  ∧ ((post_users oid b s).1 = None → (post_users oid b s).2 = s).
Proof.
  intros Hb. rewrite (post_users_cases oid b s).
  destruct (Mongo.findOne [("email", Mongo.Eq (Mongo.bson (b !! "email")))]
              (users s)) as [u|] eqn:Hu.
  - cbn [fst snd]. split_and!; [| split; [done | by intros [? _]] | done].
    intros _. by rewrite post_users_cases, Hb, Hu.
  - destruct (Mongo.duplicate_key b (users s)) eqn:Hk; cbn [fst snd].
    + split_and!; [done | | done]. split; [| done]. intros _.
      split; [done |]. rewrite <- duplicate_key_false. congruence.
    + split_and!; [| split; [done |] | done].
      * intros _. rewrite post_users_cases. cbn [users].
        rewrite Hb, findOne_app, Hu.
        assert (Mongo.matches [("email", Mongo.Eq (Mongo.bson (b !! "email")))]
                  (Mongo.with_id oid b) = true) as Hm.
        { apply email_matches. by rewrite with_id_lookup. }
        unfold Mongo.findOne. cbn [List.find]. by rewrite Hm.
      * intros [_ Hn]. destruct Hn. by apply duplicate_key_false.
Qed.

Lemma post_users_again_witness :
  let s := {| users := [<["_id" := VStr "u1"]> (Sample.user "bob@x.io" "user")];
              agreements := []; apartments := [] |} in
  let b := Sample.user "alice@x.io" "user" in
  post_users 8 (Sample.user "alice@x.io" "admin") (post_users 7 b s).2
  = (Some (say 200 "User already exists"), (post_users 7 b s).2)
  ∧ post_users 7 (<["_id" := VStr "u1"]> b) s = (None, s).
Proof.
  intros s b. split.
  - apply (post_users_again 7 8 b (Sample.user "alice@x.io" "admin") s).
    + vm_compute. reflexivity.
    + vm_compute. discriminate.
  - vm_compute. reflexivity.
Defined.

Section UserFacts.

Variable isValid : string → bool.
Variable ObjectId : string → N.

(** X14: the writes to the users collection keep emails unique: when no
    two user records share an email, none do after [POST /users], after
    [PATCH /users/:id], or after the promotion of
    [PATCH /agreements/:id]. *)
Theorem user_emails_stay_unique (s : db) :
  unique_on "email" (users s) →
  (∀ oid b, unique_on "email" (users (post_users oid b s).2))
  ∧ (∀ i b r s', patch_user isValid ObjectId i b s = Some (r, s') →
       unique_on "email" (users s'))
  ∧ (∀ now req,
       unique_on "email" (users (patch_agreement isValid ObjectId now req s).2)).
Proof.
  intros Hu. split_and!.
  - intros oid b. unfold post_users.
    destruct (Mongo.findOne _ _) eqn:Hf; [done |].
    destruct (Mongo.insertOne oid b (users s)) as [c'|] eqn:Hins; [| done].
    cbn [snd users]. by apply (unique_on_insertOne "email" oid (users s) c' b).
  - intros i b r s'. unfold patch_user.
    destruct (isValid i); [| done]. intros [= _ <-]. cbn [users].
    apply unique_on_updateOne; [| done]. by rewrite lookup_singleton_ne.
  - intros now req.
    destruct (patch_agreement_users isValid ObjectId now req s)
      as [-> | [e ->]]; [done |].
    apply unique_on_updateOne; [| done]. by rewrite lookup_singleton_ne.
Qed.

(** The members as the stats count them and as the listing selects them. *)
Lemma find_members (c : list doc) :
  Mongo.find [("role", Mongo.Eq (VStr "member"))] c = List.filter is_member c.
Proof.
  unfold Mongo.find. apply List.filter_ext. intros u. unfold is_member.
  simpl. unfold Mongo.holds, Mongo.field_is; simpl. rewrite andb_true_r.
  apply bool_decide_ext. apply bson_str.
Qed.

(** X15: the user statistics and the member listing agree: the
    [totalMembers] of [GET /users/stats] is the number of records
    [GET /users?role=member] lists, those are the records whose role is
    exactly [member], and [totalMembers] never exceeds [totalUsers]. *)
Theorem users_stats_members (s : db) :
  ∃ total members ds,
    get_users_stats s = {| code := 200; sends := UserStats total members |}
    ∧ get_users (Some "member") s = {| code := 200; sends := Documents ds |}
    ∧ total = length (users s)
    ∧ members = length ds
    ∧ (members ≤ total)%nat
    ∧ ∀ u, u ∈ ds ↔ u ∈ users s ∧ u !! "role" = Some (VStr "member").
Proof.
  exists (length (users s)), (length (List.filter is_member (users s))),
    (List.filter is_member (users s)).
  split_and!; try done.
  - unfold get_users. simpl. by rewrite <- find_members.
  - apply filter_length_le.
  - intros u. rewrite !list_elem_of_In, filter_In. unfold is_member.
    by rewrite bool_decide_eq_true.
Qed.

(** X16: a role written by [PATCH /users/:id] is the role the gates see:
    when the record with that identifier is the one found for a
    principal's email, a role gate lets the principal through afterwards
    exactly when the body's role is the gate's own; a body without a role
    locks the user out of every gate. *)
Theorem patch_user_then_gate (cap : capability) (i : string) (b : doc) (s : db)
    (u : doc) (d : decoded_token) (req : request) :
  isValid i = true →
  Mongo.findOne (filter_id ObjectId i) (users s) = Some u →
  Mongo.findOne (by_email d) (users s) = Some u →
  decoded req = Some d →
  ∃ r s', patch_user isValid ObjectId i b s = Some (r, s')
    ∧ (gate cap (users s') req = Next req
       ↔ b !! "role" = Some (VStr (role_name cap))).
Proof.
  intros Hv Hid Hem Hd. unfold patch_user. rewrite Hv. cbn [negb].
  eexists _, _. split; [reflexivity |]. cbn [users].
  set (upd := ({["role" := Mongo.bson (b !! "role")]} : doc)).
  destruct (updateOne_first _ upd _ _ Hid) as (i0 & Hi0 & Hlt0 & ->).
  destruct (findOne_first _ _ _ Hem) as (j & Hj & Hltj).
  apply findOne_Some in Hid as [_ Hmid]. apply findOne_Some in Hem as [_ Hmem].
  assert (j = i0) as ->.
  { destruct (Nat.lt_trichotomy j i0) as [Hlt | [-> | Hlt]]; [| done |].
    - rewrite (Hlt0 j u Hlt Hj) in Hmid. discriminate.
    - rewrite (Hltj i0 u Hlt Hi0) in Hmem. discriminate. }
  assert (Mongo.findOne (by_email d) (<[i0 := upd ∪ u]> (users s))
          = Some (upd ∪ u)) as Hfound.
  { apply (findOne_at _ _ i0).
    - apply list_lookup_insert_eq. by apply lookup_lt_Some in Hi0.
    - unfold by_email in *. apply email_matches.
      rewrite lookup_union_r by (by subst upd; rewrite lookup_singleton_ne).
      by apply email_matches.
    - intros k x Hk Hx. rewrite list_lookup_insert_ne in Hx by lia.
      by apply (Hltj k). }
  rewrite (gate_cases cap _ req d Hd), Hfound.
  assert ((upd ∪ u) !! "role" = Some (Mongo.bson (b !! "role"))) as ->.
  { apply lookup_union_Some_l. subst upd. apply lookup_singleton_eq. }
  case_bool_decide as Hr.
  - split; [intros _ | done]. injection Hr as Hr. by apply bson_str.
  - split; [done |]. intros Hb. destruct Hr. by rewrite Hb.
Qed.

(** X17: a promotion shows in the user statistics: when a decision with
    the role [member] finds an agreement with a non-empty email and a user
    record for it, [totalMembers] grows by one if that user was no member
    and stays if the user was one; [totalUsers] stays. *)
Theorem promotion_in_stats (now : Z) (req : request) (s : db) (a u : doc) :
  isValid (id req) = true →
  Mongo.findOne (filter_id ObjectId (id req)) (agreements s) = Some a →
  body req !! "role" = Some (VStr "member") →
  JS.to_boolean (a !! "email") = true →
  Mongo.findOne [("email", Mongo.Eq (Mongo.bson (a !! "email")))] (users s)
    = Some u →
  get_users_stats (patch_agreement isValid ObjectId now req s).2
  = {| code := 200;
       sends := UserStats (length (users s))
                  (length (List.filter is_member (users s))
                   + (if is_member u then 0 else 1)) |}.
Proof.
  intros Hv Hf Hrole He Hu.
  destruct (patch_agreement_matched isValid ObjectId now req s a Hv Hf)
    as (i & Hi & _ & ->). cbn [snd].
  unfold get_users_stats. cbn [users]. rewrite bool_decide_true by done.
  rewrite He. cbn [andb].
  destruct (updateOne_first _ ({["role" := VStr "member"]} : doc) _ _ Hu)
    as (j & Hj & _ & ->).
  rewrite length_insert. f_equal. f_equal.
  pose proof (filter_insert_length is_member (users s) j u
                ({["role" := VStr "member"]} ∪ u) Hj) as E.
  assert (is_member ({["role" := VStr "member"]} ∪ u) = true) as Hm.
  { unfold is_member. apply bool_decide_eq_true.
    apply lookup_union_Some_l. apply lookup_singleton_eq. }
  rewrite Hm in E. fold is_member. destruct (is_member u); lia.
Qed.

End UserFacts.

Lemma user_emails_stay_unique_witness :
  let s := {| users := [Sample.user "alice@x.io" "user"];
              agreements := []; apartments := [] |} in
  unique_on "email"
    (users (post_users 7 (Sample.user "bob@x.io" "user") s).2).
Proof.
  intros s.
  apply (user_emails_stay_unique Sample.isValid Sample.ObjectId s).
  intros i j a b Hi Hj _.
  apply list_lookup_singleton_Some in Hi as [Hi _].
  apply list_lookup_singleton_Some in Hj as [Hj _]. lia.
Defined.

Lemma patch_user_then_gate_witness :
  let u := <["_id" := VOid 1]> (Sample.user "alice@x.io" "user") in
  let s := {| users := [u]; agreements := []; apartments := [] |} in
  let req := Sample.request_of "" ∅ in
  ∃ r s', patch_user Sample.isValid Sample.ObjectId Sample.id1
            {["role" := VStr "admin"]} s = Some (r, s')
    ∧ gate CapAdmin (users s') req = Next req.
Proof.
  intros u s req.
  destruct (patch_user_then_gate Sample.isValid Sample.ObjectId CapAdmin
              Sample.id1 {["role" := VStr "admin"]} s u
              {| email := Some "alice@x.io" |} req
              eq_refl eq_refl eq_refl eq_refl) as (r & s' & Hp & Hg).
  exists r, s'. split; [exact Hp |]. apply Hg. vm_compute. reflexivity.
Defined.

Lemma promotion_in_stats_witness :
  let s := {| users := [Sample.user "alice@x.io" "user"];
              agreements := [Sample.agreement 1 "alice@x.io" "B1" "101" "pending"];
              apartments := [] |} in
  let req := Sample.request_of Sample.id1 {["role" := VStr "member"]} in
  get_users_stats (patch_agreement Sample.isValid Sample.ObjectId 1000 req s).2
  = {| code := 200; sends := UserStats 1 1 |}.
Proof.
  intros s req.
  exact (promotion_in_stats Sample.isValid Sample.ObjectId 1000 req s
           (Sample.agreement 1 "alice@x.io" "B1" "101" "pending")
           (Sample.user "alice@x.io" "user")
           eq_refl eq_refl eq_refl eq_refl eq_refl).
Defined.

(** ** Coupons and payments *)

Section CouponFacts.

Variable isValid : string → bool.
Variable ObjectId : string → N.
Variable Number : value → value.

(** The fields of a new coupon. *)
Lemma newCoupon_lookup (now : Z) (b : doc) :
  let newCoupon : doc :=
    {["code" := Mongo.bson (b !! "code");
      "discount" := Number (Mongo.bson (b !! "discount"));
      "description" := Mongo.bson (b !! "description");
      "status" := JS.or_else (b !! "status") (VStr "available");
      "createdAt" := VDate now]} in
  newCoupon !! "code" = Some (Mongo.bson (b !! "code"))
  ∧ newCoupon !! "status"
    = Some (JS.or_else (b !! "status") (VStr "available"))
  ∧ newCoupon !! "createdAt" = Some (VDate now)
  ∧ ∀ f, f ≠ "code" → f ≠ "discount" → f ≠ "description" → f ≠ "status" →
         f ≠ "createdAt" → newCoupon !! f = None.
Proof.
  simpl. split_and!.
  - apply lookup_insert_eq.
  - rewrite !lookup_insert_ne by done. apply lookup_insert_eq.
  - rewrite !lookup_insert_ne by done. apply lookup_singleton_eq.
  - intros f H1 H2 H3 H4 H5. rewrite !lookup_insert_ne by done.
    by apply lookup_singleton_ne.
Qed.

(** The three outcomes of [POST /coupons]. *)
Lemma post_coupons_cases (oid : N) (now : Z) (b : doc) (c : list doc) :
  post_coupons Number oid now b c =
    if negb (JS.to_boolean (b !! "code"))
       || negb (JS.to_boolean (b !! "discount"))
       || negb (JS.to_boolean (b !! "description"))
    then (say 400 "All fields are required", c)
    else
      match Mongo.findOne [("code", Mongo.Eq (Mongo.bson (b !! "code")))] c with
      | Some _ => (say 400 "Coupon code already exists", c)
      | None =>
          let newCoupon : doc :=
            {["code" := Mongo.bson (b !! "code");
              "discount" := Number (Mongo.bson (b !! "discount"));
              "description" := Mongo.bson (b !! "description");
              "status" := JS.or_else (b !! "status") (VStr "available");
              "createdAt" := VDate now]} in
          ({| code := 200;
              sends := Json (Inserted
                         (Mongo.bson (Mongo.with_id oid newCoupon !! "_id"))) |},
           (c ++ [Mongo.with_id oid newCoupon])%list)
      end.
Proof. reflexivity. Qed.

(** X18: coupon codes stay unique, and a coupon is built from named fields
    only: after [POST /coupons] the collection is as before (a 400 answer)
    or longer by one coupon that has the body's code, the body's status or
    [available] when that is missing or falsy, the creation time, and no
    field besides code, discount, description, status, createdAt and the
    identifier; when no two coupons shared a code before, none do after. *)
Theorem post_coupons_unique (oid : N) (now : Z) (b : doc)
    (couponsCollection : list doc) :
  let r := post_coupons Number oid now b couponsCollection in
  (r.2 = couponsCollection ∧ code r.1 = 400%nat
   ∨ ∃ d, r.2 = (couponsCollection ++ [d])%list ∧ code r.1 = 200%nat
          ∧ d !! "code" = b !! "code"
          ∧ JS.to_boolean (d !! "code") = true
          ∧ d !! "status" = Some (JS.or_else (b !! "status") (VStr "available"))
          ∧ d !! "createdAt" = Some (VDate now)
          ∧ ∀ f, f ≠ "_id" → f ≠ "code" → f ≠ "discount" →
                 f ≠ "description" → f ≠ "status" → f ≠ "createdAt" →
                 d !! f = None)
  ∧ (unique_on "code" couponsCollection → unique_on "code" r.2).
Proof.
  intros r. subst r. rewrite post_coupons_cases.
  destruct (negb (JS.to_boolean (b !! "code"))
            || negb (JS.to_boolean (b !! "discount"))
            || negb (JS.to_boolean (b !! "description"))) eqn:Hreq;
    [split; [by left | done] |].
  destruct (Mongo.findOne [("code", Mongo.Eq (Mongo.bson (b !! "code")))]
              couponsCollection) eqn:Hf; [split; [by left | done] |].
  destruct (newCoupon_lookup now b) as (Hc & Hs & Hd & Ho).
  cbv zeta in *.
  set (newCoupon := ({["code" := Mongo.bson (b !! "code");
            "discount" := Number (Mongo.bson (b !! "discount"));
            "description" := Mongo.bson (b !! "description");
            "status" := JS.or_else (b !! "status") (VStr "available");
            "createdAt" := VDate now]} : doc)) in *.
  assert (JS.to_boolean (b !! "code") = true) as Htc.
  { apply orb_false_iff in Hreq as [Hreq _].
    apply orb_false_iff in Hreq as [Hreq _]. by apply negb_false_iff. }
  assert (b !! "code" = Some (Mongo.bson (b !! "code"))) as Hcode.
  { destruct (b !! "code"); [done | discriminate]. }
  cbn [fst snd code]. split.
  - right. exists (Mongo.with_id oid newCoupon).
    rewrite !with_id_lookup by done. rewrite Hc, Hs, Hd, <- Hcode.
    split_and!; try done.
    intros f H0 H1 H2 H3 H4 H5. rewrite with_id_lookup by done. by apply Ho.
  - intros Hu.
    apply (unique_on_insertOne "code" oid couponsCollection _ newCoupon);
      [done | done | by rewrite Hc |].
    apply insertOne_Some. split; [| done].
    unfold Mongo.duplicate_key. by rewrite (Ho "_id").
Qed.

(** A write that modifies nothing leaves the collection as it was. *)
Lemma updateOne_unmodified (q : Mongo.query) (upd : doc) (c : list doc) :
  modifiedCount q upd c = 0%nat → Mongo.updateOne q upd c = c.
Proof.
  unfold modifiedCount. destruct (Mongo.findOne q c) as [d|] eqn:Hf.
  - case_bool_decide as He; [| done]. intros _.
    destruct (updateOne_at q upd c d Hf) as (i & Hi & ->).
    rewrite He. by apply list_insert_id.
  - intros _. by apply updateOne_no_match.
Qed.

(** The outcomes of [PATCH /coupons/:id/status]. *)
Lemma patch_coupon_status_cases (i : string) (b : doc) (c : list doc) :
  patch_coupon_status isValid ObjectId i b c =
    if negb (bool_decide (b !! "status" = Some (VStr "available"))
             || bool_decide (b !! "status" = Some (VStr "unavailable")))
    then (say 400 "Invalid status", c)
    else if negb (isValid i)
    then (say 500 "Failed to update coupon status", c)
    else if (modifiedCount (filter_id ObjectId i)
               {["status" := Mongo.bson (b !! "status")]} c =? 0)%nat
    then (say 404 "Coupon not found or status unchanged",
          Mongo.updateOne (filter_id ObjectId i)
            {["status" := Mongo.bson (b !! "status")]} c)
    else (say 200 "Status updated successfully",
          Mongo.updateOne (filter_id ObjectId i)
            {["status" := Mongo.bson (b !! "status")]} c).
Proof. reflexivity. Qed.

(** X19: [PATCH /coupons/:id/status] changes the collection only when it
    answers 200, and it is not repeatable: the same request sent again
    after a 200 answers 404 and leaves the collection as the first call
    left it. *)
Theorem patch_coupon_status_again (i : string) (b : doc)
    (couponsCollection : list doc) :
  let r := patch_coupon_status isValid ObjectId i b couponsCollection in
  (code r.1 ≠ 200%nat → r.2 = couponsCollection)
  ∧ (code r.1 = 200%nat →
       patch_coupon_status isValid ObjectId i b r.2
       = (say 404 "Coupon not found or status unchanged", r.2)).
Proof.
  intros r. subst r. rewrite !patch_coupon_status_cases.
  destruct (negb (bool_decide (b !! "status" = Some (VStr "available"))
                  || bool_decide (b !! "status" = Some (VStr "unavailable"))));
    [done |].
  destruct (isValid i); [| done]. cbn [negb].
  set (q := filter_id ObjectId i).
  set (upd := ({["status" := Mongo.bson (b !! "status")]} : doc)).
  destruct (modifiedCount q upd couponsCollection =? 0)%nat eqn:Hm.
  - apply Nat.eqb_eq in Hm. cbn [fst snd code]. split; [| done].
    intros _. by apply updateOne_unmodified.
  - cbn [fst snd code]. split; [done |]. intros _.
    apply Nat.eqb_neq in Hm. unfold modifiedCount in Hm.
    destruct (Mongo.findOne q couponsCollection) as [d|] eqn:Hf; [| done].
    assert (Mongo.findOne q (Mongo.updateOne q upd couponsCollection)
            = Some (upd ∪ d)) as Hagain.
    { apply findOne_updateOne; [done |].
      apply findOne_Some in Hf as [_ Hmd]. subst q.
      apply filter_id_matches. apply filter_id_matches in Hmd.
      rewrite lookup_union_r by (by subst upd; rewrite lookup_singleton_ne).
      done. }
    assert (modifiedCount q upd (Mongo.updateOne q upd couponsCollection)
            = 0%nat) as H0.
    { unfold modifiedCount. rewrite Hagain.
      rewrite bool_decide_true; [done |].
      by rewrite (assoc_L (∪)), (idemp_L (∪)). }
    rewrite H0. cbn [Nat.eqb]. by rewrite (updateOne_unmodified _ _ _ H0).
Qed.

End CouponFacts.

(** X20: every stored payment has the required fields: when each payment
    of the collection has a truthy email, month and rent, each has after
    [POST /payments]; a body that lacks one is answered 400 and not
    stored. *)
Theorem post_payments_complete (oid : N) (paymentData : doc)
    (paymentsCollection : list doc) :
  Forall complete_payment paymentsCollection →
  Forall complete_payment (post_payments oid paymentData paymentsCollection).2
  ∧ (¬ complete_payment paymentData →
       post_payments oid paymentData paymentsCollection
       = (say 400 "Missing required fields", paymentsCollection)).
Proof.
  intros Hall. unfold post_payments.
  destruct (JS.to_boolean (paymentData !! "email")) eqn:H1;
    destruct (JS.to_boolean (paymentData !! "month")) eqn:H2;
    destruct (JS.to_boolean (paymentData !! "rent")) eqn:H3; cbn [negb orb snd];
    try (split; [exact Hall | done]).
  split.
  - unfold Mongo.insertOne.
    destruct (Mongo.duplicate_key _ _); cbn [snd]; [done |].
    apply Forall_app. split; [done |].
    apply Forall_singleton. unfold complete_payment.
    by rewrite !with_id_lookup.
  - intros Hn. destruct Hn. by unfold complete_payment.
Qed.

Lemma post_payments_complete_witness :
  let p : doc := {["email" := VStr "alice@x.io"; "month" := VStr "May";
                   "rent" := VNum 900]} in
  Forall complete_payment (post_payments 7 p []).2
  ∧ post_payments 7 (delete "rent" p) []
    = (say 400 "Missing required fields", []).
Proof.
  intros p. split.
  - apply (post_payments_complete 7 p []). constructor.
  - apply (post_payments_complete 7 (delete "rent" p) []); [constructor |].
    intros (_ & _ & H). vm_compute in H. discriminate.
Defined.

(** ** Occupancy *)

Section OccupancyFacts.

Variable toString : option value → string.
Variable numberToString : float → string.
Variable isValid : string → bool.
Variable ObjectId : string → N.

Lemma occupied_fold (m : gmap string bool) (agreements : list doc) (k : string) :
  is_Some (foldl (λ (m : gmap string bool) (a : doc),
                    <[key toString a := true]> m) m agreements !! k)
  ↔ is_Some (m !! k) ∨ ∃ a, a ∈ agreements ∧ key toString a = k.
Proof.
  revert m. induction agreements as [|a ags IH]; intros m; simpl.
  - split; [by left | intros [H | (a & Ha & _)]; [done | inversion Ha]].
  - rewrite IH. split.
    + intros [H | (a' & Ha' & Hk)].
      * destruct (decide (key toString a = k)) as [Heq | Hne].
        -- right. exists a. split; [apply list_elem_of_here | done].
        -- left. by rewrite lookup_insert_ne in H.
      * right. exists a'. split; [by apply list_elem_of_further | done].
    + intros [H | (a' & Ha' & Hk)].
      * left. destruct (decide (key toString a = k)) as [<- | Hne].
        -- rewrite lookup_insert_eq. by eexists.
        -- by rewrite lookup_insert_ne.
      * apply elem_of_cons in Ha' as [-> | Ha'].
        -- left. rewrite <- Hk, lookup_insert_eq. by eexists.
        -- right. by exists a'.
Qed.

(** The occupied keys are the keys of the agreements. *)
Lemma occupiedMap_lookup (agreements : list doc) (k : string) :
  is_Some (occupiedMap toString agreements !! k)
  ↔ ∃ a, a ∈ agreements ∧ key toString a = k.
Proof.
  unfold occupiedMap. rewrite occupied_fold. rewrite lookup_empty.
  split; [intros [[? H] | H]; [done | done] | by right].
Qed.

Lemma checked_matches (a : doc) :
  Mongo.matches [("status", Mongo.Eq (VStr "checked"))] a = true
  ↔ a !! "status" = Some (VStr "checked").
Proof.
  simpl. unfold Mongo.holds, Mongo.field_is; simpl.
  by rewrite andb_true_r, bool_decide_eq_true, bson_str.
Qed.

(** X21: the statistics count an apartment as unavailable exactly when
    some agreement with status [checked] has its key, block name and
    apartment number joined by a dash: pending and rejected agreements
    never count, and the count never exceeds the total. *)
Theorem stats_count_checked (s : db) :
  ∃ availablePercentage unavailablePercentage,
    get_apartments_stats toString numberToString s
    = ok (Stats (length (apartments s))
            availablePercentage unavailablePercentage)
    ∧ availablePercentage
      = percentage numberToString
          (length (apartments s)
           - length (List.filter
               (λ ap : doc,
                  existsb (λ a : doc,
                             bool_decide (a !! "status" = Some (VStr "checked"))
                             && String.eqb (key toString a) (key toString ap))
                    (agreements s))
               (apartments s)))
          (length (apartments s))
    ∧ unavailablePercentage
      = percentage numberToString
          (length (List.filter
               (λ ap : doc,
                  existsb (λ a : doc,
                             bool_decide (a !! "status" = Some (VStr "checked"))
                             && String.eqb (key toString a) (key toString ap))
                    (agreements s))
               (apartments s)))
          (length (apartments s)).
Proof.
  eexists _, _. split; [reflexivity |].
  assert (unavailable toString (apartments s)
            (Mongo.find [("status", Mongo.Eq (VStr "checked"))] (agreements s))
          = length (List.filter
               (λ ap : doc,
                  existsb (λ a : doc,
                             bool_decide (a !! "status" = Some (VStr "checked"))
                             && String.eqb (key toString a) (key toString ap))
                    (agreements s))
               (apartments s))) as ->; [| done].
  unfold unavailable. f_equal. apply List.filter_ext. intros ap.
  apply eq_true_iff_eq.
  rewrite bool_decide_eq_true, occupiedMap_lookup, existsb_exists.
  split.
  - intros (a & Ha & Hk). apply find_elem in Ha as [Ha Hm].
    apply checked_matches in Hm. exists a.
    rewrite <- list_elem_of_In, andb_true_iff, bool_decide_eq_true.
    split_and!; [done | done |]. by apply String.eqb_eq.
  - intros (a & Ha & Hc). apply andb_true_iff in Hc as [Hc Hk].
    apply bool_decide_eq_true in Hc. apply String.eqb_eq in Hk.
    exists a. split; [| done]. apply find_elem.
    split; [by apply list_elem_of_In | by apply checked_matches].
Qed.

(** X22: a submission that does not say [checked] leaves the statistics as
    they were, stored or not. *)
Theorem post_agreements_stats (oid : N) (req : request) (s : db) :
  body req !! "status" ≠ Some (VStr "checked") →
  get_apartments_stats toString numberToString (post_agreements oid req s).2
  = get_apartments_stats toString numberToString s.
Proof.
  intros Hs. rewrite post_agreements_cases.
  destruct (existingAgreement _ _); [done |].
  destruct (memberUser _ _); [done |].
  destruct (Mongo.duplicate_key _ _); [done |].
  unfold get_apartments_stats. cbn [snd agreements apartments].
  rewrite find_app. unfold Mongo.find at 2. cbn [List.filter].
  assert (Mongo.matches [("status", Mongo.Eq (VStr "checked"))]
            (Mongo.with_id oid (body req)) = false) as ->.
  { apply not_true_is_false. rewrite checked_matches.
    by rewrite with_id_lookup. }
  by rewrite app_nil_r.
Qed.

(** X23: an approval makes the apartment unavailable: after a decision
    that writes [checked] into the agreement it finds, every apartment
    with that agreement's key is among those the statistics count as
    unavailable. *)
Theorem patch_agreement_occupies (now : Z) (req : request) (s : db)
    (a ap : doc) :
  isValid (id req) = true →
  Mongo.findOne (filter_id ObjectId (id req)) (agreements s) = Some a →
  JS.or_else (body req !! "status") (VStr "checked") = VStr "checked" →
  ap ∈ apartments s → key toString ap = key toString a →
  let s' := (patch_agreement isValid ObjectId now req s).2 in
  ap ∈ List.filter
         (λ ap : doc,
            bool_decide
              (is_Some
                 (occupiedMap toString
                    (Mongo.find [("status", Mongo.Eq (VStr "checked"))]
                       (agreements s')) !! key toString ap)))
         (apartments s').
Proof.
  intros Hv Hf Hst Hap Hk. simpl.
  destruct (patch_agreement_matched isValid ObjectId now req s a Hv Hf)
    as (i & Hi & _ & ->). cbn [snd agreements apartments].
  apply list_elem_of_In, filter_In. split; [by apply list_elem_of_In |].
  apply bool_decide_eq_true, occupiedMap_lookup.
  exists (updateFields now (body req) ∪ a). split.
  - apply find_elem. split.
    + apply list_elem_of_lookup. exists i. apply list_lookup_insert_eq.
      by apply lookup_lt_Some in Hi.
    + apply checked_matches. apply lookup_union_Some_l.
      by rewrite updateFields_status, Hst.
  - rewrite Hk. unfold key.
    by rewrite !lookup_union_r by (by apply updateFields_other).
Qed.

End OccupancyFacts.

Lemma post_agreements_stats_witness :
  let s := {| users := [Sample.user "alice@x.io" "user"];
              agreements := [];
              apartments := [Sample.apartment "B1" "101"] |} in
  let b := <["status" := VStr "pending"]>
             (Sample.submission "alice@x.io" "B1" "101") in
  get_apartments_stats Sample.toString Sample.numberToString
    (post_agreements 9 (Sample.request_of "" b) s).2
  = ok (Stats 1 (Str "100.00") (Str "0.00")).
Proof.
  intros s b.
  rewrite (post_agreements_stats Sample.toString Sample.numberToString 9
             (Sample.request_of "" b) s); [| vm_compute; discriminate].
  vm_compute. reflexivity.
Defined.

Lemma patch_agreement_occupies_witness :
  let s := {| users := [Sample.user "alice@x.io" "user"];
              agreements := [Sample.agreement 1 "alice@x.io" "B1" "101" "pending"];
              apartments := [Sample.apartment "B1" "101"] |} in
  let req := Sample.request_of Sample.id1 {["role" := VStr "member"]} in
  get_apartments_stats Sample.toString Sample.numberToString
    (patch_agreement Sample.isValid Sample.ObjectId 1000 req s).2
  = ok (Stats 1 (Str "0.00") (Str "100.00"))
  ∧ Sample.apartment "B1" "101"
    ∈ List.filter
        (λ ap : doc,
           bool_decide
             (is_Some
                (occupiedMap Sample.toString
                   (Mongo.find [("status", Mongo.Eq (VStr "checked"))]
                      (agreements
                         (patch_agreement Sample.isValid Sample.ObjectId 1000
                            req s).2))
                 !! key Sample.toString ap)))
        (apartments
           (patch_agreement Sample.isValid Sample.ObjectId 1000 req s).2).
Proof.
  intros s req. split; [vm_compute; reflexivity |].
  apply (patch_agreement_occupies Sample.toString Sample.isValid
           Sample.ObjectId 1000 req s
           (Sample.agreement 1 "alice@x.io" "B1" "101" "pending")
           (Sample.apartment "B1" "101")); try (vm_compute; reflexivity).
  apply list_elem_of_here.
Defined.

(** ** Roles across routes *)

(** X24: [POST /users] stores the role of the body for an email that has
    no record yet, unless the body brings an [_id] that a stored user has,
    and the stored role is the one the gates then see: a principal with
    that email gets through a role gate exactly when the body's role is the
    gate's own, [admin] included.  With an [_id] that is taken nothing is
    stored and the gates keep turning the principal away. *)
Theorem post_users_then_gate (cap : capability) (oid : N) (b : doc) (s : db)
    (e : string) (req : request) :
  b !! "email" = Some (VStr e) →
  Mongo.findOne [("email", Mongo.Eq (VStr e))] (users s) = None →
  decoded req = Some {| email := Some e |} →
  (no_duplicate_key b (users s) →
     (gate cap (users (post_users oid b s).2) req = Next req
      ↔ b !! "role" = Some (VStr (role_name cap))))
  ∧ (¬ no_duplicate_key b (users s) →
     (post_users oid b s).2 = s
     ∧ gate cap (users (post_users oid b s).2) req ≠ Next req).
Proof.
  intros Hb Hnone Hd. rewrite post_users_cases, Hb. cbn [Mongo.bson].
  rewrite Hnone.
  assert (by_email {| email := Some e |} = [("email", Mongo.Eq (VStr e))])
    as Hq by reflexivity.
  split.
  - intros Hk. apply duplicate_key_false in Hk. rewrite Hk. cbn [snd users].
    rewrite (gate_cases cap _ req _ Hd), Hq, findOne_app, Hnone.
    assert (Mongo.matches [("email", Mongo.Eq (VStr e))] (Mongo.with_id oid b)
            = true) as Hm.
    { apply email_matches. by rewrite with_id_lookup, Hb. }
    unfold Mongo.findOne. cbn [List.find]. rewrite Hm.
    rewrite with_id_lookup by done.
    case_bool_decide as Hr; [done |]. split; [done | intros H; by destruct Hr].
  - intros Hk. destruct (Mongo.duplicate_key b (users s)) eqn:Hdk;
      [| by apply duplicate_key_false in Hdk].
    cbn [snd]. split; [done |].
    by rewrite (gate_cases cap _ req _ Hd), Hq, Hnone.
Qed.

Lemma post_users_then_gate_witness :
  let s := {| users := [Sample.user "alice@x.io" "user"];
              agreements := []; apartments := [] |} in
  let req := {| authorization := None; id := ""; body := ∅;
                decoded := Some {| email := Some "eve@x.io" |} |} in
  gate CapAdmin (users (post_users 7 (Sample.user "eve@x.io" "admin") s).2) req
  = Next req.
Proof.
  intros s req.
  apply (proj1 (post_users_then_gate CapAdmin 7
                  (Sample.user "eve@x.io" "admin") s "eve@x.io" req
                  eq_refl eq_refl eq_refl)).
  - apply duplicate_key_false. vm_compute. reflexivity.
  - vm_compute. reflexivity.
Defined.

Section PromotionFacts.

Variable isValid : string → bool.
Variable ObjectId : string → N.

(** X25: a promoted owner changes gates: after a decision with the role
    [member] on an agreement whose email is non-empty and has a user
    record, a principal with that email gets through the [member] gate and
    is answered 403 by the [user] gate, so it cannot submit another
    agreement, and by the [admin] gate. *)
Theorem promotion_changes_gates (now : Z) (req : request) (s : db) (a u : doc)
    (e : string) (req' : request) :
  isValid (id req) = true →
  Mongo.findOne (filter_id ObjectId (id req)) (agreements s) = Some a →
  body req !! "role" = Some (VStr "member") →
  a !! "email" = Some (VStr e) → e ≠ "" →
  Mongo.findOne [("email", Mongo.Eq (VStr e))] (users s) = Some u →
  decoded req' = Some {| email := Some e |} →
  let users' := users (patch_agreement isValid ObjectId now req s).2 in
  gate CapMember users' req' = Next req'
  ∧ gate CapUser users' req'
    = Reply {| status := 403; sent := Message "Only users can access this route" |}
  ∧ gate CapAdmin users' req'
    = Reply {| status := 403; sent := Message "Forbidden Access" |}.
Proof.
  intros Hv Hf Hrole He Hne Hu Hd users'. subst users'.
  destruct (patch_agreement_matched isValid ObjectId now req s a Hv Hf)
    as (i & Hi & _ & ->). cbn [snd users].
  rewrite bool_decide_true by done. rewrite He. cbn [JS.to_boolean JS.truthy].
  destruct (String.eqb_spec e "") as [-> | _]; [done |]. cbn [negb andb].
  cbn [Mongo.bson].
  destruct (promoted_role (VStr e) (users s) u Hu) as (u' & Hu' & Hr & _).
  rewrite !(gate_cases _ _ req' _ Hd).
  change (by_email {| email := Some e |}) with [("email", Mongo.Eq (VStr e))].
  rewrite Hu', Hr. done.
Qed.

End PromotionFacts.

Lemma promotion_changes_gates_witness :
  let s := {| users := [Sample.user "alice@x.io" "user"];
              agreements := [Sample.agreement 1 "alice@x.io" "B1" "101" "pending"];
              apartments := [] |} in
  let req := Sample.request_of Sample.id1 {["role" := VStr "member"]} in
  let req' := Sample.request_of "" (Sample.submission "alice@x.io" "B2" "7") in
  gate CapUser
    (users (patch_agreement Sample.isValid Sample.ObjectId 1000 req s).2) req'
  = Reply {| status := 403; sent := Message "Only users can access this route" |}.
Proof.
  intros s req req'.
  apply (promotion_changes_gates Sample.isValid Sample.ObjectId 1000 req s
           (Sample.agreement 1 "alice@x.io" "B1" "101" "pending")
           (Sample.user "alice@x.io" "user") "alice@x.io" req');
    try done; vm_compute; reflexivity.
Defined.

(** X26: the handler of [PATCH /users/:id] throws, sending no answer of
    its own and writing nothing, in one case only: the caller got through
    the credential check and the [admin] gate, and the identifier is
    malformed.  Every other request is answered by the route's own code.
    (What the client receives for the exception is the framework's error
    handling, which is not part of this file.) *)
Theorem patch_user_route_throws
    (verifyIdToken : string → option decoded_token)
    (isValid : string → bool) (ObjectId : string → N) (s : db)
    (req : request) :
  patch_user_route verifyIdToken isValid ObjectId s req = None
  ↔ isValid (id req) = false
    ∧ ∃ t d user, credential req = Some t ∧ verifyIdToken t = Some d
        ∧ Mongo.findOne (by_email d) (users s) = Some user
        ∧ user !! "role" = Some (VStr "admin").
Proof.
  unfold patch_user_route.
  change (verifyAdmin (users s)) with (gate CapAdmin (users s)).
  destruct (through _ req) as [req' | res |] eqn:Ht.
  - apply through_gates_Next in Ht as (t & d & u & Hc & Hv & Hu & Hr & ->).
    unfold patch_user. cbn [id set_decoded].
    destruct (isValid (id req)); cbn [negb].
    + split; [done | by intros [? _]].
    + split; [intros _ | done]. split; [done |]. by exists t, d, u.
  - split; [done |]. intros (_ & t & d & u & Hc & Hv & Hu & Hr).
    assert (through [verifyFirebaseToken verifyIdToken; gate CapAdmin (users s)]
              req = Next (set_decoded d req)) as Hn
      by (apply through_gates_Next; by exists t, d, u).
    congruence.
  - by apply through_gates_no_Throw in Ht.
Qed.
